(** * baseline-pdf: a shallow embedding of the PDF writer

    The development follows the Go package [pdf] of
    boxesandglue/baseline-pdf: the value model and its serialization
    ([writer.go], [pdfobject.go]), the sequential document writer with its
    object-location table, the page/outline assembly and the
    cross-reference emitter ([writer.go]), the subset tag of the font
    pipeline and the box geometry of imported PDF pages ([imagefile.go]).

    Conventions.
    - A Go [string] and a [bytes.Buffer] are byte sequences; both are Rocq
      [string]s (sequences of 8-bit [ascii]).
    - Go [int], [int64], [uint] are [Z]; sizes of files and counts of
      objects stay far below 2^63, so no wrap-around occurs in the writer
      (the 8-bit additions of the subset tag do wrap and are written out).
    - [float64] is Rocq's primitive binary64 [float].
    - A Go [map] is an association list whose order stands for the
      (unspecified) iteration order of [range]; keys are pairwise distinct.
      The object-location table, which is only looked up, is a [gmap].
    - Pointers to [Object] are addresses into an object store kept in the
      writer state, so that aliasing and in-place mutation are preserved.
    - The output sink is an in-memory buffer: writes do not fail. *)

From Stdlib Require Import ZArith Ascii String List Floats Lia Bool Permutation Sorted.
From stdpp Require Import gmap strings list sorting.

Set Warnings "-register-all".
Local Open Scope Z_scope.


(** ** Go runtime pieces used by the package: [fmt], [strings], [sort] *)

Module GoFmt.

(** [strings.Repeat(s, n)] *)
Fixpoint Repeat (s : string) (n : nat) : string :=
  match n with
  | O => ""
  | S k => s +:+ Repeat s k
  end.

(** Concatenation of a list of strings ([strings.Builder] writes). *)
Fixpoint cat (l : list string) : string :=
  match l with
  | [] => ""
  | s :: t => s +:+ cat t
  end.

(** [strings.Join(l, sep)] *)
Fixpoint Join (l : list string) (sep : string) : string :=
  match l with
  | [] => ""
  | [s] => s
  | s :: t => s +:+ sep +:+ Join t sep
  end.

Definition byteOf (n : Z) : ascii := ascii_of_N (Z.to_N n).
Definition codeOf (c : ascii) : Z := Z.of_N (N_of_ascii c).

Definition digitChar (d : Z) : ascii := byteOf (48 + d).

(** Decimal digits of a non-negative number, most significant first.
    The fuel is the bit length of the number, which bounds its number
    of decimal digits. *)
Fixpoint digitsFuel (fuel : nat) (n : Z) (acc : string) : string :=
  match fuel with
  | O => acc
  | S f =>
      let acc' := String (digitChar (n mod 10)) acc in
      if n / 10 =? 0 then acc' else digitsFuel f (n / 10) acc'
  end.

Definition formatUint (n : Z) : string :=
  digitsFuel (S (Z.to_nat (Z.log2 n))) n "".

(** [fmt.Sprintf("%d", n)] *)
Definition fmt_d (n : Z) : string :=
  if n <? 0 then "-" +:+ formatUint (- n) else formatUint n.

Definition padZero (w : nat) (s : string) : string :=
  Repeat "0" (w - String.length s) +:+ s.

(** [fmt.Sprintf("%0<w>d", n)]: zero padding goes after the sign. *)
Definition fmt_0d (w : nat) (n : Z) : string :=
  if n <? 0 then "-" +:+ padZero (w - 1) (formatUint (- n))
  else padZero w (formatUint n).

Definition hexChar (upper : bool) (d : Z) : ascii :=
  if d <? 10 then byteOf (48 + d)
  else byteOf ((if upper then 55 else 87) + d).

(** Exactly [k] hexadecimal digits of [n], most significant first. *)
Fixpoint hexFixed (upper : bool) (k : nat) (n : Z) : string :=
  match k with
  | O => ""
  | S j => hexFixed upper j (n / 16) +:+ String (hexChar upper (n mod 16)) ""
  end.

(** [fmt.Sprintf("%04x", u)] for a 16-bit unsigned [u]. *)
Definition fmt_04x (u : Z) : string := hexFixed false 4 u.

(** [fmt.Sprintf("%X", b)] for a byte array [b]: two upper-case digits
    per byte. *)
Definition fmt_X (b : list Z) : string := cat (map (hexFixed true 2) b).

(** [strings.NewReplacer(old1, new1, ...).Replace(s)]: the target is
    scanned left to right without overlapping matches; at each position
    the old strings are compared in argument order.  All old strings of
    the package's replacers are non-empty. *)
Fixpoint lookupOld (pairs : list (string * string)) (s : string)
  : option (string * string) :=
  match pairs with
  | [] => None
  | (old, new) :: ps =>
      if String.prefix old s then Some (old, new) else lookupOld ps s
  end.

Fixpoint replaceFrom (pairs : list (string * string)) (skip : nat) (s : string)
  : string :=
  match s with
  | EmptyString => ""
  | String c rest =>
      match skip with
      | S k => replaceFrom pairs k rest
      | O =>
          match lookupOld pairs s with
          | Some (old, new) =>
              new +:+ replaceFrom pairs (String.length old - 1) rest
          | None => String c (replaceFrom pairs O rest)
          end
      end
  end.

Definition Replace (pairs : list (string * string)) (s : string) : string :=
  replaceFrom pairs O s.

(** [strings.CutPrefix(s, prefix)], for a one-byte prefix. *)
Definition CutPrefix1 (s : string) (p : ascii) : string :=
  match s with
  | String c rest => if Ascii.eqb c p then rest else s
  | EmptyString => s
  end.

(** [sort.Sort] / [sort.Slice] / [sort.Strings]: the result is the
    arrangement of the input that is ordered by [less].  The package
    sorts map keys (pairwise distinct) and integers, for which that
    arrangement is unique, so the algorithm used by the library does not
    show; insertion is used here. *)
Section Sort.
Context {A : Type} (less : A -> A -> bool).

Fixpoint insertSorted (x : A) (l : list A) : list A :=
  match l with
  | [] => [x]
  | y :: t => if less x y then x :: y :: t else y :: insertSorted x t
  end.

Fixpoint Sort (l : list A) : list A :=
  match l with
  | [] => []
  | x :: t => insertSorted x (Sort t)
  end.
End Sort.

(** Go compares strings bytewise. *)
Definition stringLess (a b : string) : bool := String.ltb a b.

End GoFmt.


(** ** MD5 ([crypto/md5], RFC 1321) on byte sequences *)

Module MD5.

Definition w32 (x : Z) : Z := x mod 2 ^ 32.

Definition rotl (x : Z) (c : Z) : Z :=
  w32 (Z.lor (Z.shiftl x c) (Z.shiftr x (32 - c))).

Definition not32 (x : Z) : Z := Z.lxor x 0xffffffff.

(** The sine table: [K i = floor (2^32 * |sin (i + 1)|)]. *)
Definition K : list Z :=
  [
    0xd76aa478; 0xe8c7b756; 0x242070db; 0xc1bdceee;
    0xf57c0faf; 0x4787c62a; 0xa8304613; 0xfd469501;
    0x698098d8; 0x8b44f7af; 0xffff5bb1; 0x895cd7be;
    0x6b901122; 0xfd987193; 0xa679438e; 0x49b40821;
    0xf61e2562; 0xc040b340; 0x265e5a51; 0xe9b6c7aa;
    0xd62f105d; 0x02441453; 0xd8a1e681; 0xe7d3fbc8;
    0x21e1cde6; 0xc33707d6; 0xf4d50d87; 0x455a14ed;
    0xa9e3e905; 0xfcefa3f8; 0x676f02d9; 0x8d2a4c8a;
    0xfffa3942; 0x8771f681; 0x6d9d6122; 0xfde5380c;
    0xa4beea44; 0x4bdecfa9; 0xf6bb4b60; 0xbebfbc70;
    0x289b7ec6; 0xeaa127fa; 0xd4ef3085; 0x04881d05;
    0xd9d4d039; 0xe6db99e5; 0x1fa27cf8; 0xc4ac5665;
    0xf4292244; 0x432aff97; 0xab9423a7; 0xfc93a039;
    0x655b59c3; 0x8f0ccc92; 0xffeff47d; 0x85845dd1;
    0x6fa87e4f; 0xfe2ce6e0; 0xa3014314; 0x4e0811a1;
    0xf7537e82; 0xbd3af235; 0x2ad7d2bb; 0xeb86d391 ].

Definition shifts : list Z :=
  [ 7; 12; 17; 22; 7; 12; 17; 22; 7; 12; 17; 22; 7; 12; 17; 22;
    5; 9; 14; 20; 5; 9; 14; 20; 5; 9; 14; 20; 5; 9; 14; 20;
    4; 11; 16; 23; 4; 11; 16; 23; 4; 11; 16; 23; 4; 11; 16; 23;
    6; 10; 15; 21; 6; 10; 15; 21; 6; 10; 15; 21; 6; 10; 15; 21 ].

(** Little-endian bytes of a number. *)
Fixpoint leBytes (k : nat) (x : Z) : list Z :=
  match k with
  | O => []
  | S j => x mod 256 :: leBytes j (x / 256)
  end.

Fixpoint leWord (bs : list Z) : Z :=
  match bs with
  | [] => 0
  | b :: t => b + 256 * leWord t
  end.

(** Padding: a one bit, zeros up to 56 modulo 64, the bit length on 64
    bits. *)
Definition pad (msg : list Z) : list Z :=
  let len := Z.of_nat (length msg) in
  let zeros := Z.to_nat ((55 - len) mod 64) in
  msg ++ [0x80] ++ repeat 0 zeros ++ leBytes 8 ((8 * len) mod 2 ^ 64).

(** Splits into chunks of [n] elements; [fuel] bounds the number of
    chunks. *)
Fixpoint chunks {A} (fuel : nat) (n : nat) (l : list A) : list (list A) :=
  match fuel with
  | O => []
  | S f =>
      match l with
      | [] => []
      | _ => firstn n l :: chunks f n (skipn n l)
      end
  end.

Definition words (block : list Z) : list Z :=
  map leWord (chunks 16 4 block).

Definition state := (Z * Z * Z * Z)%type.

Definition round (M : list Z) (st : state) (i : nat) : state :=
  let '(A, B, C, D) := st in
  let iz := Z.of_nat i in
  let '(F, g) :=
    if iz <? 16 then (Z.lor (Z.land B C) (Z.land (not32 B) D), iz)
    else if iz <? 32 then (Z.lor (Z.land D B) (Z.land (not32 D) C), (5 * iz + 1) mod 16)
    else if iz <? 48 then (Z.lxor (Z.lxor B C) D, (3 * iz + 5) mod 16)
    else (Z.lxor C (Z.lor B (not32 D)), (7 * iz) mod 16) in
  let F' := w32 (F + A + nth i K 0 + nth (Z.to_nat g) M 0) in
  (D, w32 (B + rotl F' (nth i shifts 0)), B, C).

Definition processBlock (st : state) (block : list Z) : state :=
  let '(a0, b0, c0, d0) := st in
  let '(A, B, C, D) := fold_left (round (words block)) (seq 0 64) st in
  (w32 (a0 + A), w32 (b0 + B), w32 (c0 + C), w32 (d0 + D)).

Definition init : state := (0x67452301, 0xefcdab89, 0x98badcfe, 0x10325476).

(** [md5.Sum]: the 16 digest bytes. *)
Definition Sum (msg : list Z) : list Z :=
  let p := pad msg in
  let '(A, B, C, D) := fold_left processBlock (chunks (length p) 64 p) init in
  leBytes 4 A ++ leBytes 4 B ++ leBytes 4 C ++ leBytes 4 D.

Definition bytesOf (s : string) : list Z :=
  map GoFmt.codeOf (list_ascii_of_string s).

Definition SumString (s : string) : list Z := Sum (bytesOf s).

End MD5.


(** ** Text encodings: UTF-8 decoding, UTF-16 encoding *)

Module Unicode.
Import GoFmt.

Definition RuneError : Z := 0xFFFD.

(** [utf8.DecodeRuneInString]: the first code point of [s] and its width
    in bytes.  A byte that does not start a well-formed sequence decodes
    to [RuneError] with width 1. *)
Definition decodeRune (s : string) : Z * nat :=
  match s with
  | EmptyString => (RuneError, O)
  | String c0 t0 =>
      let b0 := codeOf c0 in
      if b0 <? 0x80 then (b0, 1%nat)
      else if (b0 <? 0xC2) || (0xF4 <? b0) then (RuneError, 1%nat)
      else
        let lo := if b0 =? 0xE0 then 0xA0 else if b0 =? 0xF0 then 0x90 else 0x80 in
        let hi := if b0 =? 0xED then 0x9F else if b0 =? 0xF4 then 0x8F else 0xBF in
        match t0 with
        | EmptyString => (RuneError, 1%nat)
        | String c1 t1 =>
            let b1 := codeOf c1 in
            if (b1 <? lo) || (hi <? b1) then (RuneError, 1%nat)
            else if b0 <? 0xE0 then
              (Z.lor (Z.shiftl (Z.land b0 0x1F) 6) (Z.land b1 0x3F), 2%nat)
            else
              match t1 with
              | EmptyString => (RuneError, 1%nat)
              | String c2 t2 =>
                  let b2 := codeOf c2 in
                  if (b2 <? 0x80) || (0xBF <? b2) then (RuneError, 1%nat)
                  else if b0 <? 0xF0 then
                    (Z.lor (Z.lor (Z.shiftl (Z.land b0 0x0F) 12)
                                  (Z.shiftl (Z.land b1 0x3F) 6))
                           (Z.land b2 0x3F), 3%nat)
                  else
                    match t2 with
                    | EmptyString => (RuneError, 1%nat)
                    | String c3 _ =>
                        let b3 := codeOf c3 in
                        if (b3 <? 0x80) || (0xBF <? b3) then (RuneError, 1%nat)
                        else
                          (Z.lor (Z.lor (Z.lor (Z.shiftl (Z.land b0 0x07) 18)
                                               (Z.shiftl (Z.land b1 0x3F) 12))
                                        (Z.shiftl (Z.land b2 0x3F) 6))
                                 (Z.land b3 0x3F), 4%nat)
                    end
              end
        end
  end.

(** [[]rune(s)], also the sequence visited by [for _, g := range s]. *)
Fixpoint runesFrom (skip : nat) (s : string) : list Z :=
  match s with
  | EmptyString => []
  | String _ rest =>
      match skip with
      | S k => runesFrom k rest
      | O => let '(r, size) := decodeRune s in r :: runesFrom (size - 1) rest
      end
  end.

Definition runes (s : string) : list Z := runesFrom O s.

(** [utf16.Encode] *)
Definition encodeRune16 (v : Z) : list Z :=
  if ((0 <=? v) && (v <? 0xd800)) || ((0xe000 <=? v) && (v <? 0x10000)) then [v]
  else if (0x10000 <=? v) && (v <=? 0x10FFFF) then
    let r := v - 0x10000 in
    [0xd800 + Z.land (Z.shiftr r 10) 0x3ff; 0xdc00 + Z.land r 0x3ff]
  else [RuneError].

Definition utf16Encode (rs : list Z) : list Z := flat_map encodeRune16 rs.

End Unicode.

(** ** The value model *)

(** Formatting of floating-point numbers and the DEFLATE compressor are
    library routines whose results the package copies into the output
    without looking at them. *)
Class GoRuntime := {
  (** [strconv.FormatFloat(f, 'f', -1, 64)] *)
  FormatFloat : float -> string;
  (** [math.Round] *)
  mathRound : float -> float;
  (** [fmt.Sprintf("%0.5g", f)] *)
  fmt_05g : float -> string;
  (** [fmt.Sprintf("%.2f", f)] *)
  fmt_2f : float -> string;
  (** the raw DEFLATE stream written by [compress/flate] for a payload *)
  flate : string -> string
}.

(** [Name]: a Go string. *)
Definition Name := string.

(** Values that occur in dictionaries and arrays (Go [any]).  [VRaw] is a
    Go [string], written verbatim; [VString] is the package's [String];
    [VOther] stands for a value of any type that the type switch of
    [serializeLevel] does not list, given by its [%s] rendering. *)
Inductive value : Type :=
| VNil
| VRaw (s : string)
| VArray (a : list value)
| VInt (n : Z)
| VFloat (f : float)
| VDict (d : list (Name * value))
| VString (s : string)
| VNameTree (t : list (string * Z))
| VObjnum (n : Z)
| VName (n : Name)
| VOther (rendered : string).

(** [Dict]: [map[Name]any]. *)
Definition Dict := list (Name * value).

(** [map[K]V] with string keys as an association list. *)
Section GoMap.
Context {V : Type}.

Fixpoint mapGet (m : list (string * V)) (k : string) : option V :=
  match m with
  | [] => None
  | (k', v) :: t => if String.eqb k' k then Some v else mapGet t k
  end.

(** [m[k] = v] *)
Fixpoint mapSet (k : string) (v : V) (m : list (string * V)) : list (string * V) :=
  match m with
  | [] => [(k, v)]
  | (k', v') :: t =>
      if String.eqb k' k then (k, v) :: t else (k', v') :: mapSet k v t
  end.

Definition mapKeys (m : list (string * V)) : list string := map fst m.

(** [for k, v := range src { dst[k] = v }] *)
Definition mapMerge (dst src : list (string * V)) : list (string * V) :=
  fold_left (fun d kv => mapSet (fst kv) (snd kv) d) src dst.
End GoMap.

(** [d[k]] for a [Dict]: the zero value of [any] is [nil]. *)
Definition dictIndex (d : Dict) (k : Name) : value :=
  match mapGet d k with Some v => v | None => VNil end.

Import GoFmt Unicode.

Definition pdfStringReplacer : list (string * string) :=
  [ ("(", "\("); (")", "\)"); ("\", "\\");
    (String (byteOf 10) "", "\n"); (String (byteOf 13) "", "\r");
    (String (byteOf 9) "", "\t"); (String (byteOf 8) "", "\b");
    (String (byteOf 9) "", "\t") ].

Definition PDFNameReplacer : list (string * string) :=
  [ ("#20", " "); ("/", "#2f"); ("#", "#23"); ("(", "#28"); (")", "#29") ].

(** [Objectnumber.Ref] and [Objectnumber.String] *)
Definition Ref (o : Z) : string := fmt_d o +:+ " 0 R".

(** [Name.String] *)
Definition NameString (n : Name) : string :=
  let r := CutPrefix1 n "/" in
  "/" +:+ Replace PDFNameReplacer r.

(** [stringToPDF] *)
Definition stringToPDF (str : string) : string :=
  let isASCII := forallb (fun g => negb (127 <? g)) (runes str) in
  if isASCII then
    "(" +:+ Replace pdfStringReplacer str +:+ ")"
  else
    "<feff" +:+ cat (map fmt_04x (utf16Encode (runes str))) +:+ ">".

(** [sortByName.Less] *)
Definition sortByNameLess (a b : Name) : bool :=
  if String.eqb a "Type" then true
  else if String.eqb b "Type" then false
  else stringLess a b.

(** The text of a dictionary whose values are already rendered: the loop
    of [hashToString] over the sorted keys. *)
Definition hashLines (rendered : list (Name * string)) (level : nat) : string :=
  let keys := Sort sortByNameLess (mapKeys rendered) in
  "<<" +:+ String (byteOf 10) "" +:+
  cat (map (fun key =>
              Repeat " " (level + 1) +:+ NameString key +:+ " " +:+
              match mapGet rendered key with Some s => s | None => "" end +:+
              String (byteOf 10) "")
           keys) +:+
  Repeat " " level +:+ ">>".

Section Serialize.
Context {rt : GoRuntime}.

(** [serializeLevel].  The case [Dict] is [hashToString(t, level+1)]:
    each entry's value is rendered one level deeper, then the lines are
    laid out in key order. *)
Fixpoint serializeLevel (item : value) (level : nat) {struct item} : string :=
  match item with
  | VNil => "%!s(<nil>)"
  | VRaw t => t
  | VArray t =>
      Join (("[" :: map (fun elt => serializeLevel elt O) t) ++ ["]"]) " "
  | VInt t => fmt_d t
  | VFloat t => FormatFloat t
  | VDict t =>
      hashLines
        (map (fun kv => let '(k, v) := kv in (k, serializeLevel v (level + 1 + 1))) t)
        (level + 1)
  | VString t => stringToPDF t
  | VNameTree t =>
      let keys := Sort stringLess (mapKeys t) in
      "[ " +:+
      cat (map (fun k =>
                  stringToPDF k +:+ " " +:+
                  Ref (match mapGet t k with Some o => o | None => 0 end) +:+ " ")
               keys) +:+
      "]"
  | VObjnum t => Ref t
  | VName t => NameString t
  | VOther rendered => rendered
  end.

(** [Serialize] *)
Definition Serialize (item : value) : string := serializeLevel item O.

(** [arrayToString] *)
Definition arrayToString (ary : list value) : string :=
  Join (("[" :: map Serialize ary) ++ ["]"]) " ".

(** [hashToString] *)
Definition hashToString (h : Dict) (level : nat) : string :=
  hashLines
    (map (fun kv => let '(k, v) := kv in (k, serializeLevel v (level + 1))) h)
    level.

(** [serializeDict] *)
Definition serializeDict (d : Dict) : string := hashToString d O.

End Serialize.


(** ** Objects and the document writer *)

(** [Object].  The field [pdfwriter] is the one writer of the model. *)
Record Object := mkObject {
  ObjectNumber : Z;
  Data : string;
  Dictionary : Dict;
  Array : list value;
  Raw : bool;
  ForceStream : bool;
  compress : bool;
  comment : string;
  saved : bool
}.

(** [Annotation] *)
Record Annotation := mkAnnotation {
  Subtype : Name;
  Action : string;
  AnnotDictionary : Dict;
  Rect : float * float * float * float
}.

(** [Separation]; the ink values are not read by the writer. *)
Record Separation := mkSeparation {
  SepObj : Z;
  SepID : string
}.

(** [Face], as the writer sees it: its identity and the address of its
    Type0 font object. *)
Record Face := mkFace {
  FaceID : Z;
  fontobject : nat
}.

(** A box of a PDF page: [map[string]float64] with the keys [llx], [lly],
    [urx], [ury], [x], [y], [w], [h]. *)
Abbreviation Box := (gmap string float).

(** [Imagefile], as the writer and the box lookup see it. *)
Record Imagefile := mkImagefile {
  Filename : string;
  id : Z;
  NumberOfPages : Z;
  PageSizes : gmap Z (gmap string Box)
}.

(** [Page]; [contentStream] is the address of the content-stream object. *)
Record Page := mkPage {
  Objnum : Z;
  Annotations : list Annotation;
  Faces : list Face;
  Images : list Imagefile;
  Width : float;
  Height : float;
  OffsetX : float;
  OffsetY : float;
  PageDict : Dict;
  contentStream : nat
}.

(** [Outline] *)
Inductive Outline : Type :=
  mkOutline (Children : list Outline) (Title : string) (Open : bool)
            (Dest : string) (objectNumber : Z).

Definition Children (o : Outline) : list Outline :=
  let '(mkOutline c _ _ _ _) := o in c.
Definition Title (o : Outline) : string :=
  let '(mkOutline _ t _ _ _) := o in t.
Definition Open (o : Outline) : bool :=
  let '(mkOutline _ _ b _ _) := o in b.
Definition Dest (o : Outline) : string :=
  let '(mkOutline _ _ _ d _) := o in d.

(** [NameDest] *)
Record NameDest := mkNameDest {
  PageObjectnumber : Z;
  DestName : string;
  X : float;
  Y : float
}.

(** [PDF].  [store] holds the objects created by [NewObject] and
    [NewObjectWithNumber], by address; [Outlines] is [None] for a nil
    slice. *)
Record PDF := mkPDF {
  Catalog : Dict;
  InfoDict : Dict;
  DefaultOffsetX : float;
  DefaultOffsetY : float;
  DefaultPageWidth : float;
  DefaultPageHeight : float;
  Colorspaces : list Separation;
  NameDestinations : list (string * NameDest);
  Outlines : option (list Outline);
  Major : Z;
  Minor : Z;
  NoPages : Z;
  lastEOL : Z;
  names : Dict;
  nextobject : Z;
  objectlocations : gmap Z Z;
  outfile : string;
  pages : list Page;
  pos : Z;
  store : list Object
}.

(** Field updates. *)
Definition setSink (out : string) (p : Z) (pw : PDF) : PDF :=
  mkPDF (Catalog pw) (InfoDict pw) (DefaultOffsetX pw) (DefaultOffsetY pw)
        (DefaultPageWidth pw) (DefaultPageHeight pw) (Colorspaces pw)
        (NameDestinations pw) (Outlines pw) (Major pw) (Minor pw) (NoPages pw)
        (lastEOL pw) (names pw) (nextobject pw) (objectlocations pw)
        out (pages pw) p (store pw).

Definition setLastEOL (e : Z) (pw : PDF) : PDF :=
  mkPDF (Catalog pw) (InfoDict pw) (DefaultOffsetX pw) (DefaultOffsetY pw)
        (DefaultPageWidth pw) (DefaultPageHeight pw) (Colorspaces pw)
        (NameDestinations pw) (Outlines pw) (Major pw) (Minor pw) (NoPages pw)
        e (names pw) (nextobject pw) (objectlocations pw)
        (outfile pw) (pages pw) (pos pw) (store pw).

Definition setNextobject (n : Z) (pw : PDF) : PDF :=
  mkPDF (Catalog pw) (InfoDict pw) (DefaultOffsetX pw) (DefaultOffsetY pw)
        (DefaultPageWidth pw) (DefaultPageHeight pw) (Colorspaces pw)
        (NameDestinations pw) (Outlines pw) (Major pw) (Minor pw) (NoPages pw)
        (lastEOL pw) (names pw) n (objectlocations pw)
        (outfile pw) (pages pw) (pos pw) (store pw).

Definition setObjectlocations (l : gmap Z Z) (pw : PDF) : PDF :=
  mkPDF (Catalog pw) (InfoDict pw) (DefaultOffsetX pw) (DefaultOffsetY pw)
        (DefaultPageWidth pw) (DefaultPageHeight pw) (Colorspaces pw)
        (NameDestinations pw) (Outlines pw) (Major pw) (Minor pw) (NoPages pw)
        (lastEOL pw) (names pw) (nextobject pw) l
        (outfile pw) (pages pw) (pos pw) (store pw).

Definition setStore (s : list Object) (pw : PDF) : PDF :=
  mkPDF (Catalog pw) (InfoDict pw) (DefaultOffsetX pw) (DefaultOffsetY pw)
        (DefaultPageWidth pw) (DefaultPageHeight pw) (Colorspaces pw)
        (NameDestinations pw) (Outlines pw) (Major pw) (Minor pw) (NoPages pw)
        (lastEOL pw) (names pw) (nextobject pw) (objectlocations pw)
        (outfile pw) (pages pw) (pos pw) s.

Definition setPages (p : list Page) (pw : PDF) : PDF :=
  mkPDF (Catalog pw) (InfoDict pw) (DefaultOffsetX pw) (DefaultOffsetY pw)
        (DefaultPageWidth pw) (DefaultPageHeight pw) (Colorspaces pw)
        (NameDestinations pw) (Outlines pw) (Major pw) (Minor pw) (NoPages pw)
        (lastEOL pw) (names pw) (nextobject pw) (objectlocations pw)
        (outfile pw) p (pos pw) (store pw).

Definition setNames (n : Dict) (pw : PDF) : PDF :=
  mkPDF (Catalog pw) (InfoDict pw) (DefaultOffsetX pw) (DefaultOffsetY pw)
        (DefaultPageWidth pw) (DefaultPageHeight pw) (Colorspaces pw)
        (NameDestinations pw) (Outlines pw) (Major pw) (Minor pw) (NoPages pw)
        (lastEOL pw) n (nextobject pw) (objectlocations pw)
        (outfile pw) (pages pw) (pos pw) (store pw).

Definition setNoPages (n : Z) (pw : PDF) : PDF :=
  mkPDF (Catalog pw) (InfoDict pw) (DefaultOffsetX pw) (DefaultOffsetY pw)
        (DefaultPageWidth pw) (DefaultPageHeight pw) (Colorspaces pw)
        (NameDestinations pw) (Outlines pw) (Major pw) (Minor pw) n
        (lastEOL pw) (names pw) (nextobject pw) (objectlocations pw)
        (outfile pw) (pages pw) (pos pw) (store pw).

(** Object updates. *)
Definition setSaved (o : Object) : Object :=
  mkObject (ObjectNumber o) (Data o) (Dictionary o) (Array o) (Raw o)
           (ForceStream o) (compress o) (comment o) true.

Definition setDictionary (d : Dict) (o : Object) : Object :=
  mkObject (ObjectNumber o) (Data o) d (Array o) (Raw o)
           (ForceStream o) (compress o) (comment o) (saved o).

Definition setData (b : string) (o : Object) : Object :=
  mkObject (ObjectNumber o) b (Dictionary o) (Array o) (Raw o)
           (ForceStream o) (compress o) (comment o) (saved o).

Definition setForceStream (b : bool) (o : Object) : Object :=
  mkObject (ObjectNumber o) (Data o) (Dictionary o) (Array o) (Raw o)
           b (compress o) (comment o) (saved o).

Definition setCompress (b : bool) (o : Object) : Object :=
  mkObject (ObjectNumber o) (Data o) (Dictionary o) (Array o) (Raw o)
           (ForceStream o) b (comment o) (saved o).

Definition lenZ (s : string) : Z := Z.of_nat (String.length s).

Definition LF : string := String (byteOf 10) "".

(** [NewPDFWriter] *)
Definition NewPDFWriter : PDF :=
  mkPDF [] [] 0%float 0%float 0%float 0%float [] [] None
        1 7 0 0 [] 1 {[ 0 := 0 ]} "" [] 0 [].

(** A write to the sink: [pw.pos] advances by the number of bytes. *)
Definition emit (s : string) (pw : PDF) : PDF :=
  setSink (outfile pw +:+ s) (pos pw + lenZ s) pw.

(** [writePDFHead] *)
Definition writePDFHead (pw : PDF) : PDF :=
  let s := "%PDF-" +:+ fmt_d (Major pw) +:+ "." +:+ fmt_d (Minor pw) +:+ LF +:+
           "%" +:+ string_of_list_ascii (map byteOf [0x80; 0x80; 0x80; 0x80]) in
  emit s pw.

Definition headIfEmpty (pw : PDF) : PDF :=
  if pos pw =? 0 then writePDFHead pw else pw.

(** [Print] *)
Definition Print (s : string) (pw : PDF) : PDF := emit s (headIfEmpty pw).

(** [Println] *)
Definition Println (s : string) (pw : PDF) : PDF :=
  emit (s +:+ LF) (headIfEmpty pw).

(** [Printf], applied to the formatted text. *)
Definition Printf (formatted : string) (pw : PDF) : PDF :=
  emit formatted (headIfEmpty pw).

(** [NextObject] *)
Definition NextObject (pw : PDF) : Z * PDF :=
  (nextobject pw, setNextobject (nextobject pw + 1) pw).

Definition emptyObject (objnum : Z) : Object :=
  mkObject objnum "" [] [] false false false "" false.

(** Allocation of an [Object]; the result is its address. *)
Definition alloc (o : Object) (pw : PDF) : nat * PDF :=
  (length (store pw), setStore (store pw ++ [o]) pw).

(** [NewObjectWithNumber] *)
Definition NewObjectWithNumber (objnum : Z) (pw : PDF) : nat * PDF :=
  alloc (emptyObject objnum) pw.

(** [NewObject] *)
Definition NewObject (pw : PDF) : nat * PDF :=
  let '(n, pw) := NextObject pw in
  alloc (emptyObject n) pw.

Definition getObject (a : nat) (pw : PDF) : Object :=
  match store pw !! a with
  | Some o => o
  | None => emptyObject 0
  end.

Definition putObject (a : nat) (o : Object) (pw : PDF) : PDF :=
  setStore (<[ a := o ]> (store pw)) pw.

Definition updObject (a : nat) (f : Object -> Object) (pw : PDF) : PDF :=
  putObject a (f (getObject a pw)) pw.

(** [SetCompression] *)
Definition SetCompression (a : nat) (compresslevel : Z) (pw : PDF) : PDF :=
  updObject a (setCompress (0 <? compresslevel)) pw.

(** [eol] *)
Definition eol (pw : PDF) : PDF :=
  let pw := headIfEmpty pw in
  if pos pw =? lastEOL pw then pw
  else
    let pw := Println "" pw in
    setLastEOL (pos pw) pw.

(** [startObject] *)
Definition startObject (onum : Z) (pw : PDF) : PDF :=
  let pw := headIfEmpty pw in
  let position := pos pw + 1 in
  let pw := setObjectlocations (<[ onum := position ]> (objectlocations pw)) pw in
  Printf (LF +:+ fmt_d onum +:+ " 0 obj" +:+ LF) pw.

(** [endObject] *)
Definition endObject (pw : PDF) : PDF :=
  let pw := eol pw in
  Println "endobj" pw.

(** Adler-32 of a byte sequence, as four big-endian bytes. *)
Definition adler32 (s : string) : string :=
  let '(a, b) :=
    fold_left (fun st c =>
                 let a := (fst st + codeOf c) mod 65521 in
                 (a, (snd st + a) mod 65521))
              (list_ascii_of_string s) (1, 0) in
  string_of_list_ascii (map byteOf [b / 256; b mod 256; a / 256; a mod 256]).

Section Writer.
Context {rt : GoRuntime}.

(** What [zlibWriter] leaves in its buffer between [Reset] and [Close]
    (RFC 1950): the two header bytes of the default level, the DEFLATE
    stream, the Adler-32 of the payload. *)
Definition zlibStream (data : string) : string :=
  string_of_list_ascii (map byteOf [0x78; 0x9c]) +:+ flate data +:+ adler32 data.

(** [Object.Save], first part: the block guarded by [hasData], which
    computes [Length] and compresses the payload. *)
Definition prepareStream (obj : Object) : Object :=
  let hasData := (0 <? lenZ (Data obj)) || ForceStream obj in
  if hasData then
    let obj := setDictionary
                 (mapSet "Length" (VRaw (fmt_d (lenZ (Data obj)))) (Dictionary obj))
                 obj in
    if compress obj then
      let obj := setDictionary (mapSet "Filter" (VRaw "/FlateDecode") (Dictionary obj)) obj in
      let b := zlibStream (Data obj) in
      let obj := setDictionary (mapSet "Length" (VRaw (fmt_d (lenZ b))) (Dictionary obj)) obj in
      let obj := setDictionary
                   (mapSet "Length1" (VRaw (fmt_d (lenZ (Data obj)))) (Dictionary obj))
                   obj in
      setData b obj
    else
      setDictionary
        (mapSet "Length" (VRaw (fmt_d (lenZ (Data obj)))) (Dictionary obj))
        obj
  else obj.

(** [Object.Save], second part: the dictionary, or else the array. *)
Definition emitBody (obj : Object) (pw : PDF) : PDF :=
  if (0 <? Z.of_nat (length (Dictionary obj))) then
    emit (hashToString (Dictionary obj) O) pw
  else if (0 <? Z.of_nat (length (Array obj))) then
    emit (arrayToString (Array obj)) pw
  else pw.

(** [Object.Save], third part: the payload between [stream] and
    [endstream]; [WriteTo] drains the buffer. *)
Definition emitStream (obj : Object) (pw : PDF) : Object * PDF :=
  if 0 <? lenZ (Data obj) then
    let pw := emit (LF +:+ "stream" +:+ LF) pw in
    let pw := emit (Data obj) pw in
    let pw := emit (LF +:+ "endstream") pw in
    (setData "" obj, pw)
  else (obj, pw).

(** The comment that precedes an object. *)
Definition emitComment (obj : Object) (pw : PDF) : PDF :=
  if String.eqb (comment obj) "" then pw
  else Print (LF +:+ "% " +:+ comment obj) pw.

(** [Object.Save], for the object at address [a].  With the in-memory
    sink every write succeeds, so the returned error is always nil. *)
Definition Save (a : nat) (pw : PDF) : PDF :=
  let obj := getObject a pw in
  if saved obj then pw
  else
    let obj := setSaved obj in
    let pw := putObject a obj pw in
    let pw := emitComment obj pw in
    if Raw obj then
      let pw := startObject (ObjectNumber obj) pw in
      let pw := emit (Data obj) pw in
      let pw := putObject a (setData "" obj) pw in
      endObject pw
    else
      let obj := prepareStream obj in
      let pw := putObject a obj pw in
      let pw := startObject (ObjectNumber obj) pw in
      let pw := emitBody obj pw in
      let '(obj, pw) := emitStream obj pw in
      let pw := putObject a obj pw in
      endObject pw.

(** [Object.Dict] *)
Definition ObjectDict (a : nat) (d : Dict) (pw : PDF) : PDF :=
  updObject a (setDictionary d) pw.

(** [FloatToPoint] *)
Definition FloatToPoint (x : float) : string :=
  FormatFloat (PrimFloat.div (mathRound (PrimFloat.mul 100 x)) 100).

(** [AddPage]: the new page is the last element of [pages]. *)
Definition AddPage (content : nat) (page : Z) (pw : PDF) : PDF :=
  let '(page, pw) := if page =? 0 then NextObject pw else (page, pw) in
  let pw := updObject content (setForceStream true) pw in
  let pg := mkPage page [] [] [] (DefaultPageWidth pw) (DefaultPageHeight pw)
                   (DefaultOffsetX pw) (DefaultOffsetY pw) [] content in
  setPages (pages pw ++ [pg]) pw.

End Writer.


(** ** Page, outline and catalog assembly; cross-reference section *)

(** Finishing of images and fonts is done by the image and font
    pipelines; the writer only calls them and reads the object number of
    a finished image. *)
Class Collaborators := {
  (** [Imagefile.finish]; the caller drops its error *)
  imageFinish : Imagefile -> PDF -> PDF;
  (** [img.imageobject.ObjectNumber] *)
  imageObjectNumber : Imagefile -> PDF -> Z;
  (** [Face.finish] and its error *)
  faceFinish : Face -> PDF -> option string * PDF
}.

Inductive result (A : Type) : Type :=
| Ok (a : A)
| Err (msg : string).
Arguments Ok {A} a.
Arguments Err {A} msg.

(** [Face.InternalName] *)
Definition FaceInternalName (f : Face) : string := "/F" +:+ fmt_d (FaceID f).

(** [Imagefile.InternalName] *)
Definition ImageInternalName (i : Imagefile) : string := "/ImgBag" +:+ fmt_d (id i).

(** The elements of a pointer-keyed set ([map[*T]bool]), identified by
    their unique numeric identity, in order of first insertion. *)
Fixpoint distinctBy {A : Type} (key : A -> Z) (seen : list Z) (l : list A) : list A :=
  match l with
  | [] => []
  | x :: t =>
      if existsb (Z.eqb (key x)) seen then distinctBy key seen t
      else x :: distinctBy key (key x :: seen) t
  end.

(** One chunk of the cross-reference table. *)
Record chunk := mkChunk {
  startOnum : Z;
  positions : list Z
}.

(** One iteration of the scan over the object numbers. *)
Definition xrefScan (locs : gmap Z Z) (st : list chunk * option chunk) (i : Z)
  : list chunk * option chunk :=
  let '(objectChunks, curchunk) := st in
  match locs !! i with
  | Some loc =>
      let cur := match curchunk with
                 | None => mkChunk i []
                 | Some c => c
                 end in
      (objectChunks, Some (mkChunk (startOnum cur) (positions cur ++ [loc])))
  | None =>
      match curchunk with
      | None => (objectChunks, None)
      | Some c => (objectChunks ++ [c], None)
      end
  end.

(** The chunks collected by [for i := 0; i <= pw.nextobject; i++]. *)
Definition xrefChunks (locs : gmap Z Z) (nextobject : Z) : list chunk :=
  fst (fold_left (xrefScan locs) (seqZ 0 (nextobject + 1)) ([], None)).

Definition xrefLine (startOnum : Z) (i : nat) (p : Z) : string :=
  if startOnum + Z.of_nat i =? 0
  then fmt_0d 10 p +:+ " 65535 f " +:+ LF
  else fmt_0d 10 p +:+ " 00000 n " +:+ LF.

Definition xrefChunkText (c : chunk) : string :=
  fmt_d (startOnum c) +:+ " " +:+ fmt_d (Z.of_nat (length (positions c))) +:+ LF +:+
  cat (imap (xrefLine (startOnum c)) (positions c)).

(** The text accumulated in [str] by [Finish]. *)
Definition xrefText (locs : gmap Z Z) (nextobject : Z) : string :=
  cat (map xrefChunkText (xrefChunks locs nextobject)).

Section Assembly.
Context {rt : GoRuntime} {co : Collaborators}.

Definition objNum (a : nat) (pw : PDF) : Z := ObjectNumber (getObject a pw).

Definition rectText (a b c d : float) : string :=
  "[" +:+ FloatToPoint a +:+ " " +:+ FloatToPoint b +:+ " " +:+
  FloatToPoint c +:+ " " +:+ FloatToPoint d +:+ "]".

(** [writeInfoDict]: the object number of the info dictionary, if
    written. *)
Definition writeInfoDict (pw : PDF) : option Z * PDF :=
  if Major pw <? 2 then
    let '(info, pw) := NewObject pw in
    let pw := ObjectDict info (InfoDict pw) pw in
    let pw := Save info pw in
    (Some (objNum info pw), pw)
  else (None, pw).

(** [writeDestObj] *)
Definition writeDestObj (page : Z) (x y : float) (pw : PDF) : Z * PDF :=
  let '(obj, pw) := NewObject pw in
  let dest := "[" +:+ Ref page +:+ " /XYZ " +:+ fmt_05g x +:+ " " +:+ fmt_05g y +:+ " null]" in
  let pw := ObjectDict obj [("D", VRaw dest)] pw in
  let pw := Save obj pw in
  (objNum obj pw, pw).

(** First loop of [writeOutline]: one object number per sibling. *)
Fixpoint assignNumbers (outlines : list Outline) (pw : PDF) : list Z * PDF :=
  match outlines with
  | [] => ([], pw)
  | _ :: rest =>
      let '(n, pw) := NextObject pw in
      let '(ns, pw) := assignNumbers rest pw in
      (n :: ns, pw)
  end.

(** The second loop of [writeOutline] over the siblings and their numbers
    [nums].  [prev] is the number of the preceding sibling ([i > 0]); the
    head of the numbers that remain after the current one is the next
    sibling ([i < len(outlines)-1]).  [item] is the body of the loop; it
    receives and returns the running count [c]. *)
Definition outlineLoop
    (item : Z -> option Z -> option Z -> Z -> Outline -> PDF -> Z * PDF)
  : list Outline -> list Z -> option Z -> Z * Z * Z -> PDF -> (Z * Z * Z) * PDF :=
  fix loop (rest : list Outline) (nums : list Z) (prev : option Z)
           (acc : Z * Z * Z) (pw : PDF) {struct rest} : (Z * Z * Z) * PDF :=
    match rest, nums with
    | outline :: rest', n :: nums' =>
        let '(first, last, c) := acc in
        let last := match nums' with [] => n | _ :: _ => last end in
        let first := match prev with None => n | Some _ => first end in
        let '(c, pw) := item n (head nums') prev c outline pw in
        loop rest' nums' (Some n) (first, last, c) pw
    | _, _ => (acc, pw)
    end.

Definition writeOutlineWith
    (item : Z -> Z -> option Z -> option Z -> Z -> Outline -> PDF -> Z * PDF)
    (parent : Z) (outlines : list Outline) (pw : PDF) : (Z * Z * Z) * PDF :=
  let '(nums, pw) := assignNumbers outlines pw in
  outlineLoop (item parent) outlines nums None (0, 0, 0) pw.

(** The dictionary of an outline item without children. *)
Definition outlineBaseDict (parent : Z) (next prev : option Z) (outline : Outline)
  : Dict :=
  let outlineDict : Dict := [] in
  let outlineDict := mapSet "Parent" (VRaw (Ref parent)) outlineDict in
  let outlineDict := mapSet "Title" (VRaw (stringToPDF (Title outline))) outlineDict in
  let outlineDict := mapSet "Dest" (VRaw (Serialize (VRaw (Dest outline)))) outlineDict in
  let outlineDict :=
    match next with
    | Some nx => mapSet "Next" (VRaw (Ref nx)) outlineDict
    | None => outlineDict
    end in
  match prev with
  | Some p => mapSet "Prev" (VRaw (Ref p)) outlineDict
  | None => outlineDict
  end.

(** The entries added for an item with children. *)
Definition outlineChildEntries (cldFirst cldLast count : Z) (open : bool)
    (outlineDict : Dict) : Dict :=
  let outlineDict := mapSet "First" (VRaw (Ref cldFirst)) outlineDict in
  let outlineDict := mapSet "Last" (VRaw (Ref cldLast)) outlineDict in
  if open
  then mapSet "Count" (VRaw (fmt_d count)) outlineDict
  else mapSet "Count" (VRaw "-1") outlineDict.

(** The body of the second loop of [writeOutline] for the item
    [outline] with object number [n]. *)
Fixpoint writeOutlineItem (parent : Z) (n : Z) (next prev : option Z) (c : Z)
    (outline : Outline) (pw : PDF) {struct outline} : Z * PDF :=
  let c := c + 1 in
  let '(outlineObj, pw) := NewObjectWithNumber n pw in
  let outlineDict := outlineBaseDict parent next prev outline in
  let '(outlineDict, c, pw) :=
    match outline with
    | mkOutline [] _ _ _ _ => (outlineDict, c, pw)
    | mkOutline ((_ :: _) as children) _ open _ _ =>
        let '(cldFirst, cldLast, count, pw) :=
          writeOutlineWith writeOutlineItem n children pw in
        (outlineChildEntries cldFirst cldLast count open outlineDict, c + count, pw)
    end in
  let pw := ObjectDict outlineObj outlineDict pw in
  let pw := Save outlineObj pw in
  (c, pw).

(** [writeOutline]; [parent] is the object number of [parentObj].  The
    result is (first, last, c); the error of the source is always
    nil. *)
Definition writeOutline (parent : Z) (outlines : list Outline) (pw : PDF)
  : (Z * Z * Z) * PDF :=
  writeOutlineWith writeOutlineItem parent outlines pw.

(** Annotations of one page: each is saved as an object of its own; the
    result lists their references. *)
Fixpoint writeAnnotations (annots : list Annotation) (pw : PDF) : list string * PDF :=
  match annots with
  | [] => ([], pw)
  | annot :: rest =>
      let '(annotObj, pw) := NewObject pw in
      let '(r0, r1, r2, r3) := Rect annot in
      let annotDict : Dict :=
        [ ("Type", VRaw "/Annot");
          ("Subtype", VRaw (NameString (Subtype annot)));
          ("A", VRaw (Action annot));
          ("Rect", VRaw (rectText r0 r1 r2 r3)) ] in
      let annotDict := mapMerge annotDict (AnnotDictionary annot) in
      let pw := ObjectDict annotObj annotDict pw in
      let pw := Save annotObj pw in
      let r := Ref (objNum annotObj pw) in
      let '(rs, pw) := writeAnnotations rest pw in
      (r :: rs, pw)
  end.

Definition floatNe (a b : float) : bool := negb (PrimFloat.eqb a b).

(** The body of the loop over the pages that writes the [/Page]
    objects. *)
Definition writePage (pagesObjNum : Z) (page : Page) (pw : PDF) : PDF :=
  let '(obj, pw) := NewObjectWithNumber (Objnum page) pw in
  let fnts : Dict :=
    fold_left (fun d face =>
                 mapSet (FaceInternalName face) (VRaw (Ref (objNum (fontobject face) pw))) d)
              (Faces page) [] in
  let resHash : Dict := [] in
  let resHash :=
    if 0 <? Z.of_nat (length (Faces page))
    then mapSet "Font" (VDict fnts) resHash else resHash in
  let resHash :=
    if 0 <? Z.of_nat (length (Colorspaces pw)) then
      let colorspace : Dict :=
        fold_left (fun d cs => mapSet (SepID cs) (VRaw (Ref (SepObj cs))) d)
                  (Colorspaces pw) [] in
      mapSet "ColorSpace" (VDict colorspace) resHash
    else resHash in
  let resHash :=
    if 0 <? Z.of_nat (length (Images page)) then
      let sb :=
        "<<" +:+
        cat (map (fun img =>
                    " " +:+ ImageInternalName img +:+ " " +:+
                    Ref (imageObjectNumber img pw))
                 (Images page)) +:+
        ">>" in
      mapSet "XObject" (VRaw sb) resHash
    else resHash in
  let pageHash : Dict :=
    [ ("Type", VRaw "/Page");
      ("Contents", VRaw (Ref (objNum (contentStream page) pw)));
      ("Parent", VRaw (Ref pagesObjNum)) ] in
  let pageHash :=
    if floatNe (OffsetX page) (DefaultOffsetX pw) || floatNe (OffsetY page) (DefaultOffsetY pw)
       || floatNe (Width page) (DefaultPageWidth pw)
       || floatNe (Height page) (DefaultPageHeight pw)
    then mapSet "MediaBox"
                (VRaw (rectText (OffsetX page) (OffsetY page) (Width page) (Height page)))
                pageHash
    else pageHash in
  let pageHash :=
    if 0 <? Z.of_nat (length resHash)
    then mapSet "Resources" (VDict resHash) pageHash else pageHash in
  let '(annotationObjectNumbers, pw) := writeAnnotations (Annotations page) pw in
  let pageHash :=
    if 0 <? Z.of_nat (length annotationObjectNumbers)
    then mapSet "Annots" (VRaw ("[" +:+ Join annotationObjectNumbers " " +:+ "]")) pageHash
    else pageHash in
  let pageHash := mapMerge pageHash (PageDict page) in
  let pw := ObjectDict obj pageHash pw in
  Save obj pw.

(** Destination objects for the sorted names. *)
Fixpoint writeDests (sortedNames : list string) (pw : PDF) : list (Z * string) * PDF :=
  match sortedNames with
  | [] => ([], pw)
  | n :: rest =>
      match mapGet (NameDestinations pw) n with
      | Some nd =>
          let '(onum, pw) := writeDestObj (PageObjectnumber nd) (X nd) (Y nd) pw in
          let '(ds, pw) := writeDests rest pw in
          ((onum, DestName nd) :: ds, pw)
      | None => writeDests rest pw
      end
  end.

(** [Face.finish] for each face in turn, until one fails. *)
Fixpoint finishFaces (faces : list Face) (pw : PDF) : option string * PDF :=
  match faces with
  | [] => (None, pw)
  | f :: rest =>
      match faceFinish f pw with
      | (Some err, pw) => (Some err, pw)
      | (None, pw) => finishFaces rest pw
      end
  end.

(** [writeDocumentCatalogAndPages], the part after the check for an
    empty document: the page objects, the page tree [pagesObj], the
    outlines, the named destinations, the catalog and the fonts. *)
Definition writePagesAndCatalog (pagesObj : nat) (pw : PDF) : result Z * PDF :=
  let usedFaces := distinctBy FaceID [] (flat_map Faces (pages pw)) in
  let pagesObjNum := objNum pagesObj pw in
  let pw := fold_left (fun pw page => writePage pagesObjNum page pw) (pages pw) pw in
  let kids := map (fun v => Ref (Objnum v)) (pages pw) in
  let pw :=
    ObjectDict pagesObj
      [ ("Type", VRaw "/Pages");
        ("Kids", VRaw ("[ " +:+ Join kids " " +:+ " ]"));
        ("Count", VRaw (fmt_d (Z.of_nat (length (pages pw)))));
        ("MediaBox", VRaw (rectText (DefaultOffsetX pw) (DefaultOffsetY pw)
                                    (DefaultPageWidth pw) (DefaultPageHeight pw))) ]
      pw in
  let pw := Save pagesObj pw in
  let '(outlinesOjbNum, pw) :=
    match Outlines pw with
    | Some outlines =>
        let '(outlinesOjb, pw) := NewObject pw in
        let '(first, last, count, pw) :=
          writeOutline (objNum outlinesOjb pw) outlines pw in
        let pw :=
          ObjectDict outlinesOjb
            [ ("Type", VRaw "/Outlines");
              ("First", VRaw (Ref first));
              ("Last", VRaw (Ref last));
              ("Count", VRaw (fmt_d count)) ]
            pw in
        let n := objNum outlinesOjb pw in
        (n, Save outlinesOjb pw)
    | None => (0, pw)
    end in
  let '(catalog, pw) := NewObject pw in
  let dictCatalog : Dict :=
    [ ("Type", VRaw "/Catalog"); ("Pages", VRaw (Ref pagesObjNum)) ] in
  let dictCatalog :=
    match Outlines pw with
    | Some _ => mapSet "/Outlines" (VRaw (Ref outlinesOjbNum)) dictCatalog
    | None => dictCatalog
    end in
  let pw :=
    if negb (Z.of_nat (length (NameDestinations pw)) =? 0) then
      let sortedNames := Sort stringLess (mapKeys (NameDestinations pw)) in
      let '(destnames, pw) := writeDests sortedNames pw in
      let limitsAry :=
        [ VString (snd (List.hd (0, "") destnames));
          VString (snd (List.last destnames (0, ""))) ] in
      let namesAry :=
        flat_map (fun n => [VString (snd n); VRaw (Ref (fst n))]) destnames in
      let destNameTree : Dict :=
        [ ("Limits", VRaw (Serialize (VArray limitsAry)));
          ("Names", VRaw (Serialize (VArray namesAry))) ] in
      setNames (mapSet "Dests" (VDict destNameTree) (names pw)) pw
    else pw in
  let dictCatalog :=
    if 0 <? Z.of_nat (length (names pw))
    then mapSet "Names" (VDict (names pw)) dictCatalog else dictCatalog in
  let dictCatalog := mapMerge dictCatalog (Catalog pw) in
  let pw := ObjectDict catalog dictCatalog pw in
  let pw := Save catalog pw in
  let sortedFaces := Sort (fun a b => FaceID a <? FaceID b) usedFaces in
  match finishFaces sortedFaces pw with
  | (Some err, pw) => (Err err, pw)
  | (None, pw) => (Ok (objNum catalog pw), pw)
  end.

(** [writeDocumentCatalogAndPages] *)
Definition writeDocumentCatalogAndPages (pw : PDF) : result Z * PDF :=
  let usedImages := distinctBy id [] (flat_map Images (pages pw)) in
  let pw := fold_left (fun pw page => Save (contentStream page) pw) (pages pw) pw in
  let '(pagesObj, pw) := NewObject pw in
  let sortedImages :=
    Sort (fun a b => stringLess (Filename a) (Filename b)) usedImages in
  let pw := fold_left (fun pw img => imageFinish img pw) sortedImages pw in
  if Z.of_nat (length (pages pw)) =? 0 then (Err "no pages in document", pw)
  else writePagesAndCatalog pagesObj pw.

(** [Finish], the part after [writeDocumentCatalogAndPages] has
    returned the catalog [dc]: info dictionary, cross-reference section
    and trailer. *)
Definition writeXrefAndTrailer (dc : Z) (pw : PDF) : PDF :=
  let '(infodict, pw) := writeInfoDict pw in
  let str := xrefText (objectlocations pw) (nextobject pw) in
  let xrefpos := pos pw in
  let pw := Println "xref" pw in
  let pw := Print str pw in
  let sum := fmt_X (MD5.SumString str) in
  let trailer : Dict :=
    [ ("Size", VRaw (fmt_d (nextobject pw)));
      ("Root", VRaw (Ref dc));
      ("ID", VRaw ("[<" +:+ sum +:+ "> <" +:+ sum +:+ ">]")) ] in
  let trailer :=
    match infodict with
    | Some n => mapSet "Info" (VRaw (Ref n)) trailer
    | None => trailer
    end in
  let pw := Println "trailer" pw in
  let pw := Printf (hashToString trailer O) pw in
  let pw := Printf (LF +:+ "startxref" +:+ LF +:+ fmt_d xrefpos +:+ LF +:+ "%%EOF" +:+ LF) pw in
  setNoPages (Z.of_nat (length (pages pw))) pw.

(** [Finish] *)
Definition Finish (pw : PDF) : option string * PDF :=
  match writeDocumentCatalogAndPages pw with
  | (Err err, pw) => (Some err, pw)
  | (Ok dc, pw) => (None, writeXrefAndTrailer dc pw)
  end.

(** [Size] *)
Definition Size (pw : PDF) : Z := pos pw.

End Assembly.

(** ** Subset tag of the font pipeline *)

Section SubsetTag.
Context {rt : GoRuntime}.

(** The two bytes written for a glyph ID (a 16-bit unsigned integer). *)
Definition glyphBytes (g : Z) : list Z :=
  [Z.land (Z.shiftr g 8) 0xff; Z.land g 0xff].

(** The bytes appended for the variation settings. *)
Definition variationBytes (variations : list (string * float)) : list Z :=
  if 0 <? Z.of_nat (length variations) then
    let keys := Sort stringLess (mapKeys variations) in
    flat_map (fun k =>
                MD5.bytesOf
                  (k +:+ ":" +:+
                   fmt_2f (match mapGet variations k with
                           | Some v => v
                           | None => 0%float
                           end)))
             keys
  else [].

(** [ret[i] = rune(sum[2*i]+sum[2*i+1])%26 + 'A']: the sum of the two
    bytes is an 8-bit sum. *)
Definition tagLetter (sum : list Z) (i : nat) : ascii :=
  let s := (nth (2 * i) sum 0 + nth (2 * i + 1) sum 0) mod 256 in
  byteOf (s mod 26 + 65).

(** [subsetTag] *)
Definition subsetTag (glyphs : list Z) (variations : list (string * float)) : string :=
  let sorted := Sort Z.ltb glyphs in
  let data := flat_map glyphBytes sorted in
  let data := data ++ variationBytes variations in
  let sum := MD5.Sum data in
  string_of_list_ascii (map (tagLetter sum) (seq 0 6)).

End SubsetTag.

(** ** Box geometry of an imported PDF page *)

Definition boxGet (b : Box) (k : string) : float :=
  match b !! k with
  | Some v => v
  | None => 0%float
  end.

(** [len(b) == 0] *)
Definition boxEmpty (b : Box) : bool := bool_decide (b = ∅).

(** [intersectBox] *)
Definition intersectBox (bx mediabox : Box) : Box :=
  let newbox : Box := bx in
  let newbox :=
    if PrimFloat.ltb (boxGet bx "lly") (boxGet mediabox "lly")
    then <[ "lly" := boxGet mediabox "lly" ]> newbox else newbox in
  let newbox :=
    if PrimFloat.ltb (boxGet bx "llx") (boxGet mediabox "llx")
    then <[ "llx" := boxGet mediabox "llx" ]> newbox else newbox in
  let newbox :=
    if PrimFloat.ltb (boxGet mediabox "ury") (boxGet bx "ury")
    then <[ "ury" := boxGet mediabox "ury" ]> newbox else newbox in
  let newbox :=
    if PrimFloat.ltb (boxGet mediabox "urx") (boxGet bx "urx")
    then <[ "urx" := boxGet mediabox "urx" ]> newbox else newbox in
  let newbox := <[ "x" := boxGet newbox "llx" ]> newbox in
  let newbox := <[ "y" := boxGet newbox "lly" ]> newbox in
  let newbox := <[ "w" := PrimFloat.sub (boxGet newbox "urx") (boxGet newbox "llx") ]> newbox in
  let newbox := <[ "h" := PrimFloat.sub (boxGet newbox "ury") (boxGet newbox "lly") ]> newbox in
  newbox.

Inductive boxError : Type :=
| PageNotFound (p : Z)
| NoMediaBox (p : Z)
| UnknownBox (boxName : string) (p : Z).

Definition pageBox (pg : gmap string Box) (name : string) : Box :=
  match pg !! name with
  | Some b => b
  | None => ∅
  end.

(** The helper [pick] of [GetPDFBoxDimensions]; the empty box stands for
    nil. *)
Definition pick (pg : gmap string Box) (mb : Box) (name : string) : Box :=
  let b := pageBox pg name in
  if negb (boxEmpty b) then b
  else if String.eqb name "/CropBox" then mb
  else if String.eqb name "/ArtBox" || String.eqb name "/BleedBox" || String.eqb name "/TrimBox"
  then
    let cb := pageBox pg "/CropBox" in
    if negb (boxEmpty cb) then cb else mb
  else ∅.

(** [GetPDFBoxDimensions].  A page entry that is nil is not told apart
    from an empty one; both are errors. *)
Definition GetPDFBoxDimensions (imgf : Imagefile) (p : Z) (boxName : string)
  : boxError + Box :=
  match PageSizes imgf !! p with
  | None => inl (PageNotFound p)
  | Some pg =>
      let mb := pageBox pg "/MediaBox" in
      if boxEmpty mb then inl (NoMediaBox p)
      else
        let src := pick pg mb boxName in
        if boxEmpty src then inl (UnknownBox boxName p)
        else if String.eqb boxName "/MediaBox" then inr (intersectBox src src)
        else inr (intersectBox src mb)
  end.


(** ** The reading side

    Definitions that the properties speak of but the writer does not
    contain: decoders of the two string syntaxes, the run structure of a
    cross-reference table, descendant counts of outlines, and the subset
    tag as the specification words it. *)

Module PDFRead.

(** The character denoted by a one-letter escape of a literal string
    (ISO 32000, table 3).  Octal escapes and line continuations are not
    decoded. *)
Definition unescapeChar (c : ascii) : option ascii :=
  if Ascii.eqb c "n" then Some (byteOf 10)
  else if Ascii.eqb c "r" then Some (byteOf 13)
  else if Ascii.eqb c "t" then Some (byteOf 9)
  else if Ascii.eqb c "b" then Some (byteOf 8)
  else if Ascii.eqb c "f" then Some (byteOf 12)
  else if Ascii.eqb c "(" then Some "("%char
  else if Ascii.eqb c ")" then Some ")"%char
  else if Ascii.eqb c "\" then Some "\"%char
  else None.

(** The text of a literal string after its opening parenthesis.
    Unescaped parentheses nest ([depth]); the literal ends at the
    parenthesis that closes the opening one, which must be the last
    byte.  A bare carriage return would be read as a line feed and is
    rejected here. *)
Fixpoint literalBody (esc : bool) (depth : nat) (s : string) : option string :=
  match s with
  | EmptyString => None
  | String c rest =>
      if esc then
        match unescapeChar c with
        | Some d => option_map (String d) (literalBody false depth rest)
        | None => None
        end
      else if Ascii.eqb c "\" then literalBody true depth rest
      else if Ascii.eqb c "(" then
        option_map (String c) (literalBody false (S depth) rest)
      else if Ascii.eqb c ")" then
        match depth with
        | O => match rest with EmptyString => Some "" | _ => None end
        | S d => option_map (String c) (literalBody false d rest)
        end
      else if Ascii.eqb c (byteOf 13) then None
      else option_map (String c) (literalBody false depth rest)
  end.

(** Decoding of a literal string [(...)]. *)
Definition decodeLiteral (lit : string) : option string :=
  match lit with
  | String c body => if Ascii.eqb c "(" then literalBody false O body else None
  | EmptyString => None
  end.

Definition hexVal (c : ascii) : option Z :=
  let n := codeOf c in
  if (48 <=? n) && (n <=? 57) then Some (n - 48)
  else if (97 <=? n) && (n <=? 102) then Some (n - 87)
  else if (65 <=? n) && (n <=? 70) then Some (n - 55)
  else None.

(** The 16-bit units of a hexadecimal string after its opening angle
    bracket, four digits at a time, up to the closing bracket. *)
Fixpoint hexUnits (s : string) : option (list Z) :=
  match s with
  | String a (String b (String c (String d rest))) =>
      match hexVal a, hexVal b, hexVal c, hexVal d, hexUnits rest with
      | Some x3, Some x2, Some x1, Some x0, Some us =>
          Some (((x3 * 16 + x2) * 16 + x1) * 16 + x0 :: us)
      | _, _, _, _, _ => None
      end
  | String a EmptyString => if Ascii.eqb a ">" then Some [] else None
  | _ => None
  end.

(** [utf16.Decode] *)
Fixpoint utf16Decode (us : list Z) : list Z :=
  match us with
  | [] => []
  | u :: rest =>
      if (0xd800 <=? u) && (u <? 0xdc00) then
        match rest with
        | u2 :: rest' =>
            if (0xdc00 <=? u2) && (u2 <? 0xe000)
            then ((u - 0xd800) * 1024 + (u2 - 0xdc00) + 0x10000) :: utf16Decode rest'
            else RuneError :: utf16Decode rest
        | [] => [RuneError]
        end
      else if (0xdc00 <=? u) && (u <? 0xe000) then RuneError :: utf16Decode rest
      else u :: utf16Decode rest
  end.

(** Decoding of a hexadecimal string [<feff...>] that holds UTF-16BE
    text behind a byte-order mark: the code points of the text. *)
Definition decodeHexText (lit : string) : option (list Z) :=
  match lit with
  | String c body =>
      if Ascii.eqb c "<" then
        match hexUnits body with
        | Some (bom :: us) => if bom =? 0xfeff then Some (utf16Decode us) else None
        | _ => None
        end
      else None
  | EmptyString => None
  end.

End PDFRead.

(** The escape the specification gives for a string byte: backslash,
    parentheses and the control characters LF, CR, TAB and BS get a
    two-byte escape. *)
Definition escapeByte (c : ascii) : string :=
  if Ascii.eqb c "(" then "\("
  else if Ascii.eqb c ")" then "\)"
  else if Ascii.eqb c "\" then "\\"
  else if Ascii.eqb c (byteOf 10) then "\n"
  else if Ascii.eqb c (byteOf 13) then "\r"
  else if Ascii.eqb c (byteOf 9) then "\t"
  else if Ascii.eqb c (byteOf 8) then "\b"
  else String c "".

Fixpoint escapeAll (s : string) : string :=
  match s with
  | EmptyString => ""
  | String c rest => escapeByte c +:+ escapeAll rest
  end.

(** ASCII control characters. *)
Definition isControl (c : ascii) : bool :=
  (codeOf c <? 32) || (codeOf c =? 127).

(** The order that [sortByName.Less] induces on names: [Type] is below
    everything, the others are compared bytewise. *)
Definition nameLe (a b : Name) : Prop :=
  a = "Type" ∨ (b ≠ "Type" ∧ String.le a b).

(** The order of the keys in a serialized dictionary, as specified:
    [Type] first when present, then the other keys ascending. *)
Definition dictKeyOrder (keys : list Name) : list Name :=
  (if existsb (String.eqb "Type") keys then ["Type"] else []) ++
  Sort stringLess (List.filter (fun k => negb (String.eqb k "Type")) keys).

(** The text of a dictionary for a given order of its keys: one line per
    key with the rendering of [h[key]], between the angle brackets. *)
Definition dictText {rt : GoRuntime} (h : Dict) (keys : list Name) (level : nat) : string :=
  "<<" +:+ LF +:+
  cat (map (fun key =>
              Repeat " " (level + 1) +:+ NameString key +:+ " " +:+
              serializeLevel (dictIndex h key) (level + 1) +:+ LF)
           keys) +:+
  Repeat " " level +:+ ">>".

(** Two values denote the same Go value: they differ at most in the
    order in which the entries of their maps are enumerated, at any
    depth. *)
Inductive sameValue : value -> value -> Prop :=
| same_refl v : sameValue v v
| same_array a b : Forall2 sameValue a b -> sameValue (VArray a) (VArray b)
| same_dict d1 d d2 :
    d1 ≡ₚ d ->
    Forall2 (fun x y => fst x = fst y ∧ sameValue (snd x) (snd y)) d d2 ->
    sameValue (VDict d1) (VDict d2)
| same_nametree t1 t2 : t1 ≡ₚ t2 -> sameValue (VNameTree t1) (VNameTree t2).

(** The keys of every map inside a value are pairwise distinct. *)
Inductive uniqueKeys : value -> Prop :=
| uk_nil : uniqueKeys VNil
| uk_raw s : uniqueKeys (VRaw s)
| uk_array a : Forall uniqueKeys a -> uniqueKeys (VArray a)
| uk_int n : uniqueKeys (VInt n)
| uk_float f : uniqueKeys (VFloat f)
| uk_dict d :
    NoDup (mapKeys d) -> Forall (fun kv => uniqueKeys (snd kv)) d ->
    uniqueKeys (VDict d)
| uk_string s : uniqueKeys (VString s)
| uk_nametree t : NoDup (mapKeys t) -> uniqueKeys (VNameTree t)
| uk_objnum n : uniqueKeys (VObjnum n)
| uk_name n : uniqueKeys (VName n)
| uk_other r : uniqueKeys (VOther r).

(** Exactly [k] decimal digits of [n], most significant first. *)
Fixpoint decimalFixed (k : nat) (n : Z) : string :=
  match k with
  | O => ""
  | S j => decimalFixed j (n / 10) +:+ String (digitChar (n mod 10)) ""
  end.




(** Number of items of an outline forest, at all depths. *)
Fixpoint outlineSize (o : Outline) : Z :=
  match o with
  | mkOutline children _ _ _ _ =>
      1 + (fix sum (l : list Outline) : Z :=
             match l with
             | [] => 0
             | x :: r => outlineSize x + sum r
             end) children
  end.

Definition forestSize (l : list Outline) : Z :=
  fold_right (fun o acc => outlineSize o + acc) 0 l.

(** The descendants of an item that a viewer shows once the item is open:
    its children, and below every open child what that child shows. *)
Fixpoint visibleBelow (o : Outline) : Z :=
  match o with
  | mkOutline children _ _ _ _ =>
      (fix sum (l : list Outline) : Z :=
         match l with
         | [] => 0
         | x :: r => 1 + (if Open x then visibleBelow x else 0) + sum r
         end) children
  end.

(** The [/Count] the specification asks for: the visible descendants,
    negated for a collapsed item. *)
Definition specifiedCount (o : Outline) : Z :=
  if Open o then visibleBelow o else - visibleBelow o.

(** The items of an outline tree, the root first; the items of a forest. *)
Fixpoint nodes (o : Outline) : list Outline :=
  match o with
  | mkOutline children _ _ _ _ =>
      o :: (fix below (l : list Outline) : list Outline :=
              match l with
              | [] => []
              | x :: r => nodes x ++ below r
              end) children
  end.

Definition forestNodes (l : list Outline) : list Outline := flat_map nodes l.

(** [s] holds [x] as a contiguous part. *)
Definition occursIn (x s : string) : Prop := ∃ before after, s = before +:+ x +:+ after.

(** The bytes of a saved object that has a dictionary only. *)
Definition objectText {rt : GoRuntime} (n : Z) (d : Dict) : string :=
  LF +:+ fmt_d n +:+ " 0 obj" +:+ LF +:+ hashToString d O +:+ LF +:+ "endobj" +:+ LF.

(** The line of the entry [Count] in the dictionary of an object. *)
Definition countLine (count : string) : string := " /Count " +:+ count +:+ LF.

(** The [/Count] of an item with children as [writeOutline] writes it:
    the number of all items below an open item, and [-1] for a collapsed
    one. *)
Definition writtenCount (o : Outline) : string :=
  if Open o then fmt_d (forestSize (Children o)) else "-1".

(** The sink of a writer in use: the last known end of line is not after
    the current position. *)
Definition sinkOK (pw : PDF) : Prop := 0 <= lastEOL pw <= pos pw.

(** The object of the outline item [node] is part of the output [out]:
    an object with a dictionary that holds the title and the destination
    of the item and, as [Count], the text [writtenCount node], on a line
    of its own. *)
Definition emitted {rt : GoRuntime} (node : Outline) (out : string) : Prop :=
  ∃ n d,
    occursIn (objectText n d) out ∧
    mapGet d "Title" = Some (VRaw (stringToPDF (Title node))) ∧
    mapGet d "Dest" = Some (VRaw (Dest node)) ∧
    mapGet d "Count" = Some (VRaw (writtenCount node)) ∧
    occursIn (countLine (writtenCount node)) (hashToString d O).

(** What the body of the loop of [writeOutline] does for the item [o]:
    the running count grows by the size of the tree of [o], the output
    and the store of objects grow at their ends, and the object of every
    item of the tree that has children is part of the output. *)
Definition itemOK {rt : GoRuntime}
    (item : Z → option Z → option Z → Z → Outline → PDF → Z * PDF) (o : Outline) : Prop :=
  ∀ n next prev c pw, sinkOK pw →
    let r := item n next prev c o pw in
    fst r = c + outlineSize o ∧
    sinkOK (snd r) ∧
    (∃ s, outfile (snd r) = outfile pw +:+ s) ∧
    (∃ ext, store (snd r) = store pw ++ ext) ∧
    (∀ node, In node (nodes o) → Children node ≠ [] → emitted node (outfile (snd r))).

Section SubsetTagSpec.
Context {rt : GoRuntime}.

(** The letter for a pair of digest bytes as the specification words
    it, with the sum of the two bytes taken over the integers. *)
Definition tagLetterWords (b0 b1 : Z) : ascii := byteOf (65 + (b0 + b1) mod 26).

(** The letter with the sum of the two bytes taken on 8 bits. *)
Definition tagLetterByteSum (b0 b1 : Z) : ascii :=
  byteOf (65 + ((b0 + b1) mod 256) mod 26).

(** The byte sequence that is hashed: the glyph IDs in ascending order
    on two big-endian bytes each, then [tag:value] for the variation
    settings in the order of their tags. *)
Definition tagInput (sortedGlyphs : list Z) (sortedTags : list string)
    (variations : list (string * float)) : list Z :=
  flat_map (fun g => [(g / 256) mod 256; g mod 256]) sortedGlyphs ++
  flat_map (fun k => MD5.bytesOf (k +:+ ":" +:+ fmt_2f (default 0%float (mapGet variations k))))
           sortedTags.

Fixpoint tagLetters (letter : Z -> Z -> ascii) (n : nat) (digest : list Z) : string :=
  match n, digest with
  | S k, b0 :: b1 :: rest => String (letter b0 b1) (tagLetters letter k rest)
  | _, _ => ""
  end.

(** The reference definition of the subset tag, for a letter rule. *)
Definition subsetTagReference (letter : Z -> Z -> ascii)
    (glyphs : list Z) (variations : list (string * float)) : string :=
  tagLetters letter 6
    (MD5.Sum (tagInput (Sort Z.ltb glyphs) (Sort stringLess (mapKeys variations)) variations)).

End SubsetTagSpec.

(** ** Sample collaborators

    Instances on which the model can be run.  [storedFlate] is the DEFLATE
    stream made of one final stored block (RFC 1951, 3.2.4), which is what
    the compressor writes for an empty payload; [formatIntegral] prints a
    float whose value is an integer. *)

Definition storedFlate (data : string) : string :=
  let n := lenZ data in
  string_of_list_ascii
    (map byteOf [1; n mod 256; n / 256 mod 256; 255 - n mod 256; 255 - n / 256 mod 256])
  +:+ data.

Definition formatIntegral (f : float) : string :=
  match Prim2SF f with
  | S754_finite s m e =>
      (if s then "-" else "") +:+ fmt_d (Z.shiftl (Z.pos m) e)
  | _ => "0"
  end.

Definition sampleRuntime : GoRuntime :=
  {| FormatFloat := formatIntegral;
     mathRound := fun f => f;
     fmt_05g := formatIntegral;
     fmt_2f := fun f => formatIntegral f +:+ ".00";
     flate := storedFlate |}.

Definition noCollaborators : Collaborators :=
  {| imageFinish := fun _ pw => pw;
     imageObjectNumber := fun _ _ => 0;
     faceFinish := fun _ pw => (None, pw) |}.

(** The writer state at the point where [Save] is about to write the
    header [N 0 obj] of an object: after the file header, if this is the
    first write, and after the comment of the object. *)
Definition atHeader (o : Object) (pw : PDF) : PDF :=
  headIfEmpty (emitComment o pw).

(** ** Sample documents *)

(** Two enumerations of one dictionary. *)
Definition sampleDict : Dict :=
  [ ("B", VName "/Bar"); ("Type", VRaw "/Font"); ("A", VInt 1) ].

Definition sampleDictPermuted : Dict :=
  [ ("A", VInt 1); ("Type", VRaw "/Font"); ("B", VName "/Bar") ].

(** A writer with one unsaved object that holds a content stream. *)
Definition oneStream : PDF :=
  let '(a, pw) := NewObject NewPDFWriter in
  updObject a (setData "BT ET") pw.

(** A writer with one page whose content stream is empty and
    compressed. *)
Definition emptyCompressedPage : PDF :=
  let '(a, pw) := NewObject NewPDFWriter in
  let pw := SetCompression a 9 pw in
  AddPage a 0 pw.

(** A writer with one page whose content stream is empty. *)
Definition emptyPage : PDF :=
  let '(a, pw) := NewObject NewPDFWriter in
  AddPage a 0 pw.

(** A writer with one page and a content stream. *)
Definition onePage : PDF :=
  AddPage 0 0 oneStream.

(** Sample outlines: a collapsed item over two items without children,
    and an open item over that one. *)
Definition leaf (title : string) : Outline :=
  mkOutline [] title false "[4 0 R /Fit]" 0.

Definition collapsedPair : Outline :=
  mkOutline [leaf "a"; leaf "b"] "C" false "[4 0 R /Fit]" 0.

Definition openOverCollapsed : Outline :=
  mkOutline [collapsedPair] "O" true "[4 0 R /Fit]" 0.

(** A writer whose file header is out and that has allocated object 1,
    the parent of the outlines. *)
Definition outlineWriter : PDF := snd (NewObject (headIfEmpty NewPDFWriter)).

(** Lines of text, each ended by a newline. *)
Definition textLines (l : list string) : string := cat (map (fun s => s +:+ LF) l).

(** The box that [GetPDFBoxDimensions] is specified to resolve for one
    of the five box names: the box of that name when the page has it; for
    [/CropBox] otherwise the [/MediaBox]; for [/ArtBox], [/BleedBox] and
    [/TrimBox] otherwise the [/CropBox] when the page has it, else the
    [/MediaBox]. *)
Definition boxNames : list string :=
  ["/MediaBox"; "/CropBox"; "/BleedBox"; "/TrimBox"; "/ArtBox"].

Definition resolvedBox (pg : gmap string Box) (boxName : string) : Box :=
  let own := pageBox pg boxName in
  let mb := pageBox pg "/MediaBox" in
  let cb := pageBox pg "/CropBox" in
  if negb (boxEmpty own) then own
  else if String.eqb boxName "/CropBox" then mb
  else if negb (boxEmpty cb) then cb else mb.

(** The coordinates of the edges of a box are numbers. *)
Definition edgesAreNumbers (b : Box) : Prop :=
  ∀ k, In k ["llx"; "lly"; "urx"; "ury"] → PrimFloat.is_nan (boxGet b k) = false.

(** A box from the coordinates of its corners. *)
Definition cornerBox (llx lly urx ury : float) : Box :=
  {[ "llx" := llx; "lly" := lly; "urx" := urx; "ury" := ury ]}.

(** A one-page file whose [/CropBox] is [-10 5 210 120] and whose
    [/MediaBox] is [0 0 200 100]. *)
Definition croppedImage : Imagefile :=
  {| Filename := "cropped.pdf"; id := 1; NumberOfPages := 1;
     PageSizes :=
       {[ 1 := {[ "/MediaBox" := cornerBox 0 0 200 100;
                  "/CropBox" := cornerBox (-10) 5 210 120 ]} ]} |}.

(** A Unicode scalar value: a code point that is not a surrogate. *)
Definition scalarValue (r : Z) : Prop :=
  0 <= r < 0xD800 ∨ 0xE000 <= r <= 0x10FFFF.

(** Sample strings: ASCII text with characters to escape, and the UTF-8
    bytes of U+00E4 U+20AC U+1D11E. *)
Definition sampleAscii : string := "a(b)\c".

Definition sampleUnicode : string :=
  string_of_list_ascii
    (map byteOf [0xC3; 0xA4; 0xE2; 0x82; 0xAC; 0xF0; 0x9D; 0x84; 0x9E]).




(** Upper-case Latin letters. *)
Definition isUpper (c : ascii) : Prop := 65 <= codeOf c <= 90.


(** ** Further properties: definitions *)

(** The position of the writer is the number of bytes in the sink. *)
Definition sized (pw : PDF) : Prop := pos pw = lenZ (outfile pw).

(** The output of [pw'] is the output of [pw] with bytes added at its
    end. *)
Definition appends (pw pw' : PDF) : Prop := ∃ s, outfile pw' = outfile pw +:+ s.

(** [s] holds [x] at byte offset [off]. *)
Definition atOffset (off : Z) (x s : string) : Prop :=
  ∃ before after, s = before +:+ x +:+ after ∧ lenZ before = off.

(** The file header that [writePDFHead] writes. *)
Definition fileHeader (pw : PDF) : string :=
  "%PDF-" +:+ fmt_d (Major pw) +:+ "." +:+ fmt_d (Minor pw) +:+ LF +:+
  "%" +:+ string_of_list_ascii (map byteOf [0x80; 0x80; 0x80; 0x80]).

(** A raw object, as [finishPDF] makes one for an imported object. *)
Definition rawObjectWriter : PDF :=
  let '(a, pw) := NewObjectWithNumber 7 NewPDFWriter in
  putObject a (mkObject 7 "<< /Imported true >>" [("Type", VRaw "/XObject")] []
                        true false false "" false) pw.

(** A property of the writer that every update of the sink, of the known
    end of line, of the object-location table and of the objects keeps:
    these are the fields that [Save] changes. *)
Record keptBySave (P : PDF → Prop) : Prop := mkKeptBySave {
  kept_emit : ∀ s pw, P pw → P (emit s pw);
  kept_lastEOL : ∀ e pw, P pw → P (setLastEOL e pw);
  kept_objectlocations : ∀ l pw, P pw → P (setObjectlocations l pw);
  kept_store : ∀ s pw, P pw → P (setStore s pw)
}.

(** A property that the allocation of object numbers and the update of
    the name dictionary keep as well. *)
Record kept (P : PDF → Prop) : Prop := mkKept {
  kept_save : keptBySave P;
  kept_nextobject : ∀ n pw, P pw → P (setNextobject n pw);
  kept_names : ∀ n pw, P pw → P (setNames n pw)
}.

(** A property that the operations of the writer keep: writing bytes,
    saving an object, and the updates of the objects, of the next object
    number and of the name dictionary.  Weaker than [kept]: the
    object-location table changes only within [Save]. *)
Record keptByOps {rt : GoRuntime} (P : PDF → Prop) : Prop := mkKeptByOps {
  ops_emit : ∀ s pw, P pw → P (emit s pw);
  ops_Save : ∀ a pw, P pw → P (Save a pw);
  ops_store : ∀ s pw, P pw → P (setStore s pw);
  ops_nextobject : ∀ n pw, P pw → P (setNextobject n pw);
  ops_names : ∀ n pw, P pw → P (setNames n pw)
}.

(** The object-location table is exact: the position of the writer is the
    number of bytes written, and every entry of the table, the entry 0 of
    the free list apart, is the byte offset of the line [N 0 obj] of its
    object in the output. *)
Definition offsetsExact (pw : PDF) : Prop :=
  sized pw ∧
  ∀ n off, n ≠ 0 → objectlocations pw !! n = Some off →
    atOffset off (fmt_d n +:+ " 0 obj" +:+ LF) (outfile pw).

(** The image and font pipelines keep the property [P]. *)
Definition collaboratorsKeep {co : Collaborators} (P : PDF → Prop) : Prop :=
  (∀ img pw, P pw → P (imageFinish img pw)) ∧
  (∀ face pw, P pw → P (snd (faceFinish face pw))).

(** The bytes that [PDFNameReplacer] looks for. *)
Definition reservedInName (c : ascii) : bool :=
  Ascii.eqb c "#" || Ascii.eqb c "/" || Ascii.eqb c "(" || Ascii.eqb c ")".

Definition plainName (n : string) : bool :=
  forallb (fun c => negb (reservedInName c)) (list_ascii_of_string n).

(** Reading of a decimal number: the digits, most significant first,
    after an optional minus sign. *)
Fixpoint parseDigits (acc : Z) (s : string) : Z :=
  match s with
  | EmptyString => acc
  | String c rest => parseDigits (10 * acc + (codeOf c - 48)) rest
  end.

Definition parseInt (s : string) : Z :=
  match s with
  | String c rest => if Ascii.eqb c "-" then - parseDigits 0 rest else parseDigits 0 s
  | EmptyString => 0
  end.

(** ** The font face *)

(** What the package reads from the font ([ot.Face]).  [Cmap] is [None]
    for a font without character map, else the lookup of the glyph of a
    code point. *)
Record OTFace := mkOTFace {
  PostscriptName : string;
  IsFixedPitch : bool;
  IsItalic : bool;
  WeightClass : Z;
  Cmap : option (Z → option Z)
}.

(** [Face.RegisterCodepoints], on the field [usedChar] of the face. *)
Definition RegisterCodepoints (usedChar : gmap Z bool) (codepoints : list Z)
  : gmap Z bool :=
  let usedChar := <[ 0 := true ]> usedChar in
  fold_left (fun m v => <[ v := true ]> m) codepoints usedChar.

(** [Face.RegisterCodepoint] *)
Definition RegisterCodepoint (usedChar : gmap Z bool) (codepoint : Z) : gmap Z bool :=
  let usedChar := <[ 0 := true ]> usedChar in
  <[ codepoint := true ]> usedChar.

(** [Face.RegisterChars] and [Face.RegisterChar] (deprecated names). *)
Definition RegisterChars (usedChar : gmap Z bool) (codepoints : list Z) : gmap Z bool :=
  RegisterCodepoints usedChar codepoints.

Definition RegisterChar (usedChar : gmap Z bool) (codepoint : Z) : gmap Z bool :=
  RegisterCodepoint usedChar codepoint.

(** [usedChar[k]]: the zero value of [bool] is [false]. *)
Definition isUsed (usedChar : gmap Z bool) (k : Z) : bool :=
  match usedChar !! k with
  | Some b => b
  | None => false
  end.

(** [Face.Codepoint] *)
Definition Codepoint (f : OTFace) (r : Z) : Z :=
  match Cmap f with
  | None => 0
  | Some lookup =>
      match lookup r with
      | Some gid => gid
      | None => 0
      end
  end.

(** [Face.Codepoints]; the nil slice is the empty list. *)
Definition Codepoints (f : OTFace) (runes : list Z) : list Z :=
  match Cmap f with
  | None => []
  | Some lookup =>
      fold_left (fun ret r =>
                   match lookup r with
                   | Some gid => ret ++ [gid]
                   | None => ret
                   end)
                runes []
  end.

(** [fontNamePDF] *)
Definition fontNamePDF (f : OTFace) (tag : string) : string :=
  let psName := PostscriptName f in
  let psName := if String.eqb psName "" then "Unknown" else psName in
  if negb (String.eqb tag "") then "/" +:+ tag +:+ "+" +:+ psName
  else "/" +:+ psName.

(** [flagsPDF] *)
Definition flagsPDF (f : OTFace) : Z :=
  let flags := 0 in
  let flags := if IsFixedPitch f then Z.lor flags 1 else flags in
  let flags := if IsItalic f then Z.lor flags 64 else flags in
  if flags =? 0 then 4 else flags.

(** [stemVPDF] *)
Definition stemVPDF (f : OTFace) : Z :=
  let weight := WeightClass f in
  if 700 <=? weight then 140
  else if 500 <=? weight then 100
  else 80.

(** A font with a character map for the letters A to C. *)
Definition sampleFace : OTFace :=
  {| PostscriptName := "Sample-Regular";
     IsFixedPitch := false;
     IsItalic := true;
     WeightClass := 400;
     Cmap := Some (fun r => if (65 <=? r) && (r <=? 67) then Some (r - 64) else None) |}.

(** *** The width array *)

(** The metrics that [widthsPDF] reads from the font: [IsCFF], and the
    values [float64(f.Upem())] and [float64(f.HorizontalAdvance(gid))]. *)
Record OTMetrics := mkOTMetrics {
  IsCFF : bool;
  UpemFloat : float;
  AdvanceFloat : Z → float
}.

Section Widths.
Context {rt : GoRuntime}.

(** The closure [getWd] of [widthsPDF]; a glyph that [reverseMap] does
    not have is looked up as glyph 0. *)
Definition getWd (f : OTMetrics) (reverseMap : gmap Z Z) (newGID : Z) : string :=
  let scale := if negb (IsCFF f) then PrimFloat.div (UpemFloat f) 1000 else 1%float in
  let oldGID := default 0 (reverseMap !! newGID) in
  let advance := AdvanceFloat f oldGID in
  FormatFloat (PrimFloat.div advance scale).

(** The inner loop of [widthsPDF]: the widths of the glyphs that follow
    [cp] without a gap; the result is the text and the glyphs that
    remain. *)
Fixpoint widthsRun (wd : Z → string) (cp : Z) (sorted : list Z) : string * list Z :=
  match sorted with
  | g :: rest =>
      if g =? cp + 1 then
        let cp := cp + 1 in
        let '(s, r) := widthsRun wd cp rest in
        (" " +:+ wd cp +:+ s, r)
      else ("", sorted)
  | [] => ("", [])
  end.

(** The outer loop of [widthsPDF]; every round takes at least one
    glyph, so the number of glyphs is enough fuel. *)
Fixpoint widthsLoop (wd : Z → string) (fuel : nat) (sorted : list Z) : string :=
  match fuel with
  | O => ""
  | S fuel =>
      match sorted with
      | [] => ""
      | cp :: rest =>
          let '(s, r) := widthsRun wd cp rest in
          fmt_d cp +:+ "[" +:+ wd cp +:+ s +:+ "]" +:+ widthsLoop wd fuel r
      end
  end.

(** [widthsPDF] *)
Definition widthsPDF (f : OTMetrics) (newGlyphs : list Z) (reverseMap : gmap Z Z)
  : string :=
  if Z.of_nat (length newGlyphs) =? 0 then "[]"
  else
    let sorted := Sort Z.ltb newGlyphs in
    "[" +:+ widthsLoop (getWd f reverseMap) (length sorted) sorted +:+ "]".
End Widths.

(** The runs of a list of numbers: the list cut wherever an element is
    not the one before plus one. *)
Fixpoint runsOf (l : list Z) : list (list Z) :=
  match l with
  | [] => []
  | g :: rest =>
      match runsOf rest with
      | (h :: run) :: runs =>
          if h =? g + 1 then (g :: h :: run) :: runs else [g] :: (h :: run) :: runs
      | _ => [[g]]
      end
  end.

(** One entry of a width array: the first glyph of a run and the widths
    of the glyphs of the run. *)
Definition widthEntry (wd : Z → string) (run : list Z) : string :=
  fmt_d (List.hd 0 run) +:+ "[" +:+ Join (map wd run) " " +:+ "]".

(** A run holds consecutive numbers. *)
Definition consecutive (run : list Z) : Prop :=
  run = seqZ (List.hd 0 run) (Z.of_nat (length run)).

(** A TrueType font with 2048 units per em. *)
Definition sampleMetrics : OTMetrics :=
  {| IsCFF := false; UpemFloat := 2048; AdvanceFloat := fun g => 1024%float |}.

(** * Properties *)

(** ** Strings and formatting *)

Lemma sapp_nil_r (s : string) : s +:+ "" = s.
Proof. induction s as [|c s IH]; simpl; [reflexivity|]. unfold String.app in *. simpl. now rewrite IH. Qed.

Lemma sapp_assoc (a b c : string) : (a +:+ b) +:+ c = a +:+ (b +:+ c).
Proof.
  induction a as [|x a IH]; [reflexivity|].
  unfold String.app in *. simpl. now rewrite IH.
Qed.

Lemma sapp_cons (x : ascii) (a b : string) : String x a +:+ b = String x (a +:+ b).
Proof. reflexivity. Qed.

Lemma slength_app (a b : string) :
  String.length (a +:+ b) = (String.length a + String.length b)%nat.
Proof.
  induction a as [|x a IH]; [reflexivity|].
  rewrite sapp_cons. simpl. now rewrite IH.
Qed.

Lemma lenZ_app (a b : string) : lenZ (a +:+ b) = lenZ a + lenZ b.
Proof. unfold lenZ. rewrite slength_app. lia. Qed.

Lemma lenZ_nonneg (s : string) : 0 <= lenZ s.
Proof. unfold lenZ. lia. Qed.

Lemma lenZ_pos_iff (s : string) : (0 <? lenZ s) = negb (String.eqb s "").
Proof. destruct s; [reflexivity|]. unfold lenZ. simpl String.length. simpl. apply Z.ltb_lt. lia. Qed.

Lemma cat_app (l1 l2 : list string) : cat (l1 ++ l2) = cat l1 +:+ cat l2.
Proof.
  induction l1 as [|s l1 IH]; [reflexivity|].
  simpl. now rewrite IH, sapp_assoc.
Qed.

(** ** Sorting: the sorted arrangement does not depend on the input order *)

Section SortFacts.
Context {A : Type} (less : A -> A -> bool) (R : relation A).
Context `{!Transitive R} `{!AntiSymm (=) R}.
Hypothesis less_sound : ∀ x y, less x y = true → R x y.
Hypothesis less_total : ∀ x y, less x y = false → R y x.

Lemma insertSorted_perm x l : insertSorted less x l ≡ₚ x :: l.
Proof.
  induction l as [|y t IH]; simpl; [reflexivity|].
  destruct (less x y); [reflexivity|].
  rewrite IH. apply Permutation_swap.
Qed.

Lemma Sort_perm l : Sort less l ≡ₚ l.
Proof.
  induction l as [|x t IH]; simpl; [reflexivity|].
  rewrite insertSorted_perm. now rewrite IH.
Qed.

Lemma insertSorted_sorted x l :
  StronglySorted R l → StronglySorted R (insertSorted less x l).
Proof.
  induction 1 as [|y t Hs IH Hall]; simpl.
  - repeat constructor.
  - destruct (less x y) eqn:E.
    + constructor; [now constructor|].
      constructor; [now apply less_sound|].
      eapply Forall_impl; [exact Hall|]. intros z Hz.
      etrans; [apply less_sound; exact E|exact Hz].
    + constructor; [exact IH|].
      rewrite insertSorted_perm. constructor; [now apply less_total|exact Hall].
Qed.

Lemma Sort_sorted l : StronglySorted R (Sort less l).
Proof.
  induction l as [|x t IH]; simpl; [constructor|].
  now apply insertSorted_sorted.
Qed.

Lemma Sort_unique l1 l2 : l1 ≡ₚ l2 → Sort less l1 = Sort less l2.
Proof.
  intros Hp. apply (StronglySorted_unique R); try apply Sort_sorted.
  now rewrite !Sort_perm.
Qed.

Lemma Sort_of_sorted l : StronglySorted R l → Sort less l = l.
Proof.
  intros Hs. apply (StronglySorted_unique R); [apply Sort_sorted|exact Hs|apply Sort_perm].
Qed.
End SortFacts.

Lemma stringLess_le a b : stringLess a b = true → String.le a b.
Proof.
  unfold stringLess, String.le, String.ltb, String.leb.
  destruct (String.compare a b); simpl; intros; try discriminate; exact I.
Qed.

Lemma stringLess_ge a b : stringLess a b = false → String.le b a.
Proof.
  unfold stringLess, String.le, String.ltb, String.leb.
  rewrite (String.compare_antisym b a).
  destruct (String.compare a b); simpl; intros; try discriminate; exact I.
Qed.

Lemma stringLess_irrefl a : stringLess a a = false.
Proof.
  pose proof (String.compare_antisym a a) as Hc.
  unfold stringLess, String.ltb.
  destruct (String.compare a a); simpl in Hc; try discriminate; reflexivity.
Qed.

Lemma stringLess_of_le a b : String.le a b → a ≠ b → stringLess a b = true.
Proof.
  intros Hle Hne. destruct (stringLess a b) eqn:E; [reflexivity|].
  apply stringLess_ge in E. exfalso. apply Hne. now apply (anti_symm String.le).
Qed.

Lemma Sort_strings_unique (l1 l2 : list string) :
  l1 ≡ₚ l2 → Sort stringLess l1 = Sort stringLess l2.
Proof.
  apply (Sort_unique stringLess String.le); [apply stringLess_le|apply stringLess_ge].
Qed.

Lemma Sort_Z_unique (l1 l2 : list Z) : l1 ≡ₚ l2 → Sort Z.ltb l1 = Sort Z.ltb l2.
Proof.
  apply (Sort_unique Z.ltb Z.le); intros x y E; lia.
Qed.

#[local] Instance nameLe_trans : Transitive nameLe.
Proof.
  intros a b c [->|[Hb Hab]] Hbc; [now left|].
  destruct Hbc as [->|[Hc Hbc]]; [congruence|].
  right. split; [exact Hc|]. etrans; eauto.
Qed.

#[local] Instance nameLe_antisym : AntiSymm (=) nameLe.
Proof.
  intros a b [->|[Hb Hab]] [Hb'|[Ha Hba]]; try congruence.
  now apply (anti_symm String.le).
Qed.

Lemma sortByNameLess_sound a b : sortByNameLess a b = true → nameLe a b.
Proof.
  unfold sortByNameLess, nameLe.
  destruct (String.eqb_spec a "Type") as [->|Ha]; [now left|].
  destruct (String.eqb_spec b "Type") as [->|Hb]; [discriminate|].
  intros E. right. split; [exact Hb|now apply stringLess_le].
Qed.

Lemma sortByNameLess_total a b : sortByNameLess a b = false → nameLe b a.
Proof.
  unfold sortByNameLess, nameLe.
  destruct (String.eqb_spec a "Type") as [->|Ha]; [discriminate|].
  destruct (String.eqb_spec b "Type") as [->|Hb]; [now left|].
  intros E. right. split; [exact Ha|now apply stringLess_ge].
Qed.

Lemma Sort_names_unique (l1 l2 : list Name) :
  l1 ≡ₚ l2 → Sort sortByNameLess l1 = Sort sortByNameLess l2.
Proof.
  apply (Sort_unique sortByNameLess nameLe);
    [apply sortByNameLess_sound|apply sortByNameLess_total].
Qed.


(** ** The writer: what each operation leaves untouched *)

Lemma store_emit s pw : store (emit s pw) = store pw.
Proof. reflexivity. Qed.

Lemma store_headIfEmpty pw : store (headIfEmpty pw) = store pw.
Proof. unfold headIfEmpty. now destruct (pos pw =? 0). Qed.

Lemma store_Print s pw : store (Print s pw) = store pw.
Proof. unfold Print. now rewrite store_emit, store_headIfEmpty. Qed.

Lemma store_Println s pw : store (Println s pw) = store pw.
Proof. unfold Println. now rewrite store_emit, store_headIfEmpty. Qed.

Lemma store_Printf s pw : store (Printf s pw) = store pw.
Proof. unfold Printf. now rewrite store_emit, store_headIfEmpty. Qed.

Lemma store_setLastEOL e pw : store (setLastEOL e pw) = store pw.
Proof. reflexivity. Qed.

Lemma store_setObjectlocations l pw : store (setObjectlocations l pw) = store pw.
Proof. reflexivity. Qed.

Lemma store_eol pw : store (eol pw) = store pw.
Proof.
  unfold eol. destruct (pos (headIfEmpty pw) =? lastEOL (headIfEmpty pw)).
  - apply store_headIfEmpty.
  - now rewrite store_setLastEOL, store_Println, store_headIfEmpty.
Qed.

Lemma store_endObject pw : store (endObject pw) = store pw.
Proof. unfold endObject. now rewrite store_Println, store_eol. Qed.

Lemma store_startObject n pw : store (startObject n pw) = store pw.
Proof.
  unfold startObject. rewrite store_Printf, store_setObjectlocations.
  apply store_headIfEmpty.
Qed.

Lemma store_putObject a o pw : store (putObject a o pw) = <[ a := o ]> (store pw).
Proof. reflexivity. Qed.

Lemma store_emitComment o pw : store (emitComment o pw) = store pw.
Proof.
  unfold emitComment.
  destruct (String.eqb (comment o) ""); [reflexivity|apply store_Print].
Qed.

Lemma store_atHeader o pw : store (atHeader o pw) = store pw.
Proof. unfold atHeader. now rewrite store_headIfEmpty, store_emitComment. Qed.

Lemma store_emitBody {rt : GoRuntime} o pw : store (emitBody o pw) = store pw.
Proof.
  unfold emitBody. destruct (_ <? _); [reflexivity|]. now destruct (_ <? _).
Qed.

Lemma store_emitStream {rt : GoRuntime} o pw : store (snd (emitStream o pw)) = store pw.
Proof. unfold emitStream. now destruct (_ <? _). Qed.

Lemma saved_emitStream {rt : GoRuntime} o pw : saved (fst (emitStream o pw)) = saved o.
Proof. unfold emitStream. now destruct (_ <? _). Qed.

Lemma ObjectNumber_emitStream {rt : GoRuntime} o pw :
  ObjectNumber (fst (emitStream o pw)) = ObjectNumber o.
Proof. unfold emitStream. now destruct (_ <? _). Qed.

Lemma saved_prepareStream {rt : GoRuntime} o : saved (prepareStream o) = saved o.
Proof.
  unfold prepareStream. destruct (_ || _); [|reflexivity].
  cbv zeta. now destruct (compress _).
Qed.

Lemma ObjectNumber_prepareStream {rt : GoRuntime} o :
  ObjectNumber (prepareStream o) = ObjectNumber o.
Proof.
  unfold prepareStream. destruct (_ || _); [|reflexivity].
  cbv zeta. now destruct (compress _).
Qed.

Lemma getObject_put a o pw :
  (a < length (store pw))%nat → getObject a (putObject a o pw) = o.
Proof.
  intros Ha. unfold getObject. rewrite store_putObject.
  now rewrite list_lookup_insert_eq.
Qed.

Lemma locs_emit s pw : objectlocations (emit s pw) = objectlocations pw.
Proof. reflexivity. Qed.

Lemma locs_headIfEmpty pw : objectlocations (headIfEmpty pw) = objectlocations pw.
Proof. unfold headIfEmpty. now destruct (pos pw =? 0). Qed.

Lemma locs_Print s pw : objectlocations (Print s pw) = objectlocations pw.
Proof. unfold Print. now rewrite locs_emit, locs_headIfEmpty. Qed.

Lemma locs_Println s pw : objectlocations (Println s pw) = objectlocations pw.
Proof. unfold Println. now rewrite locs_emit, locs_headIfEmpty. Qed.

Lemma locs_Printf s pw : objectlocations (Printf s pw) = objectlocations pw.
Proof. unfold Printf. now rewrite locs_emit, locs_headIfEmpty. Qed.

Lemma locs_setLastEOL e pw : objectlocations (setLastEOL e pw) = objectlocations pw.
Proof. reflexivity. Qed.

Lemma locs_setObjectlocations l pw : objectlocations (setObjectlocations l pw) = l.
Proof. reflexivity. Qed.

Lemma locs_eol pw : objectlocations (eol pw) = objectlocations pw.
Proof.
  unfold eol. destruct (pos (headIfEmpty pw) =? lastEOL (headIfEmpty pw)).
  - apply locs_headIfEmpty.
  - now rewrite locs_setLastEOL, locs_Println, locs_headIfEmpty.
Qed.

Lemma locs_endObject pw : objectlocations (endObject pw) = objectlocations pw.
Proof. unfold endObject. now rewrite locs_Println, locs_eol. Qed.

Lemma locs_putObject a o pw : objectlocations (putObject a o pw) = objectlocations pw.
Proof. reflexivity. Qed.

Lemma locs_startObject n pw :
  objectlocations (startObject n pw) =
  <[ n := pos (headIfEmpty pw) + 1 ]> (objectlocations pw).
Proof.
  unfold startObject. rewrite locs_Printf, locs_setObjectlocations.
  now rewrite locs_headIfEmpty.
Qed.

Lemma locs_emitComment o pw : objectlocations (emitComment o pw) = objectlocations pw.
Proof.
  unfold emitComment.
  destruct (String.eqb (comment o) ""); [reflexivity|apply locs_Print].
Qed.

Lemma locs_atHeader o pw : objectlocations (atHeader o pw) = objectlocations pw.
Proof. unfold atHeader. now rewrite locs_headIfEmpty, locs_emitComment. Qed.

Lemma locs_emitBody {rt : GoRuntime} o pw :
  objectlocations (emitBody o pw) = objectlocations pw.
Proof.
  unfold emitBody. destruct (_ <? _); [reflexivity|]. now destruct (_ <? _).
Qed.

Lemma locs_emitStream {rt : GoRuntime} o pw :
  objectlocations (snd (emitStream o pw)) = objectlocations pw.
Proof. unfold emitStream. now destruct (_ <? _). Qed.

(** The file header is written at most once: the position is positive
    after it. *)
Lemma pos_writePDFHead pw : 0 <= pos pw → 0 < pos (writePDFHead pw).
Proof.
  intros Hp. unfold writePDFHead. cbn [pos emit setSink].
  rewrite !lenZ_app. unfold lenZ at 1. simpl String.length.
  pose proof (lenZ_nonneg (fmt_d (Major pw))). pose proof (lenZ_nonneg (fmt_d (Minor pw))).
  repeat match goal with |- context [lenZ ?s] => pose proof (lenZ_nonneg s); generalize dependent (lenZ s); intros end.
  lia.
Qed.

Lemma pos_headIfEmpty pw : 0 <= pos pw → 0 < pos (headIfEmpty pw).
Proof.
  intros Hp. unfold headIfEmpty. destruct (pos pw =? 0) eqn:E.
  - now apply pos_writePDFHead.
  - lia.
Qed.


(** Writes to the sink and updates of the object store commute. *)
Lemma emit_putObject s a o pw : emit s (putObject a o pw) = putObject a o (emit s pw).
Proof. reflexivity. Qed.

Lemma headIfEmpty_putObject a o pw :
  headIfEmpty (putObject a o pw) = putObject a o (headIfEmpty pw).
Proof. unfold headIfEmpty. cbn [pos putObject setStore]. now destruct (pos pw =? 0). Qed.

Lemma Print_putObject s a o pw : Print s (putObject a o pw) = putObject a o (Print s pw).
Proof. unfold Print. now rewrite headIfEmpty_putObject, emit_putObject. Qed.

Lemma emitComment_putObject c a o pw :
  emitComment c (putObject a o pw) = putObject a o (emitComment c pw).
Proof.
  unfold emitComment.
  destruct (String.eqb (comment c) ""); [reflexivity|apply Print_putObject].
Qed.

Lemma pos_putObject a o pw : pos (putObject a o pw) = pos pw.
Proof. reflexivity. Qed.

Lemma outfile_putObject a o pw : outfile (putObject a o pw) = outfile pw.
Proof. reflexivity. Qed.

Lemma lastEOL_putObject a o pw : lastEOL (putObject a o pw) = lastEOL pw.
Proof. reflexivity. Qed.

(** ** [Save] *)

Create Rewrite HintDb pdfstore.
#[local] Hint Rewrite store_emit store_headIfEmpty store_Print store_Println
  store_Printf store_eol store_endObject store_startObject store_putObject
  store_atHeader store_emitComment @store_emitBody store_setLastEOL store_setObjectlocations : pdfstore.
#[local] Hint Rewrite @length_insert : pdfstore.

Create Rewrite HintDb pdflocs.
#[local] Hint Rewrite locs_emit locs_headIfEmpty locs_Print locs_Println
  locs_Printf locs_eol locs_endObject locs_putObject locs_startObject
  locs_atHeader locs_emitComment @locs_emitBody : pdflocs.

Ltac split_ifs :=
  repeat match goal with
         | |- context [if ?c then _ else _] => destruct c eqn:?
         end.

Section SaveFacts.
Context {rt : GoRuntime}.

(** After [Save] the object is marked as saved, and no object was
    allocated. *)
Lemma Save_marks_saved a pw :
  (a < length (store pw))%nat →
  saved (getObject a (Save a pw)) = true ∧
  length (store (Save a pw)) = length (store pw).
Proof.
  intros Ha. unfold Save.
  destruct (saved (getObject a pw)) eqn:Es; [now split|].
  cbv zeta. destruct (Raw (setSaved (getObject a pw))).
  - unfold getObject at 1. autorewrite with pdfstore.
    rewrite list_lookup_insert_eq by (autorewrite with pdfstore; lia).
    split; [reflexivity|]. now autorewrite with pdfstore.
  - destruct (emitStream _ _) as [o p] eqn:Ep.
    pose proof (saved_emitStream (prepareStream (setSaved (getObject a pw)))) as Hs.
    pose proof (store_emitStream (prepareStream (setSaved (getObject a pw)))) as Hst.
    specialize (Hs (emitBody (prepareStream (setSaved (getObject a pw)))
      (startObject (ObjectNumber (prepareStream (setSaved (getObject a pw))))
         (putObject a (prepareStream (setSaved (getObject a pw)))
            (emitComment (setSaved (getObject a pw))
               (putObject a (setSaved (getObject a pw)) pw)))))).
    specialize (Hst (emitBody (prepareStream (setSaved (getObject a pw)))
      (startObject (ObjectNumber (prepareStream (setSaved (getObject a pw))))
         (putObject a (prepareStream (setSaved (getObject a pw)))
            (emitComment (setSaved (getObject a pw))
               (putObject a (setSaved (getObject a pw)) pw)))))).
    rewrite Ep in Hs, Hst. cbn [fst snd] in Hs, Hst.
    rewrite saved_prepareStream in Hs.
    autorewrite with pdfstore in Hst.
    unfold getObject at 1. autorewrite with pdfstore. rewrite Hst.
    autorewrite with pdfstore.
    rewrite list_lookup_insert_eq by (autorewrite with pdfstore; lia).
    split; [exact Hs|reflexivity].
Qed.

Lemma Save_saved_noop a pw : saved (getObject a pw) = true → Save a pw = pw.
Proof. intros Hs. unfold Save. now rewrite Hs. Qed.

(** The object-location table after the first [Save] of an object. *)
Lemma Save_objectlocations a pw :
  saved (getObject a pw) = false →
  objectlocations (Save a pw) =
  <[ ObjectNumber (getObject a pw) :=
       pos (atHeader (getObject a pw) pw) + 1 ]> (objectlocations pw).
Proof.
  intros Hs. unfold Save. rewrite Hs. cbv zeta. unfold atHeader.
  destruct (Raw (setSaved (getObject a pw))).
  - autorewrite with pdflocs.
    now rewrite emitComment_putObject, headIfEmpty_putObject, pos_putObject.
  - destruct (emitStream _ _) as [o p] eqn:Ep.
    pose proof (locs_emitStream (prepareStream (setSaved (getObject a pw)))
      (emitBody (prepareStream (setSaved (getObject a pw)))
      (startObject (ObjectNumber (prepareStream (setSaved (getObject a pw))))
         (putObject a (prepareStream (setSaved (getObject a pw)))
            (emitComment (setSaved (getObject a pw))
               (putObject a (setSaved (getObject a pw)) pw)))))) as Hl.
    rewrite Ep in Hl. cbn [snd] in Hl.
    autorewrite with pdflocs. rewrite Hl. autorewrite with pdflocs.
    rewrite ObjectNumber_prepareStream.
    now rewrite !emitComment_putObject, !headIfEmpty_putObject, !pos_putObject.
Qed.

End SaveFacts.

(** ** The sink: output and position *)

Lemma outfile_emit s pw : outfile (emit s pw) = outfile pw +:+ s.
Proof. reflexivity. Qed.

Lemma pos_emit s pw : pos (emit s pw) = pos pw + lenZ s.
Proof. reflexivity. Qed.

Lemma lastEOL_emit s pw : lastEOL (emit s pw) = lastEOL pw.
Proof. reflexivity. Qed.

Lemma headIfEmpty_started pw : 0 < pos pw → headIfEmpty pw = pw.
Proof. intros Hp. unfold headIfEmpty. destruct (pos pw =? 0) eqn:E; [lia|reflexivity]. Qed.

Lemma lastEOL_headIfEmpty pw : lastEOL (headIfEmpty pw) = lastEOL pw.
Proof. unfold headIfEmpty. now destruct (pos pw =? 0). Qed.

Lemma pos_headIfEmpty_ge pw : pos pw <= pos (headIfEmpty pw).
Proof.
  unfold headIfEmpty. destruct (pos pw =? 0) eqn:E; [|lia].
  unfold writePDFHead. rewrite pos_emit.
  pose proof (lenZ_nonneg ("%PDF-" +:+ fmt_d (Major pw) +:+ "." +:+ fmt_d (Minor pw) +:+ LF +:+
           "%" +:+ string_of_list_ascii (map byteOf [0x80; 0x80; 0x80; 0x80]))). lia.
Qed.

Lemma Print_started s pw : 0 < pos pw → Print s pw = emit s pw.
Proof. intros Hp. unfold Print. now rewrite headIfEmpty_started. Qed.

Lemma Println_started s pw : 0 < pos pw → Println s pw = emit (s +:+ LF) pw.
Proof. intros Hp. unfold Println. now rewrite headIfEmpty_started. Qed.

Lemma Printf_started s pw : 0 < pos pw → Printf s pw = emit s pw.
Proof. intros Hp. unfold Printf. now rewrite headIfEmpty_started. Qed.

Lemma pos_emitComment_ge o pw : pos pw <= pos (emitComment o pw).
Proof.
  unfold emitComment. destruct (String.eqb (comment o) ""); [lia|].
  unfold Print. rewrite pos_emit.
  pose proof (pos_headIfEmpty_ge pw).
  pose proof (lenZ_nonneg (LF +:+ "% " +:+ comment o)). lia.
Qed.

Lemma lastEOL_emitComment o pw : lastEOL (emitComment o pw) = lastEOL pw.
Proof.
  unfold emitComment. destruct (String.eqb (comment o) ""); [reflexivity|].
  unfold Print. now rewrite lastEOL_emit, lastEOL_headIfEmpty.
Qed.

Lemma pos_atHeader o pw : 0 <= pos pw → pos pw <= pos (atHeader o pw) ∧ 0 < pos (atHeader o pw).
Proof.
  intros Hp. unfold atHeader.
  pose proof (pos_emitComment_ge o pw).
  pose proof (pos_headIfEmpty_ge (emitComment o pw)).
  pose proof (pos_headIfEmpty (emitComment o pw)). lia.
Qed.

Lemma lastEOL_atHeader o pw : lastEOL (atHeader o pw) = lastEOL pw.
Proof. unfold atHeader. now rewrite lastEOL_headIfEmpty, lastEOL_emitComment. Qed.

(** [startObject] once the file header is out. *)
Lemma startObject_started n pw :
  0 < pos pw →
  startObject n pw =
  emit (LF +:+ fmt_d n +:+ " 0 obj" +:+ LF)
       (setObjectlocations (<[ n := pos pw + 1 ]> (objectlocations pw)) pw).
Proof.
  intros Hp. unfold startObject. rewrite (headIfEmpty_started pw Hp).
  now rewrite Printf_started.
Qed.

(** [eol] when the last byte written is not known to be a newline. *)
Lemma eol_newline pw :
  0 < pos pw → pos pw ≠ lastEOL pw →
  eol pw = setLastEOL (pos pw + 1) (emit LF pw).
Proof.
  intros Hp Hne. unfold eol. rewrite (headIfEmpty_started pw Hp).
  destruct (pos pw =? lastEOL pw) eqn:E; [lia|].
  now rewrite (Println_started "" pw Hp).
Qed.

Lemma endObject_newline pw :
  0 < pos pw → pos pw ≠ lastEOL pw →
  outfile (endObject pw) = outfile pw +:+ LF +:+ "endobj" +:+ LF.
Proof.
  intros Hp Hne. unfold endObject. rewrite (eol_newline pw Hp Hne).
  rewrite Println_started.
  - cbn [outfile emit setSink setLastEOL]. now rewrite sapp_assoc.
  - cbn [pos emit setSink setLastEOL]. pose proof (lenZ_nonneg LF). lia.
Qed.

(** ** Dictionaries as maps *)

Lemma mapSet_twice {V} k (v w : V) m : mapSet k v (mapSet k w m) = mapSet k v m.
Proof.
  induction m as [|[k' v'] t IH]; simpl.
  - now rewrite String.eqb_refl.
  - destruct (String.eqb k' k) eqn:E; simpl.
    + now rewrite String.eqb_refl.
    + now rewrite E, IH.
Qed.

Lemma mapSet_nonempty {V} k (v : V) m : (0 < length (mapSet k v m))%nat.
Proof. destruct m as [|[k' v'] t]; simpl; [lia|]. destruct (String.eqb k' k); simpl; lia. Qed.

Lemma mapGet_mapSet_eq {V} k (v : V) m : mapGet (mapSet k v m) k = Some v.
Proof.
  induction m as [|[k' v'] t IH]; simpl.
  - now rewrite String.eqb_refl.
  - destruct (String.eqb k' k) eqn:E; simpl.
    + now rewrite String.eqb_refl.
    + now rewrite E.
Qed.

Lemma mapGet_mapSet_ne {V} k k' (v : V) m :
  k ≠ k' → mapGet (mapSet k v m) k' = mapGet m k'.
Proof.
  intros Hne. induction m as [|[k0 v0] t IH]; simpl.
  - destruct (String.eqb_spec k k'); [contradiction|reflexivity].
  - destruct (String.eqb_spec k0 k) as [->|Hk]; simpl.
    + destruct (String.eqb_spec k k'); [contradiction|reflexivity].
    + destruct (String.eqb k0 k'); [reflexivity|exact IH].
Qed.

Lemma hashToString_nonempty {rt : GoRuntime} d l : 0 < lenZ (hashToString d l).
Proof.
  unfold hashToString, hashLines. rewrite lenZ_app.
  match goal with |- context [lenZ "<<" + lenZ ?s] => pose proof (lenZ_nonneg s) end.
  unfold lenZ at 1. simpl String.length. lia.
Qed.

(** ** The position never decreases *)

Lemma pos_emit_ge s pw : pos pw <= pos (emit s pw).
Proof. rewrite pos_emit. pose proof (lenZ_nonneg s). lia. Qed.

Lemma pos_Print_ge s pw : pos pw <= pos (Print s pw).
Proof.
  unfold Print. pose proof (pos_emit_ge s (headIfEmpty pw)).
  pose proof (pos_headIfEmpty_ge pw). lia.
Qed.

Lemma pos_Println_ge s pw : pos pw <= pos (Println s pw).
Proof.
  unfold Println. pose proof (pos_emit_ge (s +:+ LF) (headIfEmpty pw)).
  pose proof (pos_headIfEmpty_ge pw). lia.
Qed.

Lemma pos_Printf_ge s pw : pos pw <= pos (Printf s pw).
Proof. apply pos_Print_ge. Qed.

Lemma pos_eol_ge pw : pos pw <= pos (eol pw).
Proof.
  unfold eol. pose proof (pos_headIfEmpty_ge pw).
  destruct (pos (headIfEmpty pw) =? lastEOL (headIfEmpty pw)); [assumption|].
  change (pos (setLastEOL ?e ?p)) with (pos p).
  pose proof (pos_Println_ge "" (headIfEmpty pw)). lia.
Qed.

Lemma pos_endObject_ge pw : pos pw <= pos (endObject pw).
Proof.
  unfold endObject. pose proof (pos_eol_ge pw).
  pose proof (pos_Println_ge "endobj" (eol pw)). lia.
Qed.

Lemma pos_startObject_ge n pw : pos pw <= pos (startObject n pw).
Proof.
  unfold startObject.
  match goal with |- _ <= pos (Printf ?s ?p) => pose proof (pos_Printf_ge s p) as Hp end.
  change (pos (setObjectlocations ?l ?p)) with (pos p) in Hp.
  pose proof (pos_headIfEmpty_ge pw). lia.
Qed.

Lemma pos_emitBody_ge {rt : GoRuntime} o pw : pos pw <= pos (emitBody o pw).
Proof.
  unfold emitBody. destruct (_ <? _); [apply pos_emit_ge|].
  destruct (_ <? _); [apply pos_emit_ge|lia].
Qed.

Lemma pos_emitStream_ge {rt : GoRuntime} o pw : pos pw <= pos (snd (emitStream o pw)).
Proof.
  unfold emitStream. destruct (_ <? _); cbn [snd]; [|lia].
  repeat match goal with |- context [emit ?s ?p] =>
    lazymatch goal with
    | H : pos p <= pos (emit s p) |- _ => fail
    | _ => pose proof (pos_emit_ge s p)
    end end.
  lia.
Qed.

Lemma pos_Save_ge {rt : GoRuntime} a pw : pos pw <= pos (Save a pw).
Proof.
  unfold Save. destruct (saved (getObject a pw)); [lia|]. cbv zeta.
  set (o1 := setSaved (getObject a pw)).
  pose proof (pos_emitComment_ge o1 (putObject a o1 pw)) as H1.
  rewrite pos_putObject in H1.
  destruct (Raw o1).
  - match goal with |- _ <= pos (endObject ?p) => pose proof (pos_endObject_ge p) as H2 end.
    rewrite pos_putObject in H2.
    match type of H2 with pos (emit ?s ?p) <= _ => pose proof (pos_emit_ge s p) as H3 end.
    match type of H3 with pos (startObject ?n ?p) <= _ =>
      pose proof (pos_startObject_ge n p) as H4 end.
    lia.
  - destruct (emitStream _ _) as [o p] eqn:Ep.
    match goal with |- _ <= pos (endObject ?p) => pose proof (pos_endObject_ge p) as H2 end.
    rewrite pos_putObject in H2.
    match type of Ep with emitStream ?o0 ?p0 = _ =>
      pose proof (pos_emitStream_ge o0 p0) as H3; rewrite Ep in H3; cbn [snd] in H3 end.
    match type of H3 with pos (emitBody ?o0 ?p0) <= _ =>
      pose proof (pos_emitBody_ge o0 p0) as H4 end.
    match type of H4 with pos (startObject ?n ?p0) <= _ =>
      pose proof (pos_startObject_ge n p0) as H5 end.
    rewrite pos_putObject in H5. lia.
Qed.

(** ** Names *)

(** C8 (the code departs from the claim): a space in a name is not
    replaced by its escape sequence [#20].  [PDFNameReplacer] lists the
    pair for the space the other way round, so [Name("Adobe Green")]
    renders with a bare space, and the text [#20] of a name is turned into
    a space. *)
Theorem NameString_keeps_space :
  NameString "Adobe Green" = "/Adobe Green" ∧
  NameString "Adobe Green" ≠ "/Adobe#20Green" ∧
  NameString "Adobe#20Green" = "/Adobe Green".
Proof. repeat split. discriminate. Qed.

(** The other reserved characters of the claim are escaped. *)
Example NameString_other_escapes :
  NameString "a/b(c)d" = "/a#2fb#28c#29d" ∧ NameString "/Foo" = "/Foo" ∧
  NameString "AdobeGreen" = "/AdobeGreen".
Proof. repeat split. Qed.

(** ** [Save] is done once *)

(** C2: a second or later [Save] of an object is a no-op.  The output and
    the position after two calls are those after one call (indeed the
    whole writer state is), and the object-location table receives the
    offset of the object once, at the first call: it is the position of
    the byte after the newline that precedes [N 0 obj]. *)
Theorem Save_twice_is_once {rt : GoRuntime} (a : nat) (pw : PDF) :
  (a < length (store pw))%nat →
  saved (getObject a pw) = false →
  outfile (Save a (Save a pw)) = outfile (Save a pw) ∧
  pos (Save a (Save a pw)) = pos (Save a pw) ∧
  (∀ n, Nat.iter n (Save a) (Save a pw) = Save a pw) ∧
  objectlocations (Save a pw) =
    <[ ObjectNumber (getObject a pw) := pos (atHeader (getObject a pw) pw) + 1 ]>
      (objectlocations pw) ∧
  objectlocations (Save a (Save a pw)) = objectlocations (Save a pw).
Proof.
  intros Ha Hs.
  destruct (Save_marks_saved a pw Ha) as [Hsaved _].
  assert (Hno : Save a (Save a pw) = Save a pw) by now apply Save_saved_noop.
  rewrite Hno. repeat split.
  - induction n as [|n IH]; simpl; [reflexivity|]. now rewrite IH.
  - now apply Save_objectlocations.
Qed.

Lemma Save_twice_is_once_witness :
  (0 < length (store oneStream))%nat ∧
  saved (getObject 0 oneStream) = false ∧
  outfile (Save (rt := sampleRuntime) 0 (Save (rt := sampleRuntime) 0 oneStream)) =
  outfile (Save (rt := sampleRuntime) 0 oneStream).
Proof.
  split; [vm_compute; lia|]. split; [reflexivity|].
  apply (Save_twice_is_once (rt := sampleRuntime) 0 oneStream); [vm_compute; lia|reflexivity].
Defined.

(** ** [Finish] on a document without pages *)

Section FinishFacts.
Context {rt : GoRuntime} {co : Collaborators}.

Lemma Finish_no_pages_eq (pw : PDF) :
  pages pw = [] →
  Finish pw = (Some "no pages in document", snd (NewObject pw)).
Proof.
  intros Hp. unfold Finish, writeDocumentCatalogAndPages.
  rewrite Hp. cbn [flat_map distinctBy Sort fold_left].
  destruct (NewObject pw) as [pagesObj pw1] eqn:E. cbn [snd].
  assert (Hp1 : pages pw1 = []).
  { unfold NewObject, NextObject, alloc in E. injection E as _ <-. exact Hp. }
  rewrite Hp1. reflexivity.
Qed.

(** C5: [Finish] on a document without pages returns the error of
    [writeDocumentCatalogAndPages] and writes nothing: output, position
    and object-location table are those before the call. *)
Theorem Finish_without_pages (pw : PDF) :
  pages pw = [] →
  fst (Finish pw) = Some "no pages in document" ∧
  outfile (snd (Finish pw)) = outfile pw ∧
  pos (snd (Finish pw)) = pos pw ∧
  objectlocations (snd (Finish pw)) = objectlocations pw.
Proof.
  intros Hp. rewrite (Finish_no_pages_eq pw Hp). repeat split.
Qed.

(** The failed call still reserves the object number of the page
    tree. *)
Lemma Finish_without_pages_nextobject (pw : PDF) :
  pages pw = [] → nextobject (snd (Finish pw)) = nextobject pw + 1.
Proof.
  intros Hp. rewrite (Finish_no_pages_eq pw Hp). reflexivity.
Qed.
End FinishFacts.

Lemma Finish_without_pages_witness :
  pages NewPDFWriter = [] ∧
  fst (Finish (rt := sampleRuntime) (co := noCollaborators) NewPDFWriter)
  = Some "no pages in document".
Proof.
  split; [reflexivity|].
  apply (Finish_without_pages (rt := sampleRuntime) (co := noCollaborators) NewPDFWriter).
  reflexivity.
Defined.

(** ** Forced streams without payload *)

Section ForcedStream.
Context {rt : GoRuntime}.

Lemma prepareStream_forced_empty obj :
  ForceStream obj = true → compress obj = false → Data obj = "" →
  prepareStream obj =
  setDictionary (mapSet "Length" (VRaw "0") (Dictionary obj)) obj.
Proof.
  intros Hf Hc Hd. unfold prepareStream. rewrite Hf, Hd, orb_true_r.
  cbv zeta. cbn [compress setDictionary Dictionary Data]. rewrite Hc.
  rewrite Hd, mapSet_twice. reflexivity.
Qed.

(** The output of [Save] for an object that is not raw, not compressed,
    forced to be a stream and without payload: header, dictionary with
    [Length 0], [endobj]. *)
Lemma Save_forced_empty_output a pw :
  (a < length (store pw))%nat →
  saved (getObject a pw) = false →
  Raw (getObject a pw) = false →
  compress (getObject a pw) = false →
  ForceStream (getObject a pw) = true →
  Data (getObject a pw) = "" →
  0 <= lastEOL pw <= pos pw →
  Dictionary (getObject a (Save a pw)) =
    mapSet "Length" (VRaw "0") (Dictionary (getObject a pw)) ∧
  outfile (Save a pw) =
    outfile (atHeader (getObject a pw) pw) +:+
    LF +:+ fmt_d (ObjectNumber (getObject a pw)) +:+ " 0 obj" +:+ LF +:+
    hashToString (mapSet "Length" (VRaw "0") (Dictionary (getObject a pw))) O +:+
    LF +:+ "endobj" +:+ LF.
Proof.
  intros Ha Hs Hr Hc Hf Hd Hpos.
  set (obj := getObject a pw) in *.
  set (d := mapSet "Length" (VRaw "0") (Dictionary obj)).
  unfold Save. fold obj. rewrite Hs. cbv zeta.
  cbn [Raw setSaved]. rewrite Hr.
  rewrite (prepareStream_forced_empty (setSaved obj)) by assumption.
  cbn [Dictionary setSaved]. fold d.
  set (obj2 := setDictionary d (setSaved obj)).
  assert (Hstream : ∀ p, emitStream obj2 p = (obj2, p)).
  { intros p. unfold emitStream, obj2. cbn [Data setDictionary setSaved].
    now rewrite Hd. }
  rewrite Hstream.
  assert (Hbody : ∀ p, emitBody obj2 p = emit (hashToString d O) p).
  { intros p. unfold emitBody.
    assert (E : (0 <? Z.of_nat (length (Dictionary obj2))) = true).
    { apply Z.ltb_lt.
      pose proof (mapSet_nonempty "Length" (VRaw "0") (Dictionary obj)) as Hn.
      unfold obj2, d. cbn [Dictionary setDictionary].
      apply (proj1 (Nat2Z.inj_lt 0 _)). exact Hn. }
    now rewrite E. }
  rewrite Hbody.
  rewrite emitComment_putObject.
  change (emitComment (setSaved obj) pw) with (emitComment obj pw).
  set (p0 := emitComment obj pw).
  assert (Hp0 : pos pw <= pos p0) by apply pos_emitComment_ge.
  assert (Hl0 : lastEOL p0 = lastEOL pw) by apply lastEOL_emitComment.
  split.
  - unfold getObject at 1. autorewrite with pdfstore.
    rewrite list_lookup_insert_eq; [reflexivity|].
    autorewrite with pdfstore. subst p0. autorewrite with pdfstore. lia.
  - cbn [ObjectNumber obj2 setDictionary setSaved].
    set (p1 := putObject a obj2 (putObject a (setSaved obj) p0)).
    assert (Hh : headIfEmpty p1 = putObject a obj2 (putObject a (setSaved obj) (headIfEmpty p0))).
    { subst p1. now rewrite !headIfEmpty_putObject. }
    assert (Hpos1 : 0 < pos (headIfEmpty p0)) by (apply pos_headIfEmpty; lia).
    assert (Hge1 : pos p0 <= pos (headIfEmpty p0)) by apply pos_headIfEmpty_ge.
    unfold startObject. rewrite Hh.
    rewrite Printf_started by exact Hpos1.
    set (hdr := LF +:+ fmt_d (ObjectNumber obj) +:+ " 0 obj" +:+ LF).
    rewrite endObject_newline.
    + cbn [outfile emit setSink putObject setStore setObjectlocations].
      unfold atHeader. fold p0. subst hdr. now rewrite !sapp_assoc.
    + cbn [pos emit setSink putObject setStore setObjectlocations].
      pose proof (lenZ_nonneg hdr). pose proof (hashToString_nonempty d O). lia.
    + cbn [pos lastEOL emit setSink putObject setStore setObjectlocations].
      rewrite lastEOL_headIfEmpty, Hl0.
      pose proof (lenZ_nonneg hdr). pose proof (hashToString_nonempty d O). lia.
Qed.

Lemma getObject_AddPage content page pw :
  (content < length (store pw))%nat →
  getObject content (AddPage content page pw) =
  setForceStream true (getObject content pw).
Proof.
  intros Hc. unfold AddPage.
  destruct (page =? 0); cbn [NextObject]; unfold updObject;
    cbv zeta; unfold getObject; cbn [store setPages putObject setStore setNextobject];
    now rewrite list_lookup_insert_eq.
Qed.

Lemma AddPage_frame content page pw :
  store (AddPage content page pw) =
    <[ content := setForceStream true (getObject content pw) ]> (store pw) ∧
  outfile (AddPage content page pw) = outfile pw ∧
  pos (AddPage content page pw) = pos pw ∧
  lastEOL (AddPage content page pw) = lastEOL pw.
Proof. unfold AddPage. destruct (page =? 0); repeat split. Qed.

(** C10, amended: an object that is not raw and not compressed, with
    [ForceStream] set and an empty [Data] buffer, is saved as a
    dictionary with [Length 0] and without the [stream]/[endstream]
    wrapper: the bytes written are the header [N 0 obj], the dictionary
    and [endobj].  [AddPage] sets [ForceStream] on the content-stream
    object of the page, so this is how a page without content, not
    compressed, is written. *)
Theorem Save_forced_empty_stream (content : nat) (page : Z) (pw : PDF) :
  (content < length (store pw))%nat →
  saved (getObject content pw) = false →
  Raw (getObject content pw) = false →
  compress (getObject content pw) = false →
  Data (getObject content pw) = "" →
  0 <= lastEOL pw <= pos pw →
  let pw1 := AddPage content page pw in
  let obj := getObject content pw1 in
  ForceStream obj = true ∧
  Dictionary (getObject content (Save content pw1)) =
    mapSet "Length" (VRaw "0") (Dictionary obj) ∧
  outfile (Save content pw1) =
    outfile (atHeader obj pw1) +:+
    LF +:+ fmt_d (ObjectNumber obj) +:+ " 0 obj" +:+ LF +:+
    hashToString (mapSet "Length" (VRaw "0") (Dictionary obj)) O +:+
    LF +:+ "endobj" +:+ LF.
Proof.
  intros Hc Hs Hr Hco Hd Hpos pw1 obj.
  assert (Hobj : obj = setForceStream true (getObject content pw))
    by (apply getObject_AddPage; exact Hc).
  destruct (AddPage_frame content page pw) as (Hst & Hout & Hp & Hl).
  split; [now rewrite Hobj|].
  apply Save_forced_empty_output; fold pw1; fold obj;
    try (rewrite Hobj; assumption).
  - subst pw1. rewrite Hst. now rewrite length_insert.
  - now rewrite Hobj.
  - subst pw1. rewrite Hp, Hl. exact Hpos.
Qed.

End ForcedStream.

Lemma Save_forced_empty_stream_witness :
  (0 < length (store (snd (NewObject NewPDFWriter))))%nat ∧
  ForceStream (getObject 0 (AddPage 0 0 (snd (NewObject NewPDFWriter)))) = true.
Proof.
  split; [vm_compute; lia|].
  apply (Save_forced_empty_stream (rt := sampleRuntime) 0 0 (snd (NewObject NewPDFWriter)));
    try reflexivity; vm_compute; try lia; split; discriminate.
Defined.

(** C10 as stated fails for a compressed object: the compressor turns
    the empty payload into a non-empty zlib stream, so [Length] is the
    length of that stream (11 for the stream that the compressor writes
    for no input) and the [stream]/[endstream] wrapper is written. *)
Lemma Save_empty_compressed_stream :
  ForceStream (getObject 0 emptyCompressedPage) = true ∧
  Data (getObject 0 emptyCompressedPage) = "" ∧
  mapGet (Dictionary (getObject 0 (Save (rt := sampleRuntime) 0 emptyCompressedPage))) "Length"
    = Some (VRaw "11") ∧
  outfile (Save (rt := sampleRuntime) 0 emptyCompressedPage) =
    outfile (writePDFHead NewPDFWriter) +:+ "
1 0 obj
<<
 /Filter /FlateDecode
 /Length 11
 /Length1 0
>>
stream
" +:+ zlibStream (rt := sampleRuntime) "" +:+ "
endstream
endobj
".
Proof. repeat split. Qed.

(** ** Dictionaries are serialized in key order *)

Section DictOrder.
Context {rt : GoRuntime}.

Lemma mapGet_In {V} (m : list (string * V)) k v :
  NoDup (mapKeys m) → (mapGet m k = Some v ↔ (k, v) ∈ m).
Proof.
  induction m as [|[k' v'] t IH]; simpl; intros Hnd.
  - split; [discriminate|]. intros Hin. inversion Hin.
  - apply NoDup_cons in Hnd as [Hnotin Hnd].
    destruct (String.eqb_spec k' k) as [->|Hne].
    + split.
      * intros [= ->]. left.
      * intros Hin. apply elem_of_cons in Hin as [[= ->]|Hin]; [reflexivity|].
        exfalso. apply Hnotin. unfold mapKeys.
        apply list_elem_of_fmap. now exists (k, v).
    + rewrite (IH Hnd). split.
      * intros Hin. now right.
      * intros Hin. apply elem_of_cons in Hin as [[= -> ->]|Hin]; [congruence|exact Hin].
Qed.

Lemma mapKeys_perm {V} (m1 m2 : list (string * V)) :
  m1 ≡ₚ m2 → mapKeys m1 ≡ₚ mapKeys m2.
Proof. intros Hp. unfold mapKeys. now apply fmap_Permutation. Qed.

(** In a map, a lookup does not depend on the enumeration. *)
Lemma mapGet_perm {V} (m1 m2 : list (string * V)) k :
  NoDup (mapKeys m1) → m1 ≡ₚ m2 → mapGet m1 k = mapGet m2 k.
Proof.
  intros Hnd Hp.
  assert (Hnd2 : NoDup (mapKeys m2)) by (now rewrite <- (mapKeys_perm _ _ Hp)).
  destruct (mapGet m1 k) as [v|] eqn:E1.
  - symmetry. apply (mapGet_In m2 k v Hnd2). rewrite <- Hp.
    now apply (mapGet_In m1 k v Hnd).
  - destruct (mapGet m2 k) as [v|] eqn:E2; [|reflexivity].
    apply (mapGet_In m2 k v Hnd2) in E2. rewrite <- Hp in E2.
    apply (mapGet_In m1 k v Hnd) in E2. congruence.
Qed.

Lemma mapGet_rendered (f : value → string) (h : Dict) k :
  mapGet (map (fun kv => let '(k, v) := kv in (k, f v)) h) k = option_map f (mapGet h k).
Proof.
  induction h as [|[k' v'] t IH]; simpl; [reflexivity|].
  destruct (String.eqb k' k); [reflexivity|exact IH].
Qed.

Lemma mapKeys_rendered (f : value → string) (h : Dict) :
  mapKeys (map (fun kv => let '(k, v) := kv in (k, f v)) h) = mapKeys h.
Proof.
  unfold mapKeys. rewrite map_map. apply map_ext. now intros [k v].
Qed.

(** [hashToString] as the source has it: the keys are sorted, and each
    line holds the rendering of [h[key]]. *)
Lemma hashToString_loop (h : Dict) (level : nat) :
  hashToString h level = dictText h (Sort sortByNameLess (mapKeys h)) level.
Proof.
  unfold hashToString, hashLines, dictText.
  rewrite mapKeys_rendered. do 4 f_equal.
  apply map_ext_in. intros key Hin.
  rewrite mapGet_rendered. unfold dictIndex.
  apply (Permutation_in _ (Sort_perm sortByNameLess _)) in Hin.
  destruct (mapGet h key) as [v|] eqn:E; [reflexivity|].
  exfalso. clear -Hin E. induction h as [|[k' v'] t IH]; simpl in *; [contradiction|].
  destruct (String.eqb_spec k' key) as [->|Hne]; [discriminate|].
  destruct Hin as [Heq|Hin]; [congruence|now apply IH].
Qed.

Lemma filter_not_Type_perm (keys : list Name) :
  NoDup keys →
  keys ≡ₚ (if existsb (String.eqb "Type") keys then ["Type"] else []) ++
          List.filter (fun k => negb (String.eqb k "Type")) keys.
Proof.
  induction keys as [|k t IH]; intros Hnd; [reflexivity|].
  apply NoDup_cons in Hnd as [Hnotin Hnd]. specialize (IH Hnd).
  cbn [existsb List.filter].
  destruct (String.eqb_spec k "Type") as [->|Hne].
  - rewrite String.eqb_refl. cbn [orb negb app].
    assert (Hex : existsb (String.eqb "Type") t = false).
    { apply not_true_is_false. intros Hex. apply existsb_exists in Hex as (x & Hin & Hx).
      apply String.eqb_eq in Hx. subst x. apply Hnotin. now apply list_elem_of_In. }
    rewrite Hex in IH. cbn [app] in IH. now constructor.
  - destruct (String.eqb_spec "Type" k) as [Heq|_]; [congruence|].
    cbn [orb negb]. rewrite IH at 1.
    now rewrite Permutation_middle.
Qed.

Lemma Sort_strings_sorted (l : list string) : StronglySorted String.le (Sort stringLess l).
Proof. apply Sort_sorted; [apply _|apply stringLess_le|apply stringLess_ge]. Qed.

(** The comparison of [sortByName] puts [Type] first and the other keys
    in ascending order. *)
Lemma Sort_names_order (keys : list Name) :
  NoDup keys → Sort sortByNameLess keys = dictKeyOrder keys.
Proof.
  intros Hnd.
  apply (StronglySorted_unique nameLe).
  - apply Sort_sorted; [apply _|apply sortByNameLess_sound|apply sortByNameLess_total].
  - unfold dictKeyOrder.
    set (others := List.filter (fun k => negb (String.eqb k "Type")) keys).
    assert (Hothers : Forall (fun k => k ≠ "Type") (Sort stringLess others)).
    { rewrite (Sort_perm stringLess others). apply Forall_forall. intros x Hx.
      apply list_elem_of_In, filter_In in Hx as [_ Hx].
      destruct (String.eqb_spec x "Type"); [discriminate|assumption]. }
    assert (Hs : StronglySorted nameLe (Sort stringLess others)).
    { pose proof (Sort_strings_sorted others) as Hle.
      revert Hothers. induction Hle as [|x l Hl IHl Hall]; intros Ho; constructor.
      - apply IHl. now inversion Ho.
      - inversion Ho as [|? ? Hx Ho']; subst.
        rewrite Forall_forall in Hall, Ho' |- *.
        intros y Hy. right. split; [now apply Ho'|now apply Hall]. }
    destruct (existsb (String.eqb "Type") keys); cbn [app]; [|exact Hs].
    constructor; [exact Hs|]. apply Forall_forall. intros y _. now left.
  - rewrite (Sort_perm sortByNameLess keys).
    rewrite (filter_not_Type_perm keys Hnd) at 1. unfold dictKeyOrder.
    apply Permutation_app_head. symmetry. apply Sort_perm.
Qed.
End DictOrder.

(** Induction over values that reaches into arrays and dictionaries. *)
Lemma value_nested_ind (P : value → Prop) :
  P VNil → (∀ s, P (VRaw s)) → (∀ a, Forall P a → P (VArray a)) →
  (∀ n, P (VInt n)) → (∀ f, P (VFloat f)) →
  (∀ d, Forall (fun kv => P (snd kv)) d → P (VDict d)) →
  (∀ s, P (VString s)) → (∀ t, P (VNameTree t)) → (∀ n, P (VObjnum n)) →
  (∀ n, P (VName n)) → (∀ r, P (VOther r)) →
  ∀ v, P v.
Proof.
  intros Hnil Hraw Harr Hint Hfl Hdict Hstr Hnt Hon Hname Hoth.
  fix IH 1.
  intros [ |s|a|n|f|d|s|t|n|n|r];
    [exact Hnil|exact (Hraw s)| |exact (Hint n)|exact (Hfl f)|
     |exact (Hstr s)|exact (Hnt t)|exact (Hon n)|exact (Hname n)|exact (Hoth r)].
  - apply Harr.
    exact ((fix go (l : list value) : Forall P l :=
              match l with
              | [] => Forall_nil_2 P
              | x :: r => Forall_cons_2 P x r (IH x) (go r)
              end) a).
  - apply Hdict.
    exact ((fix go (l : list (Name * value)) : Forall (fun kv => P (snd kv)) l :=
              match l with
              | [] => Forall_nil_2 _
              | x :: r => Forall_cons_2 (fun kv => P (snd kv)) x r (IH (snd x)) (go r)
              end) d).
Qed.

Section DictDeterministic.
Context {rt : GoRuntime}.

(** The layout of rendered entries does not depend on their order. *)
Lemma hashLines_perm (r1 r2 : list (Name * string)) (level : nat) :
  NoDup (mapKeys r1) → r1 ≡ₚ r2 → hashLines r1 level = hashLines r2 level.
Proof.
  intros Hnd Hp. unfold hashLines.
  rewrite (Sort_names_unique _ _ (mapKeys_perm _ _ Hp)).
  do 4 f_equal. apply map_ext. intros key.
  now rewrite (mapGet_perm r1 r2 key Hnd Hp).
Qed.

Lemma Join_ext (l1 l2 : list string) sep : l1 = l2 → Join l1 sep = Join l2 sep.
Proof. now intros ->. Qed.

(** Values that denote the same Go value have the same text. *)
Lemma serializeLevel_sameValue (v1 : value) :
  ∀ v2 level, uniqueKeys v1 → sameValue v1 v2 →
              serializeLevel v1 level = serializeLevel v2 level.
Proof.
  induction v1 as [ |s|a IHa|n|f|d IHd|s|t|n|n|r] using value_nested_ind;
    intros v2 level Huk Hsame.
  1,2,4,5,7,9,10,11: inversion Hsame; reflexivity.
  - (* arrays *)
    inversion Hsame as [ |? b Hpair| | ]; subst; [reflexivity|].
    cbn [serializeLevel]. apply Join_ext. do 2 f_equal.
    inversion Huk as [ | |? Hall| | | | | | | | ]; subst.
    clear Huk Hsame.
    induction Hpair as [|x y l l' Hxy Hf IHf]; [reflexivity|].
    cbn [map]. f_equal.
    + apply (Forall_inv IHa); [exact (Forall_inv Hall)|exact Hxy].
    + apply IHf; [exact (Forall_inv_tail IHa)|exact (Forall_inv_tail Hall)].
  - (* dictionaries *)
    inversion Hsame as [ | |? dm d2 Hperm Hpair| ]; subst; [reflexivity|].
    cbn [serializeLevel].
    inversion Huk as [ | | | | |? Hnd Hall| | | | | ]; subst.
    set (ren := fun lv (kv : Name * value) => let '(k, v) := kv in (k, serializeLevel v lv)).
    change (hashLines (map (ren (level + 1 + 1)%nat) d) (level + 1) =
            hashLines (map (ren (level + 1 + 1)%nat) d2) (level + 1)).
    transitivity (hashLines (map (ren (level + 1 + 1)%nat) dm) (level + 1)).
    + apply hashLines_perm.
      * unfold ren. now rewrite mapKeys_rendered.
      * now apply Permutation_map.
    + f_equal.
      assert (IHm : Forall (fun kv => ∀ v2 level, uniqueKeys (snd kv) → sameValue (snd kv) v2 →
                      serializeLevel (snd kv) level = serializeLevel v2 level) dm)
        by (now rewrite <- Hperm).
      assert (Hallm : Forall (fun kv => uniqueKeys (snd kv)) dm) by (now rewrite <- Hperm).
      clear -Hpair IHm Hallm.
      induction Hpair as [|[k1 x] [k2 y] l l' [Hk Hxy] Hf IHf]; [reflexivity|].
      cbn [map ren fst snd] in *. subst k2. f_equal.
      * f_equal. apply (Forall_inv IHm); [exact (Forall_inv Hallm)|exact Hxy].
      * apply IHf; [exact (Forall_inv_tail IHm)|exact (Forall_inv_tail Hallm)].
  - (* name trees *)
    inversion Hsame as [ | | |? t2 Hperm]; subst; [reflexivity|].
    cbn [serializeLevel].
    inversion Huk as [ | | | | | | |? Hnd| | | ]; subst.
    rewrite (Sort_strings_unique _ _ (mapKeys_perm _ _ Hperm)).
    do 3 f_equal. apply map_ext. intros k.
    now rewrite (mapGet_perm _ _ k Hnd Hperm).
Qed.

(** C3: the text of a dictionary lists the key [Type] first when
    present and the other keys in ascending bytewise order, each with
    the rendering of its value; two dictionaries with the same entries,
    enumerated in any order at any depth, have the same text. *)
Theorem hashToString_deterministic (h1 h2 : Dict) (level : nat) :
  uniqueKeys (VDict h1) →
  sameValue (VDict h1) (VDict h2) →
  hashToString h1 level = dictText h1 (dictKeyOrder (mapKeys h1)) level ∧
  StronglySorted (fun a b => stringLess a b = true)
    (Sort stringLess (List.filter (fun k => negb (String.eqb k "Type")) (mapKeys h1))) ∧
  hashToString h1 level = hashToString h2 level.
Proof.
  intros Huk Hsame.
  assert (Hnd : NoDup (mapKeys h1)) by (now inversion Huk).
  split; [|split].
  - rewrite hashToString_loop. now rewrite Sort_names_order.
  - set (others := List.filter _ _).
    assert (Hndo : NoDup (Sort stringLess others)).
    { rewrite (Sort_perm stringLess others). apply NoDup_ListNoDup, List.NoDup_filter.
      now apply NoDup_ListNoDup. }
    pose proof (Sort_strings_sorted others) as Hs.
    induction Hs as [|x l Hl IHl Hall]; constructor.
    + apply IHl. now inversion Hndo.
    + apply NoDup_cons in Hndo as [Hx _].
      rewrite Forall_forall in Hall |- *. intros y Hy.
      apply stringLess_of_le; [now apply Hall|congruence].
  - inversion Hsame as [ | |? dm d2 Hperm Hpair| ]; subst; [reflexivity|].
    inversion Huk as [ | | | | |? _ Hall| | | | | ]; subst.
    unfold hashToString.
    set (ren := fun (kv : Name * value) =>
                  let '(k, v) := kv in (k, serializeLevel v (level + 1))).
    change (hashLines (map ren h1) level = hashLines (map ren h2) level).
    transitivity (hashLines (map ren dm) level).
    + apply hashLines_perm; [unfold ren; now rewrite mapKeys_rendered|].
      now apply Permutation_map.
    + f_equal.
      assert (Hallm : Forall (fun kv => uniqueKeys (snd kv)) dm) by (now rewrite <- Hperm).
      clear -Hpair Hallm.
      induction Hpair as [|[k1 x] [k2 y] l l' [Hk Hxy] Hf IHf]; [reflexivity|].
      cbn [map ren fst snd] in *. subst k2. f_equal.
      * f_equal. apply serializeLevel_sameValue; [exact (Forall_inv Hallm)|exact Hxy].
      * apply IHf. exact (Forall_inv_tail Hallm).
Qed.
End DictDeterministic.

Lemma hashToString_deterministic_witness :
  uniqueKeys (VDict sampleDict) ∧
  sameValue (VDict sampleDict) (VDict sampleDictPermuted) ∧
  hashToString (rt := sampleRuntime) sampleDict 0 =
  hashToString (rt := sampleRuntime) sampleDictPermuted 0.
Proof.
  assert (Huk : uniqueKeys (VDict sampleDict)).
  { constructor.
    - apply NoDup_ListNoDup. repeat constructor; simpl; intuition discriminate.
    - repeat constructor. }
  assert (Hsame : sameValue (VDict sampleDict) (VDict sampleDictPermuted)).
  { apply (same_dict _ sampleDictPermuted).
    - unfold sampleDict, sampleDictPermuted.
      etrans; [apply Permutation_swap|]. etrans; [apply Permutation_skip, Permutation_swap|].
      apply Permutation_swap.
    - repeat constructor. }
  split; [exact Huk|]. split; [exact Hsame|].
  apply (hashToString_deterministic (rt := sampleRuntime) sampleDict sampleDictPermuted 0 Huk Hsame).
Defined.

(** ** Strings: literal form *)

Lemma prefix_one o c rest : String.prefix (String o "") (String c rest) = Ascii.eqb o c.
Proof.
  simpl. destruct (ascii_dec o c) as [->|Hne].
  - rewrite Ascii.eqb_refl. now destruct rest.
  - symmetry. now apply Ascii.eqb_neq.
Qed.

Ltac ascii_cases c :=
  repeat match goal with
         | |- context [Ascii.eqb ?a c] =>
             destruct (Ascii.eqb_spec a c) as [<-|?]; [try reflexivity|]
         | |- context [Ascii.eqb c ?a] =>
             destruct (Ascii.eqb_spec c a) as [->|?]; [try reflexivity|]
         end.

Lemma lookupOld_pdfString c rest :
  match lookupOld pdfStringReplacer (String c rest) with
  | Some (old, new) => String.length old = 1%nat ∧ new = escapeByte c
  | None => escapeByte c = String c ""
  end.
Proof.
  unfold pdfStringReplacer. cbn [lookupOld]. rewrite !prefix_one. unfold escapeByte.
  destruct (Ascii.eqb_spec "(" c) as [<-|H1]; [now split|].
  destruct (Ascii.eqb_spec ")" c) as [<-|H2]; [now split|].
  destruct (Ascii.eqb_spec "\" c) as [<-|H3]; [now split|].
  destruct (Ascii.eqb_spec (byteOf 10) c) as [<-|H4]; [now split|].
  destruct (Ascii.eqb_spec (byteOf 13) c) as [<-|H5]; [now split|].
  destruct (Ascii.eqb_spec (byteOf 9) c) as [<-|H6]; [now split|].
  destruct (Ascii.eqb_spec (byteOf 8) c) as [<-|H7]; [now split|].
  destruct (Ascii.eqb_spec c "(") as [->|_]; [congruence|].
  destruct (Ascii.eqb_spec c ")") as [->|_]; [congruence|].
  destruct (Ascii.eqb_spec c "\") as [->|_]; [congruence|].
  destruct (Ascii.eqb_spec c (byteOf 10)) as [->|_]; [congruence|].
  destruct (Ascii.eqb_spec c (byteOf 13)) as [->|_]; [congruence|].
  destruct (Ascii.eqb_spec c (byteOf 9)) as [->|_]; [congruence|].
  destruct (Ascii.eqb_spec c (byteOf 8)) as [->|_]; [congruence|].
  reflexivity.
Qed.

(** The replacer of [stringToPDF] escapes byte by byte. *)
Lemma Replace_pdfString s : Replace pdfStringReplacer s = escapeAll s.
Proof.
  unfold Replace. induction s as [|c rest IH]; [reflexivity|].
  cbn [replaceFrom escapeAll].
  pose proof (lookupOld_pdfString c rest) as Hl.
  destruct (lookupOld pdfStringReplacer (String c rest)) as [[old new]|].
  - destruct Hl as [Hlen ->]. rewrite Hlen. cbn [Nat.sub]. now rewrite IH.
  - rewrite Hl, IH. reflexivity.
Qed.

(** The escaped text holds no bare parenthesis, backslash, line feed,
    carriage return, tab or backspace: each is preceded by a backslash and
    written as its letter. *)
Lemma escapeByte_cases c :
  (c = "("%char ∧ escapeByte c = "\(") ∨
  (c = ")"%char ∧ escapeByte c = "\)") ∨
  (c = "\"%char ∧ escapeByte c = "\\") ∨
  (c = byteOf 10 ∧ escapeByte c = "\n") ∨
  (c = byteOf 13 ∧ escapeByte c = "\r") ∨
  (c = byteOf 9 ∧ escapeByte c = "\t") ∨
  (c = byteOf 8 ∧ escapeByte c = "\b") ∨
  (escapeByte c = String c "" ∧ c ≠ "("%char ∧ c ≠ ")"%char ∧ c ≠ "\"%char ∧
   c ≠ byteOf 10 ∧ c ≠ byteOf 13 ∧ c ≠ byteOf 9 ∧ c ≠ byteOf 8).
Proof.
  unfold escapeByte.
  destruct (Ascii.eqb_spec c "("); [tauto|].
  destruct (Ascii.eqb_spec c ")"); [tauto|].
  destruct (Ascii.eqb_spec c "\"); [tauto|].
  destruct (Ascii.eqb_spec c (byteOf 10)); [tauto|].
  destruct (Ascii.eqb_spec c (byteOf 13)); [tauto|].
  destruct (Ascii.eqb_spec c (byteOf 9)); [tauto|].
  destruct (Ascii.eqb_spec c (byteOf 8)); [tauto|].
  repeat right. tauto.
Qed.

Lemma literalBody_escape e d depth rest :
  PDFRead.unescapeChar e = Some d →
  PDFRead.literalBody false depth (String "\" (String e rest)) =
  option_map (String d) (PDFRead.literalBody false depth rest).
Proof. intros He. cbn [PDFRead.literalBody]. cbn [Ascii.eqb Bool.eqb]. now rewrite He. Qed.

Lemma literalBody_plain c rest :
  c ≠ "\"%char → c ≠ "("%char → c ≠ ")"%char → c ≠ byteOf 13 →
  PDFRead.literalBody false O (String c rest) =
  option_map (String c) (PDFRead.literalBody false O rest).
Proof.
  intros H1 H2 H3 H4. cbn [PDFRead.literalBody].
  destruct (Ascii.eqb_spec c "\") as [->|_]; [congruence|].
  destruct (Ascii.eqb_spec c "(") as [->|_]; [congruence|].
  destruct (Ascii.eqb_spec c ")") as [->|_]; [congruence|].
  destruct (Ascii.eqb_spec c (byteOf 13)) as [->|_]; [congruence|].
  reflexivity.
Qed.

(** Reading the escaped text gives the text back. *)
Lemma literalBody_escapeAll s :
  PDFRead.literalBody false O (escapeAll s +:+ ")") = Some s.
Proof.
  induction s as [|c rest IH]; [reflexivity|].
  cbn [escapeAll]. rewrite sapp_assoc.
  destruct (escapeByte_cases c) as
    [[-> ->]|[[-> ->]|[[-> ->]|[[-> ->]|[[-> ->]|[[-> ->]|[[-> ->]|(-> & H1 & H2 & H3 & H4 & H5 & H6 & H7)]]]]]]].
  1-7: rewrite !sapp_cons;
    change ("" +:+ escapeAll rest +:+ ")") with (escapeAll rest +:+ ")");
    (erewrite literalBody_escape by reflexivity); now rewrite IH.
  rewrite sapp_cons.
  change ("" +:+ escapeAll rest +:+ ")") with (escapeAll rest +:+ ")").
  rewrite literalBody_plain by assumption. now rewrite IH.
Qed.

(** ** Strings: hexadecimal form *)

Lemma hexVal_hexChar d : 0 <= d < 16 → PDFRead.hexVal (hexChar false d) = Some d.
Proof.
  intros Hd.
  destruct d as [|p|p]; [reflexivity| |lia].
  do 4 (destruct p as [p|p|]; try lia; try reflexivity).
Qed.

Lemma fmt_04x_chars u :
  fmt_04x u =
  String (hexChar false (u / 16 / 16 / 16 mod 16))
    (String (hexChar false (u / 16 / 16 mod 16))
       (String (hexChar false (u / 16 mod 16))
          (String (hexChar false (u mod 16)) ""))).
Proof. reflexivity. Qed.

Lemma hexUnits_encode us :
  Forall (fun u => 0 <= u < 65536) us →
  PDFRead.hexUnits (cat (map fmt_04x us) +:+ ">") = Some us.
Proof.
  induction 1 as [|u us Hu Hall IH]; [reflexivity|].
  cbn [map cat]. rewrite sapp_assoc, fmt_04x_chars, !sapp_cons.
  change ("" +:+ cat (map fmt_04x us) +:+ ">") with (cat (map fmt_04x us) +:+ ">").
  cbn [PDFRead.hexUnits].
  rewrite !hexVal_hexChar by (apply Z.mod_pos_bound; lia).
  rewrite IH. do 2 f_equal.
  Z.div_mod_to_equations. lia.
Qed.

Lemma land_low_bits a n : 0 <= n → Z.land a (Z.ones n) = a mod 2 ^ n.
Proof. apply Z.land_ones. Qed.

(** A bitwise or of a multiple of [2^n] and a number below [2^n] is their
    sum. *)
Lemma lor_low a b n :
  0 <= n → a mod 2 ^ n = 0 → 0 <= b < 2 ^ n → Z.lor a b = a + b.
Proof.
  intros Hn Ha Hb.
  rewrite <- (Z.add_lor_land a b).
  assert (Hl : Z.land a b = 0).
  { apply Z.bits_inj'. intros i Hi. rewrite Z.land_spec, Z.bits_0.
    destruct (Z.lt_ge_cases i n) as [Hlt|Hge].
    - assert (Hq : a = a / 2 ^ n * 2 ^ n).
      { pose proof (Z.div_mod a (2 ^ n)). lia. }
      rewrite Hq, Z.mul_pow2_bits_low by exact Hlt. reflexivity.
    - apply andb_false_iff. right.
      destruct (Z.eq_dec b 0) as [->|Hb0]; [apply Z.bits_0|].
      apply Z.bits_above_log2; [lia|].
      assert (Z.log2 b < n) by (apply Z.log2_lt_pow2; lia). lia. }
  lia.
Qed.

Lemma scalarValue_unit r :
  scalarValue r → r < 0x10000 → encodeRune16 r = [r] ∧ 0 <= r < 65536.
Proof.
  intros [Hr|Hr] Hlt; unfold encodeRune16.
  - replace ((0 <=? r) && (r <? 55296)) with true; [split; [reflexivity|lia]|].
    symmetry. apply andb_true_iff. split; [apply Z.leb_le|apply Z.ltb_lt]; lia.
  - replace ((0 <=? r) && (r <? 55296)) with false.
    + replace ((57344 <=? r) && (r <? 65536)) with true; [split; [reflexivity|lia]|].
      symmetry. apply andb_true_iff. split; [apply Z.leb_le|apply Z.ltb_lt]; lia.
    + symmetry. apply andb_false_iff. right. apply Z.ltb_ge. lia.
Qed.

Lemma scalarValue_pair r :
  scalarValue r → 0x10000 <= r →
  ∃ hi lo, encodeRune16 r = [hi; lo] ∧ 0xd800 <= hi < 0xdc00 ∧ 0xdc00 <= lo < 0xe000 ∧
           (hi - 0xd800) * 1024 + (lo - 0xdc00) + 0x10000 = r.
Proof.
  intros Hs Hge. assert (Hr : 0x10000 <= r <= 0x10FFFF) by (destruct Hs; lia).
  unfold encodeRune16.
  replace ((0 <=? r) && (r <? 55296)) with false
    by (symmetry; apply andb_false_iff; right; apply Z.ltb_ge; lia).
  replace ((57344 <=? r) && (r <? 65536)) with false
    by (symmetry; apply andb_false_iff; right; apply Z.ltb_ge; lia).
  replace ((65536 <=? r) && (r <=? 1114111)) with true
    by (symmetry; apply andb_true_iff; split; apply Z.leb_le; lia).
  cbv zeta. cbn [orb].
  change 1023 with (Z.ones 10). rewrite !land_low_bits by lia.
  rewrite Z.shiftr_div_pow2 by lia.
  change (2 ^ 10) with 1024.
  eexists _, _. split; [reflexivity|].
  Z.div_mod_to_equations. lia.
Qed.

(** Decoding the UTF-16 units of a sequence of scalar values gives the
    sequence back. *)
Lemma utf16Decode_Encode rs :
  Forall scalarValue rs →
  PDFRead.utf16Decode (utf16Encode rs) = rs ∧
  Forall (fun u => 0 <= u < 65536) (utf16Encode rs).
Proof.
  induction 1 as [|r rs Hr Hall [IHd IHu]]; [split; [reflexivity|constructor]|].
  unfold utf16Encode in *. cbn [flat_map].
  destruct (Z.lt_ge_cases r 0x10000) as [Hlt|Hge].
  - destruct (scalarValue_unit r Hr Hlt) as [-> Hu].
    cbn [app PDFRead.utf16Decode]. split; [|now constructor].
    assert (Hns : (55296 <=? r) && (r <? 56320) = false).
    { destruct Hr; apply andb_false_iff; [left; apply Z.leb_gt|right; apply Z.ltb_ge]; lia. }
    assert (Hns2 : (56320 <=? r) && (r <? 57344) = false).
    { destruct Hr; apply andb_false_iff; [left; apply Z.leb_gt|right; apply Z.ltb_ge]; lia. }
    now rewrite Hns, Hns2, IHd.
  - destruct (scalarValue_pair r Hr Hge) as (hi & lo & -> & Hhi & Hlo & Heq).
    cbn [app PDFRead.utf16Decode]. split.
    + replace ((55296 <=? hi) && (hi <? 56320)) with true
        by (symmetry; apply andb_true_iff; split; [apply Z.leb_le|apply Z.ltb_lt]; lia).
      replace ((56320 <=? lo) && (lo <? 57344)) with true
        by (symmetry; apply andb_true_iff; split; [apply Z.leb_le|apply Z.ltb_lt]; lia).
      now rewrite IHd, Heq.
    + constructor; [lia|]. constructor; [lia|exact IHu].
Qed.

(** ** Strings: the code points of a Go string *)

Lemma codeOf_range c : 0 <= codeOf c < 256.
Proof. unfold codeOf. pose proof (N_ascii_bounded c). lia. Qed.

Lemma utf8_two b0 b1 :
  Z.lor (Z.shiftl (Z.land b0 0x1F) 6) (Z.land b1 0x3F) = b0 mod 32 * 64 + b1 mod 64.
Proof.
  change 0x1F with (Z.ones 5). change 0x3F with (Z.ones 6).
  rewrite !land_low_bits, Z.shiftl_mul_pow2 by lia.
  apply (lor_low _ _ 6); [lia|apply Z.mod_mul; lia|apply Z.mod_pos_bound; lia].
Qed.

Lemma utf8_three b0 b1 b2 :
  Z.lor (Z.lor (Z.shiftl (Z.land b0 0x0F) 12) (Z.shiftl (Z.land b1 0x3F) 6)) (Z.land b2 0x3F)
  = b0 mod 16 * 4096 + b1 mod 64 * 64 + b2 mod 64.
Proof.
  change 0x0F with (Z.ones 4). change 0x3F with (Z.ones 6).
  rewrite !land_low_bits, !Z.shiftl_mul_pow2 by lia.
  pose proof (Z.mod_pos_bound b1 64 ltac:(lia)).
  pose proof (Z.mod_pos_bound b2 64 ltac:(lia)).
  change (2 ^ 4) with 16. change (2 ^ 6) with 64. change (2 ^ 12) with 4096.
  rewrite (lor_low (b0 mod 16 * 4096) (b1 mod 64 * 64) 12);
    [|lia|apply Z.mod_mul; lia|change (2 ^ 12) with 4096; lia].
  apply (lor_low _ _ 6); [lia| |change (2 ^ 6) with 64; lia].
  change (2 ^ 6) with 64.
  replace (b0 mod 16 * 4096 + b1 mod 64 * 64) with ((b0 mod 16 * 64 + b1 mod 64) * 64) by lia.
  apply Z.mod_mul. lia.
Qed.

Lemma utf8_four b0 b1 b2 b3 :
  Z.lor (Z.lor (Z.lor (Z.shiftl (Z.land b0 0x07) 18) (Z.shiftl (Z.land b1 0x3F) 12))
               (Z.shiftl (Z.land b2 0x3F) 6))
        (Z.land b3 0x3F)
  = b0 mod 8 * 262144 + b1 mod 64 * 4096 + b2 mod 64 * 64 + b3 mod 64.
Proof.
  change 0x07 with (Z.ones 3). change 0x3F with (Z.ones 6).
  rewrite !land_low_bits, !Z.shiftl_mul_pow2 by lia.
  pose proof (Z.mod_pos_bound b1 64 ltac:(lia)).
  pose proof (Z.mod_pos_bound b2 64 ltac:(lia)).
  pose proof (Z.mod_pos_bound b3 64 ltac:(lia)).
  change (2 ^ 3) with 8. change (2 ^ 6) with 64. change (2 ^ 12) with 4096.
  change (2 ^ 18) with 262144.
  rewrite (lor_low (b0 mod 8 * 262144) (b1 mod 64 * 4096) 18);
    [|lia|apply Z.mod_mul; lia|change (2 ^ 18) with 262144; lia].
  rewrite (lor_low (b0 mod 8 * 262144 + b1 mod 64 * 4096) (b2 mod 64 * 64) 12);
    [|lia| |change (2 ^ 12) with 4096; lia].
  - apply (lor_low _ _ 6); [lia| |change (2 ^ 6) with 64; lia].
    change (2 ^ 6) with 64.
    replace (b0 mod 8 * 262144 + b1 mod 64 * 4096 + b2 mod 64 * 64)
      with ((b0 mod 8 * 4096 + b1 mod 64 * 64 + b2 mod 64) * 64) by lia.
    apply Z.mod_mul. lia.
  - change (2 ^ 12) with 4096.
    replace (b0 mod 8 * 262144 + b1 mod 64 * 4096)
      with ((b0 mod 8 * 64 + b1 mod 64) * 4096) by lia.
    apply Z.mod_mul. lia.
Qed.

Lemma scalarValue_RuneError : scalarValue RuneError.
Proof. right. unfold RuneError. lia. Qed.

(** Every code point that the decoder yields is a scalar value: surrogates
    and values above U+10FFFF in the input become U+FFFD. *)
Lemma decodeRune_scalar s : scalarValue (fst (decodeRune s)).
Proof.
  pose proof scalarValue_RuneError as HE.
  destruct s as [|c0 t0]; [exact HE|].
  unfold decodeRune. pose proof (codeOf_range c0) as Hb0.
  set (b0 := codeOf c0) in *.
  destruct (Z.ltb_spec b0 0x80); [left; cbn [fst]; lia|].
  destruct (Z.ltb_spec b0 0xC2); [exact HE|].
  destruct (Z.ltb_spec 0xF4 b0); [exact HE|].
  cbn [orb]. cbv zeta.
  destruct t0 as [|c1 t1]; [exact HE|].
  pose proof (codeOf_range c1) as Hb1. set (b1 := codeOf c1) in *.
  set (lo := if b0 =? 0xE0 then 0xA0 else if b0 =? 0xF0 then 0x90 else 0x80).
  set (hi := if b0 =? 0xED then 0x9F else if b0 =? 0xF4 then 0x8F else 0xBF).
  assert (Hlo : 0x80 <= lo ∧ (b0 = 0xE0 → lo = 0xA0) ∧ (b0 = 0xF0 → lo = 0x90)).
  { subst lo. destruct (Z.eqb_spec b0 0xE0); [lia|].
    destruct (Z.eqb_spec b0 0xF0); lia. }
  assert (Hhi : hi <= 0xBF ∧ (b0 = 0xED → hi = 0x9F) ∧ (b0 = 0xF4 → hi = 0x8F)).
  { subst hi. destruct (Z.eqb_spec b0 0xED); [lia|].
    destruct (Z.eqb_spec b0 0xF4); lia. }
  clearbody lo hi.
  destruct (Z.ltb_spec b1 lo); [exact HE|].
  destruct (Z.ltb_spec hi b1); [exact HE|].
  cbn [orb].
  destruct (Z.ltb_spec b0 0xE0).
  { cbn [fst]. rewrite utf8_two. left. Z.div_mod_to_equations. lia. }
  destruct t1 as [|c2 t2]; [exact HE|].
  pose proof (codeOf_range c2) as Hb2. set (b2 := codeOf c2) in *.
  destruct (Z.ltb_spec b2 0x80); [exact HE|].
  destruct (Z.ltb_spec 0xBF b2); [exact HE|].
  cbn [orb].
  destruct (Z.ltb_spec b0 0xF0).
  { cbn [fst]. rewrite utf8_three. unfold scalarValue.
    Z.div_mod_to_equations. lia. }
  destruct t2 as [|c3 t3]; [exact HE|].
  pose proof (codeOf_range c3) as Hb3. set (b3 := codeOf c3) in *.
  destruct (Z.ltb_spec b3 0x80); [exact HE|].
  destruct (Z.ltb_spec 0xBF b3); [exact HE|].
  cbn [orb fst]. rewrite utf8_four. right.
  Z.div_mod_to_equations. lia.
Qed.

Lemma runesFrom_scalar s : ∀ skip, Forall scalarValue (runesFrom skip s).
Proof.
  induction s as [|c rest IH]; intros skip; [constructor|].
  cbn [runesFrom]. destruct skip as [|k]; [|apply IH].
  pose proof (decodeRune_scalar (String c rest)) as Hs.
  destruct (decodeRune (String c rest)) as [r size]. constructor; [exact Hs|apply IH].
Qed.

Lemma runes_scalar s : Forall scalarValue (runes s).
Proof. apply runesFrom_scalar. Qed.

(** ** [stringToPDF] *)

Lemma isASCII_true str :
  Forall (fun r => r <= 127) (runes str) →
  forallb (fun g => negb (127 <? g)) (runes str) = true.
Proof.
  intros Hall. apply forallb_forall. intros r Hr.
  rewrite Forall_forall in Hall. specialize (Hall r (proj2 (list_elem_of_In _ _) Hr)).
  apply negb_true_iff, Z.ltb_ge. exact Hall.
Qed.

Lemma isASCII_false str :
  Exists (fun r => 127 < r) (runes str) →
  forallb (fun g => negb (127 <? g)) (runes str) = false.
Proof.
  intros Hex. apply not_true_is_false. intros Hall.
  rewrite forallb_forall in Hall. apply Exists_exists in Hex as (r & Hr & Hgt).
  specialize (Hall r (proj1 (list_elem_of_In _ _) Hr)).
  apply negb_true_iff, Z.ltb_ge in Hall. lia.
Qed.

(** C4, amended: a string whose code points are all at most 127 becomes a
    parenthesized literal in which backslash, parentheses and the control
    characters LF, CR, TAB and BS are escaped, and reading the literal
    gives the string back; a string with a code point above 127 becomes
    the hexadecimal string [<feff...>] of its UTF-16BE encoding, and
    reading the digits behind the byte-order mark gives its code points
    back. *)
Theorem stringToPDF_roundtrip (str : string) :
  (Forall (fun r => r <= 127) (runes str) →
   stringToPDF str = "(" +:+ escapeAll str +:+ ")" ∧
   PDFRead.decodeLiteral (stringToPDF str) = Some str) ∧
  (Exists (fun r => 127 < r) (runes str) →
   stringToPDF str = "<feff" +:+ cat (map fmt_04x (utf16Encode (runes str))) +:+ ">" ∧
   PDFRead.decodeHexText (stringToPDF str) = Some (runes str)).
Proof.
  split.
  - intros Hall. unfold stringToPDF. rewrite (isASCII_true str Hall).
    rewrite Replace_pdfString. split; [reflexivity|].
    rewrite sapp_cons. cbn [PDFRead.decodeLiteral Ascii.eqb Bool.eqb].
    change ("" +:+ escapeAll str +:+ ")") with (escapeAll str +:+ ")").
    apply literalBody_escapeAll.
  - intros Hex. unfold stringToPDF. rewrite (isASCII_false str Hex).
    split; [reflexivity|].
    destruct (utf16Decode_Encode (runes str) (runes_scalar str)) as [Hdec Hunits].
    change ("<feff" +:+ cat (map fmt_04x (utf16Encode (runes str))) +:+ ">")
      with (String "<" (cat (map fmt_04x (0xfeff :: utf16Encode (runes str))) +:+ ">")).
    cbn [PDFRead.decodeHexText Ascii.eqb Bool.eqb].
    rewrite hexUnits_encode by (constructor; [lia|exact Hunits]).
    cbn [Z.eqb Pos.eqb]. now rewrite Hdec.
Qed.

Lemma stringToPDF_roundtrip_witness :
  PDFRead.decodeLiteral (stringToPDF sampleAscii) = Some sampleAscii ∧
  PDFRead.decodeHexText (stringToPDF sampleUnicode) = Some [0xE4; 0x20AC; 0x1D11E].
Proof.
  split.
  - apply (proj1 (stringToPDF_roundtrip sampleAscii)).
    vm_compute. repeat constructor; discriminate.
  - apply (proj2 (stringToPDF_roundtrip sampleUnicode)).
    vm_compute. constructor. reflexivity.
Defined.

(** C4 as stated fails on the control characters that have no escape in
    [pdfStringReplacer]: the escape character U+001B is copied as it
    is. *)
Lemma stringToPDF_control_unescaped :
  Forall (fun r => r <= 127) (runes (String (byteOf 27) "")) ∧
  isControl (byteOf 27) = true ∧
  stringToPDF (String (byteOf 27) "") = String "(" (String (byteOf 27) ")").
Proof.
  split; [|split; reflexivity].
  vm_compute. repeat constructor; discriminate.
Qed.

(** ** Cross-reference section: fixed-width numbers *)




(** The digits produced with enough fuel are the decimal digits without
    leading zeros. *)
Lemma digitsFuel_spec f : ∀ n acc,
  0 <= n < 10 ^ Z.of_nat f → (1 <= f)%nat →
  ∃ j, (1 <= j <= f)%nat ∧ n < 10 ^ Z.of_nat j ∧
       (j = 1%nat ∨ 10 ^ (Z.of_nat j - 1) <= n) ∧
       digitsFuel f n acc = decimalFixed j n +:+ acc.
Proof.
  induction f as [|f IH]; intros n acc Hn Hf; [lia|].
  cbn [digitsFuel].
  destruct (Z.eqb_spec (n / 10) 0) as [Hz|Hnz].
  - exists 1%nat. split; [lia|]. split; [|split; [now left|reflexivity]].
    change (10 ^ Z.of_nat 1) with 10. Z.div_mod_to_equations. lia.
  - assert (H10 : 10 <= n) by (Z.div_mod_to_equations; lia).
    assert (Hf' : (1 <= f)%nat).
    { destruct f; [|lia]. change (10 ^ Z.of_nat 1) with 10 in Hn. lia. }
    assert (Hd : 0 <= n / 10 < 10 ^ Z.of_nat f).
    { rewrite Nat2Z.inj_succ, Z.pow_succ_r in Hn by lia.
      split; [apply Z.div_pos; lia|apply Z.div_lt_upper_bound; lia]. }
    destruct (IH (n / 10) (String (digitChar (n mod 10)) acc) Hd Hf')
      as (j & Hj & Hlt & Hmin & Heq).
    exists (S j). split; [lia|]. split; [|split].
    + rewrite Nat2Z.inj_succ, Z.pow_succ_r by lia. Z.div_mod_to_equations. lia.
    + right. replace (Z.of_nat (S j) - 1) with (Z.of_nat j) by lia.
      destruct Hmin as [->|Hmin]; [exact H10|].
      replace (Z.of_nat j) with (Z.succ (Z.of_nat j - 1)) by lia.
      rewrite Z.pow_succ_r by lia. Z.div_mod_to_equations. lia.
    + rewrite Heq. cbn [decimalFixed]. now rewrite sapp_assoc.
Qed.

Lemma formatUint_spec n :
  0 <= n →
  ∃ j, (1 <= j)%nat ∧ n < 10 ^ Z.of_nat j ∧ (j = 1%nat ∨ 10 ^ (Z.of_nat j - 1) <= n) ∧
       formatUint n = decimalFixed j n.
Proof.
  intros Hn. unfold formatUint.
  destruct (digitsFuel_spec (S (Z.to_nat (Z.log2 n))) n "") as (j & Hj & Hlt & Hmin & Heq).
  - split; [exact Hn|].
    rewrite Nat2Z.inj_succ, Z2Nat.id by apply Z.log2_nonneg.
    destruct (Z.eq_dec n 0) as [->|Hn0]; [reflexivity|].
    eapply Z.lt_le_trans; [apply Z.log2_spec; lia|].
    apply Z.pow_le_mono_l. pose proof (Z.log2_nonneg n). lia.
  - lia.
  - exists j. rewrite sapp_nil_r in Heq. split; [lia|]. now repeat split.
Qed.



(** ** Cross-reference section: the scan over the object numbers *)

Section Scan.
Variable locs : gmap Z Z.






End Scan.

(** ** Cross-reference section: the text *)


Section XrefOutput.
Context {rt : GoRuntime} {co : Collaborators}.

Lemma writeInfoDict_pos pw : pos pw <= pos (snd (writeInfoDict pw)).
Proof.
  unfold writeInfoDict. destruct (Major pw <? 2); [|cbn [snd]; lia].
  unfold NewObject, NextObject, alloc. cbv zeta. cbn [snd].
  match goal with |- _ <= pos (Save ?a ?p) => pose proof (pos_Save_ge a p) as Hs end.
  exact Hs.
Qed.


End XrefOutput.


(** ** The subset tag *)

Lemma leBytes_length k x : length (MD5.leBytes k x) = k.
Proof. revert x. induction k as [|k IH]; intros x; simpl; [reflexivity|now rewrite IH]. Qed.

(** An MD5 digest has 16 bytes. *)
Lemma MD5_Sum_length msg : length (MD5.Sum msg) = 16%nat.
Proof.
  unfold MD5.Sum.
  destruct (fold_left MD5.processBlock _ MD5.init) as [[[A B] C] D].
  now rewrite !length_app, !leBytes_length.
Qed.

Lemma codeOf_byteOf n : 0 <= n < 256 → codeOf (byteOf n) = n.
Proof.
  intros Hn. unfold codeOf, byteOf.
  rewrite N_ascii_embedding; [lia|]. lia.
Qed.

Section SubsetTagFacts.
Context {rt : GoRuntime}.

Lemma glyphBytes_big_endian g : glyphBytes g = [(g / 256) mod 256; g mod 256].
Proof.
  unfold glyphBytes. change 0xff with (Z.ones 8).
  rewrite !land_low_bits, Z.shiftr_div_pow2 by lia. reflexivity.
Qed.

Lemma variationBytes_sorted (variations : list (string * float)) :
  variationBytes variations =
  flat_map (fun k => MD5.bytesOf (k +:+ ":" +:+ fmt_2f (default 0%float (mapGet variations k))))
           (Sort stringLess (mapKeys variations)).
Proof.
  unfold variationBytes. destruct variations as [|kv t]; [reflexivity|].
  cbn [length]. destruct (Z.ltb_spec 0 (Z.of_nat (S (length t)))); [|lia].
  apply flat_map_ext. intros k. now destruct (mapGet (kv :: t) k).
Qed.

Lemma tagLetters_code sum :
  length sum = 16%nat →
  string_of_list_ascii (map (tagLetter sum) (seq 0 6)) = tagLetters tagLetterByteSum 6 sum.
Proof.
  intros Hlen.
  do 16 (destruct sum as [|? sum]; [discriminate|]).
  cbn [map seq tagLetters string_of_list_ascii tagLetter nth Nat.mul Nat.add].
  unfold tagLetterByteSum. now rewrite !(Z.add_comm 65).
Qed.

(** [subsetTag] is the reference definition with the 8-bit sum. *)
Lemma subsetTag_is_reference glyphs variations :
  subsetTag glyphs variations = subsetTagReference tagLetterByteSum glyphs variations.
Proof.
  unfold subsetTag, subsetTagReference, tagInput.
  rewrite tagLetters_code by apply MD5_Sum_length.
  rewrite variationBytes_sorted. do 3 f_equal.
  apply flat_map_ext. intros g. apply glyphBytes_big_endian.
Qed.

Lemma tagLetters_upper n digest :
  Forall isUpper (list_ascii_of_string (tagLetters tagLetterByteSum n digest)) ∧
  (length digest = 16%nat → (n <= 8)%nat →
   String.length (tagLetters tagLetterByteSum n digest) = n).
Proof.
  split.
  - revert digest. induction n as [|n IH]; intros digest; [constructor|].
    destruct digest as [|b0 [|b1 rest]]; try constructor; [|apply IH].
    unfold isUpper, tagLetterByteSum. rewrite codeOf_byteOf.
    + pose proof (Z.mod_pos_bound ((b0 + b1) mod 256) 26 ltac:(lia)). lia.
    + pose proof (Z.mod_pos_bound ((b0 + b1) mod 256) 26 ltac:(lia)). lia.
  - intros Hlen Hn.
    do 16 (destruct digest as [|? digest]; [discriminate|]).
    do 9 (destruct n as [|n]; [reflexivity|]). lia.
Qed.

(** C6, amended: [subsetTag] is the reference definition in which the
    letter for a pair of digest bytes is ['A' + ((b0 + b1) mod 256) mod
    26], the sum of the two bytes being taken on 8 bits.  The tag has six
    upper-case letters, and it is the same for every enumeration of the
    same glyphs and of the same variation settings. *)
Theorem subsetTag_reference (glyphs glyphs' : list Z)
    (variations variations' : list (string * float)) :
  glyphs ≡ₚ glyphs' →
  NoDup (mapKeys variations) →
  variations ≡ₚ variations' →
  subsetTag glyphs variations = subsetTagReference tagLetterByteSum glyphs variations ∧
  String.length (subsetTag glyphs variations) = 6%nat ∧
  Forall isUpper (list_ascii_of_string (subsetTag glyphs variations)) ∧
  subsetTag glyphs variations = subsetTag glyphs' variations'.
Proof.
  intros Hg Hnd Hv.
  split; [apply subsetTag_is_reference|].
  rewrite !subsetTag_is_reference. unfold subsetTagReference.
  split; [|split].
  - apply tagLetters_upper; [apply MD5_Sum_length|lia].
  - apply tagLetters_upper.
  - rewrite (Sort_Z_unique _ _ Hg).
    rewrite (Sort_strings_unique _ _ (mapKeys_perm _ _ Hv)).
    do 2 f_equal. unfold tagInput. f_equal.
    apply flat_map_ext. intros k. now rewrite (mapGet_perm _ _ k Hnd Hv).
Qed.
End SubsetTagFacts.

Lemma subsetTag_reference_witness :
  [3; 1; 2; 0] ≡ₚ [0; 1; 2; 3] ∧
  subsetTag (rt := sampleRuntime) [3; 1; 2; 0] [("wght", 700%float)] =
  subsetTag (rt := sampleRuntime) [0; 1; 2; 3] [("wght", 700%float)].
Proof.
  assert (Hp : [3; 1; 2; 0] ≡ₚ [0; 1; 2; 3]).
  { etrans; [apply Permutation_skip, Permutation_skip, Permutation_swap|].
    etrans; [apply Permutation_skip, Permutation_swap|].
    etrans; [apply Permutation_swap|].
    apply Permutation_skip.
    etrans; [apply Permutation_swap|].
    apply Permutation_skip. apply Permutation_swap. }
  split; [exact Hp|].
  apply (subsetTag_reference (rt := sampleRuntime) _ _ _ _ Hp).
  - apply NoDup_ListNoDup. repeat constructor. simpl. tauto.
  - reflexivity.
Defined.

(** C6 as stated fails: with the sum of the two digest bytes taken over
    the integers, as the claim words it, the glyph set {0,1,2,3} would get
    the tag [WEVJFV]; [subsetTag] returns [AIVNFZ], because its sum is an
    8-bit sum (the first two digest bytes are 0xE9 and 0x99). *)
Lemma subsetTag_not_integer_sum :
  subsetTag (rt := sampleRuntime) [0; 1; 2; 3] [] = "AIVNFZ" ∧
  subsetTagReference (rt := sampleRuntime) tagLetterWords [0; 1; 2; 3] [] = "WEVJFV" ∧
  firstn 2 (MD5.Sum (flat_map glyphBytes [0; 1; 2; 3])) = [0xE9; 0x99].
Proof. repeat split; vm_compute; reflexivity. Qed.

(** ** The outline tree *)

Lemma Outline_nested_ind (P : Outline → Prop) :
  (∀ children title open dest num,
      Forall P children → P (mkOutline children title open dest num)) →
  ∀ o, P o.
Proof.
  intros H. fix rec 1. intros [children t o d n]. apply H.
  revert children. fix go 1. intros [|x r].
  - constructor.
  - constructor; [exact (rec x)|exact (go r)].
Qed.

Lemma outlineSize_eq o : outlineSize o = 1 + forestSize (Children o).
Proof.
  destruct o as [children t o d n]. cbn [Children].
  change (outlineSize (mkOutline children t o d n)) with
    (1 + (fix sum (l : list Outline) : Z :=
            match l with
            | [] => 0
            | x :: r => outlineSize x + sum r
            end) children).
  apply (f_equal (Z.add 1)).
  induction children as [|x r IH]; [reflexivity|].
  change (forestSize (x :: r)) with (outlineSize x + forestSize r). now rewrite <- IH.
Qed.

Lemma nodes_eq o : nodes o = o :: forestNodes (Children o).
Proof.
  destruct o as [children t o d n]. cbn [Children].
  change (nodes (mkOutline children t o d n)) with
    (mkOutline children t o d n ::
     (fix below (l : list Outline) : list Outline :=
        match l with
        | [] => []
        | x :: r => nodes x ++ below r
        end) children).
  apply (f_equal (cons _)).
  induction children as [|x r IH]; [reflexivity|].
  change (forestNodes (x :: r)) with (nodes x ++ forestNodes r). now rewrite <- IH.
Qed.

Lemma forestSize_cons o l : forestSize (o :: l) = outlineSize o + forestSize l.
Proof. reflexivity. Qed.

Lemma occursIn_app x s t : occursIn x s → occursIn x (s +:+ t).
Proof.
  intros (b & a & ->). exists b, (a +:+ t). now rewrite !sapp_assoc.
Qed.

Lemma occursIn_suffix x s : occursIn x (s +:+ x).
Proof. exists s, "". now rewrite sapp_nil_r. Qed.

(** [endObject] when the last byte written is not known to be a newline. *)
Lemma endObject_started pw :
  0 < pos pw → pos pw ≠ lastEOL pw →
  endObject pw = emit ("endobj" +:+ LF) (setLastEOL (pos pw + 1) (emit LF pw)).
Proof.
  intros Hp Hne. unfold endObject. rewrite (eol_newline pw Hp Hne).
  rewrite Println_started; [reflexivity|].
  cbn [pos emit setSink setLastEOL]. pose proof (lenZ_nonneg LF). lia.
Qed.

Lemma sinkOK_headIfEmpty pw : sinkOK pw → sinkOK (headIfEmpty pw) ∧ 0 < pos (headIfEmpty pw).
Proof.
  unfold sinkOK. intros H. rewrite lastEOL_headIfEmpty.
  pose proof (pos_headIfEmpty_ge pw). pose proof (pos_headIfEmpty pw). lia.
Qed.

Lemma outfile_headIfEmpty pw : ∃ s, outfile (headIfEmpty pw) = outfile pw +:+ s.
Proof.
  unfold headIfEmpty. destruct (pos pw =? 0).
  - eexists. unfold writePDFHead. apply outfile_emit.
  - exists "". now rewrite sapp_nil_r.
Qed.

Section PlainObject.
Context {rt : GoRuntime}.

(** [Save] of an object that has a dictionary and nothing else. *)
Lemma Save_plain a pw n d :
  store pw !! a = Some (setDictionary d (emptyObject n)) →
  (0 < length d)%nat →
  sinkOK pw →
  outfile (Save a pw) = outfile (headIfEmpty pw) +:+ objectText n d ∧
  store (Save a pw) = <[ a := setSaved (setDictionary d (emptyObject n)) ]> (store pw) ∧
  sinkOK (Save a pw).
Proof.
  intros Hlook Hd Hok.
  set (obj := setDictionary d (emptyObject n)) in *.
  assert (Hget : getObject a pw = obj) by (unfold getObject; now rewrite Hlook).
  unfold Save. rewrite Hget. cbv zeta.
  change (saved obj) with false. cbv iota.
  change (Raw (setSaved obj)) with false. cbv iota.
  change (prepareStream (setSaved obj)) with (setSaved obj).
  change (emitComment (setSaved obj)) with (fun p : PDF => p). cbv beta.
  change (ObjectNumber (setSaved obj)) with n.
  assert (Hbody : ∀ p, emitBody (setSaved obj) p = emit (hashToString d O) p).
  { intros p. unfold emitBody. change (Dictionary (setSaved obj)) with d.
    destruct (Z.ltb_spec 0 (Z.of_nat (length d))); [reflexivity|lia]. }
  rewrite Hbody.
  change (emitStream (setSaved obj)) with (fun p : PDF => (setSaved obj, p)). cbv beta iota.
  destruct (sinkOK_headIfEmpty pw Hok) as [Hok1 Hpos1].
  unfold sinkOK in *.
  set (hdr := LF +:+ fmt_d n +:+ " 0 obj" +:+ LF).
  set (body := hashToString d O).
  pose proof (lenZ_nonneg hdr) as Hh. pose proof (hashToString_nonempty d O) as Hb.
  fold body in Hb.
  unfold startObject. rewrite !headIfEmpty_putObject.
  rewrite Printf_started
    by (cbn [pos putObject setStore setObjectlocations]; exact Hpos1).
  fold hdr.
  rewrite endObject_started.
  - cbn [outfile store pos lastEOL emit setSink putObject setStore setObjectlocations setLastEOL].
    split; [|split].
    + unfold objectText. fold hdr body. subst hdr. now rewrite !sapp_assoc.
    + now rewrite !list_insert_insert_eq, store_headIfEmpty.
    + change (lenZ LF) with 1. change (lenZ ("endobj" +:+ LF)) with 7. lia.
  - cbn [pos emit setSink putObject setStore setObjectlocations]. lia.
  - cbn [pos lastEOL emit setSink putObject setStore setObjectlocations]. lia.
Qed.
End PlainObject.

Lemma mapGet_key {V} (m : list (string * V)) k v :
  mapGet m k = Some v → In k (mapKeys m).
Proof.
  induction m as [|[k' v'] t IH]; simpl; [discriminate|].
  destruct (String.eqb_spec k' k) as [->|Hne]; [now left|].
  intros H. right. now apply IH.
Qed.

Section OutlineFacts.
Context {rt : GoRuntime}.

(** An entry whose value is a ready-made text is written on a line of
    its own: the name, a space, the text. *)
Lemma hashToString_line (d : Dict) k s :
  mapGet d k = Some (VRaw s) →
  occursIn (" " +:+ NameString k +:+ " " +:+ s +:+ LF) (hashToString d O).
Proof.
  intros Hget. rewrite hashToString_loop. unfold dictText.
  assert (Hin : In k (Sort sortByNameLess (mapKeys d))).
  { apply (Permutation_in _ (Permutation_sym (Sort_perm sortByNameLess _))).
    now apply mapGet_key in Hget. }
  apply in_split in Hin as (l1 & l2 & ->).
  rewrite map_app, cat_app. cbn [map cat].
  unfold dictIndex at 2. rewrite Hget. cbn [serializeLevel].
  change (Repeat " " (0 + 1)) with " ".
  match goal with
  | |- occursIn _ (_ +:+ _ +:+ (cat ?m1 +:+ _ +:+ cat ?m2) +:+ ?e) =>
      exists ("<<" +:+ LF +:+ cat m1), (cat m2 +:+ e)
  end.
  now rewrite !sapp_assoc.
Qed.

Lemma emitted_app node s t : emitted node s → emitted node (s +:+ t).
Proof.
  intros (n & d & Ho & Hrest). exists n, d. split; [now apply occursIn_app|exact Hrest].
Qed.

Lemma assignNumbers_frame outlines pw :
  length (fst (assignNumbers outlines pw)) = length outlines ∧
  store (snd (assignNumbers outlines pw)) = store pw ∧
  outfile (snd (assignNumbers outlines pw)) = outfile pw ∧
  pos (snd (assignNumbers outlines pw)) = pos pw ∧
  lastEOL (snd (assignNumbers outlines pw)) = lastEOL pw.
Proof.
  revert pw. induction outlines as [|o rest IH]; intros pw; [now repeat split|].
  cbn [assignNumbers NextObject].
  specialize (IH (setNextobject (nextobject pw + 1) pw)).
  destruct (assignNumbers rest (setNextobject (nextobject pw + 1) pw)) as [ns pw1].
  cbn [fst snd length] in *. destruct IH as (H1 & H2 & H3 & H4 & H5).
  now rewrite H1, H2, H3, H4, H5.
Qed.

Lemma outlineLoop_ok item outlines :
  Forall (itemOK item) outlines →
  ∀ nums prev first last c pw,
    length nums = length outlines → sinkOK pw →
    let r := outlineLoop item outlines nums prev (first, last, c) pw in
    snd (fst r) = c + forestSize outlines ∧
    sinkOK (snd r) ∧
    (∃ s, outfile (snd r) = outfile pw +:+ s) ∧
    (∃ ext, store (snd r) = store pw ++ ext) ∧
    (∀ node, In node (forestNodes outlines) → Children node ≠ [] →
             emitted node (outfile (snd r))).
Proof.
  induction 1 as [|o rest Ho Hrest IH]; intros nums prev first last c pw Hlen Hok.
  - cbn [outlineLoop fst snd forestSize fold_right forestNodes flat_map].
    split; [lia|]. split; [exact Hok|].
    split; [exists ""; now rewrite sapp_nil_r|].
    split; [exists []; now rewrite app_nil_r|].
    intros node [].
  - destruct nums as [|n nums']; [discriminate|].
    cbn [outlineLoop].
    specialize (Ho n (head nums') prev c pw Hok).
    destruct (item n (head nums') prev c o pw) as [c1 pw1].
    cbn [fst snd] in Ho. destruct Ho as (Hc1 & Hok1 & (s1 & Hout1) & (e1 & Hst1) & Hem1).
    injection Hlen as Hlen.
    specialize (IH nums' (Some n)
                   (match prev with None => n | Some _ => first end)
                   (match nums' with [] => n | _ :: _ => last end)
                   c1 pw1 Hlen Hok1).
    cbv zeta in IH.
    destruct IH as (Hc & Hok2 & (s2 & Hout2) & (e2 & Hst2) & Hem2).
    split; [rewrite Hc, Hc1, forestSize_cons; lia|].
    split; [exact Hok2|].
    split; [exists (s1 +:+ s2); now rewrite Hout2, Hout1, sapp_assoc|].
    split; [exists (e1 ++ e2); now rewrite Hst2, Hst1, <- app_assoc|].
    intros node Hin Hch. cbn [forestNodes flat_map] in Hin.
    apply in_app_or in Hin as [Hin|Hin].
    + rewrite Hout2. apply emitted_app. now apply Hem1.
    + now apply Hem2.
Qed.

Lemma writeOutlineWith_ok item parent outlines pw :
  Forall (itemOK (item parent)) outlines → sinkOK pw →
  let r := writeOutlineWith item parent outlines pw in
  snd (fst r) = forestSize outlines ∧
  sinkOK (snd r) ∧
  (∃ s, outfile (snd r) = outfile pw +:+ s) ∧
  (∃ ext, store (snd r) = store pw ++ ext) ∧
  (∀ node, In node (forestNodes outlines) → Children node ≠ [] →
           emitted node (outfile (snd r))).
Proof.
  intros Hall Hok. unfold writeOutlineWith.
  destruct (assignNumbers_frame outlines pw) as (Hlen & Hst & Hout & Hpos & Heol).
  destruct (assignNumbers outlines pw) as [nums pw0]. cbn [fst snd] in *.
  assert (Hok0 : sinkOK pw0) by (unfold sinkOK in *; rewrite Hpos, Heol; exact Hok).
  pose proof (outlineLoop_ok (item parent) outlines Hall nums None 0 0 0 pw0 Hlen Hok0) as H.
  cbv zeta in H. rewrite Hst, Hout in H. exact H.
Qed.

Lemma outlineBaseDict_entries parent next prev o :
  mapGet (outlineBaseDict parent next prev o) "Title" = Some (VRaw (stringToPDF (Title o))) ∧
  mapGet (outlineBaseDict parent next prev o) "Dest" = Some (VRaw (Dest o)) ∧
  (0 < length (outlineBaseDict parent next prev o))%nat.
Proof.
  unfold outlineBaseDict.
  destruct next, prev; repeat split;
    rewrite ?mapGet_mapSet_ne by discriminate;
    rewrite ?mapGet_mapSet_eq; try reflexivity; apply mapSet_nonempty.
Qed.

Lemma outlineChildEntries_entries first last count open d :
  mapGet (outlineChildEntries first last count open d) "Title" = mapGet d "Title" ∧
  mapGet (outlineChildEntries first last count open d) "Dest" = mapGet d "Dest" ∧
  mapGet (outlineChildEntries first last count open d) "Count" =
    Some (VRaw (if open then fmt_d count else "-1")) ∧
  (0 < length (outlineChildEntries first last count open d))%nat.
Proof.
  unfold outlineChildEntries.
  destruct open; repeat split;
    rewrite ?mapGet_mapSet_ne by discriminate;
    rewrite ?mapGet_mapSet_eq; try reflexivity; apply mapSet_nonempty.
Qed.

(** The body of the loop of [writeOutline], unfolded once. *)
Lemma writeOutlineItem_eq parent n next prev c outline pw :
  writeOutlineItem parent n next prev c outline pw =
  let '(outlineObj, pw) := NewObjectWithNumber n pw in
  let outlineDict := outlineBaseDict parent next prev outline in
  let '(outlineDict, c, pw) :=
    match Children outline with
    | [] => (outlineDict, c + 1, pw)
    | _ :: _ =>
        let '(cldFirst, cldLast, count, pw) :=
          writeOutlineWith writeOutlineItem n (Children outline) pw in
        (outlineChildEntries cldFirst cldLast count (Open outline) outlineDict,
         c + 1 + count, pw)
    end in
  (c, Save outlineObj (ObjectDict outlineObj outlineDict pw)).
Proof. destruct outline as [[|x r] t o d num]; reflexivity. Qed.

(** The end of the body of the loop: the dictionary is given to the
    object allocated at the start of the body, and the object is saved. *)
Lemma saveItem_ok (st ext : list Object) (n : Z) (d : Dict) (pw : PDF) :
  store pw = (st ++ [emptyObject n]) ++ ext →
  (0 < length d)%nat →
  sinkOK pw →
  let pw' := Save (length st) (ObjectDict (length st) d pw) in
  (∃ s, outfile pw' = outfile pw +:+ s +:+ objectText n d) ∧
  store pw' = (st ++ [setSaved (setDictionary d (emptyObject n))]) ++ ext ∧
  sinkOK pw'.
Proof.
  intros Hst Hd Hok. cbv zeta.
  set (a := length st).
  assert (Hlook : store pw !! a = Some (emptyObject n)).
  { rewrite Hst, <- app_assoc. now apply list_lookup_middle. }
  assert (Hget : getObject a pw = emptyObject n) by (unfold getObject; now rewrite Hlook).
  unfold ObjectDict, updObject. rewrite Hget.
  set (obj := setDictionary d (emptyObject n)).
  assert (Hlt : (a < length (store pw))%nat).
  { rewrite Hst, !length_app. cbn [length]. unfold a. lia. }
  destruct (Save_plain a (putObject a obj pw) n d) as (Hout & Hstore & Hok').
  - rewrite store_putObject. now apply list_lookup_insert_eq.
  - exact Hd.
  - exact Hok.
  - split; [|split].
    + rewrite Hout, headIfEmpty_putObject, outfile_putObject.
      destruct (outfile_headIfEmpty pw) as [s ->]. exists s. now rewrite !sapp_assoc.
    + rewrite Hstore, store_putObject, list_insert_insert_eq, Hst.
      rewrite <- !app_assoc. rewrite insert_app_r_alt by (unfold a; lia).
      unfold a. now rewrite Nat.sub_diag.
    + exact Hok'.
Qed.

(** The invariant of the body of the loop, for every item. *)
Lemma writeOutlineItem_ok (o : Outline) : ∀ parent, itemOK (writeOutlineItem parent) o.
Proof.
  induction o as [children title open dest num IH] using Outline_nested_ind.
  intros parent n next prev c pw Hok. cbv zeta.
  set (o := mkOutline children title open dest num).
  rewrite writeOutlineItem_eq.
  unfold NewObjectWithNumber, alloc.
  set (pw1 := setStore (store pw ++ [emptyObject n]) pw).
  assert (Hok1 : sinkOK pw1) by exact Hok.
  set (base := outlineBaseDict parent next prev o).
  destruct (outlineBaseDict_entries parent next prev o) as (Htitle & Hdest & Hlen).
  fold base in Htitle, Hdest, Hlen.
  rewrite (outlineSize_eq o), (nodes_eq o).
  change (Children o) with children. change (Open o) with open.
  destruct children as [|x r].
  - destruct (saveItem_ok (store pw) [] n base pw1) as ((s & Hout) & Hst & Hok2);
      [now rewrite app_nil_r|exact Hlen|exact Hok1|].
    cbn [fst snd forestSize fold_right forestNodes flat_map].
    split; [lia|]. split; [exact Hok2|].
    split; [eexists; exact Hout|].
    split; [eexists; rewrite Hst, app_nil_r; reflexivity|].
    intros node [<-|[]] Hch. now contradiction Hch.
  - assert (Hall : Forall (itemOK (writeOutlineItem n)) (x :: r)).
    { eapply Forall_impl; [exact IH|]. intros y Hy. exact (Hy n). }
    pose proof (writeOutlineWith_ok writeOutlineItem n (x :: r) pw1 Hall Hok1) as Hw.
    cbv zeta in Hw.
    destruct (writeOutlineWith writeOutlineItem n (x :: r) pw1)
      as [[[cldFirst cldLast] count] pw2].
    cbn [fst snd] in Hw.
    destruct Hw as (Hcount & Hok2 & (s2 & Hout2) & (e2 & Hst2) & Hem2).
    set (d := outlineChildEntries cldFirst cldLast count open base).
    destruct (outlineChildEntries_entries cldFirst cldLast count open base)
      as (Ht & Hd & Hc & Hl).
    fold d in Ht, Hd, Hc, Hl.
    destruct (saveItem_ok (store pw) e2 n d pw2) as ((s & Hout) & Hst & Hok3);
      [exact Hst2|exact Hl|exact Hok2|].
    cbn [fst snd].
    split; [rewrite Hcount; lia|]. split; [exact Hok3|].
    split; [eexists; rewrite Hout, Hout2, !sapp_assoc; reflexivity|].
    split; [eexists; rewrite Hst, <- app_assoc; reflexivity|].
    intros node [<-|Hin] Hch.
    + exists n, d. split; [|split; [|split; [|split]]].
      * rewrite Hout, <- sapp_assoc. apply occursIn_suffix.
      * now rewrite Ht.
      * now rewrite Hd.
      * rewrite Hc. unfold writtenCount. change (Open o) with open.
        change (Children o) with (x :: r). now rewrite Hcount.
      * apply (hashToString_line d "Count").
        rewrite Hc. unfold writtenCount. change (Open o) with open.
        change (Children o) with (x :: r). now rewrite Hcount.
    + rewrite Hout. rewrite <- sapp_assoc. do 2 apply emitted_app. now apply Hem2.
Qed.

(** C9, amended: [writeOutline] returns the number of items of the
    forest it wrote, and for every item of the forest that has children,
    at any depth, the output holds the object of the item, whose
    dictionary has the entry [Count] on a line of its own; its value is
    the number of all items below the item when the item is open, and
    [-1] when it is collapsed. *)
Theorem writeOutline_Count (parent : Z) (outlines : list Outline) (pw : PDF)
    (node : Outline) :
  sinkOK pw →
  In node (forestNodes outlines) →
  Children node ≠ [] →
  snd (fst (writeOutline parent outlines pw)) = forestSize outlines ∧
  ∃ n d,
    occursIn (objectText n d) (outfile (snd (writeOutline parent outlines pw))) ∧
    mapGet d "Title" = Some (VRaw (stringToPDF (Title node))) ∧
    mapGet d "Dest" = Some (VRaw (Dest node)) ∧
    mapGet d "Count" =
      Some (VRaw (if Open node then fmt_d (forestSize (Children node)) else "-1")) ∧
    occursIn (countLine (if Open node then fmt_d (forestSize (Children node)) else "-1"))
             (hashToString d O).
Proof.
  intros Hok Hin Hch. unfold writeOutline.
  assert (Hall : Forall (itemOK (writeOutlineItem parent)) outlines).
  { apply Forall_forall. intros o _. apply writeOutlineItem_ok. }
  destruct (writeOutlineWith_ok writeOutlineItem parent outlines pw Hall Hok)
    as (Hc & _ & _ & _ & Hem).
  split; [exact Hc|]. exact (Hem node Hin Hch).
Qed.

End OutlineFacts.

Lemma writeOutline_Count_witness :
  sinkOK outlineWriter ∧
  In collapsedPair (forestNodes [openOverCollapsed]) ∧
  ∃ n d,
    occursIn (objectText (rt := sampleRuntime) n d)
      (outfile (snd (writeOutline (rt := sampleRuntime) 1 [openOverCollapsed] outlineWriter))) ∧
    mapGet d "Count" = Some (VRaw "-1") ∧
    occursIn (countLine "-1") (hashToString (rt := sampleRuntime) d O).
Proof.
  assert (Hok : sinkOK outlineWriter).
  { split; apply Z.leb_le; vm_compute; reflexivity. }
  assert (Hin : In collapsedPair (forestNodes [openOverCollapsed])).
  { right. left. reflexivity. }
  assert (Hch : Children collapsedPair ≠ []) by discriminate.
  split; [exact Hok|]. split; [exact Hin|].
  destruct (writeOutline_Count (rt := sampleRuntime) 1 [openOverCollapsed] outlineWriter
              collapsedPair Hok Hin Hch) as (_ & n & d & Hobj & _ & _ & Hc & Hline).
  exists n, d. split; [exact Hobj|]. split; [exact Hc|exact Hline].
Defined.

(** C9 as stated fails: a collapsed item with two children, neither with
    children of its own, has two descendants to show, so its [Count] would
    be -2, and the open item above it shows one item, so its [Count] would
    be 1; [writeOutline] writes [-1] for the first and [3] for the
    second. *)
Lemma writeOutline_Count_not_visible :
  specifiedCount collapsedPair = -2 ∧
  specifiedCount openOverCollapsed = 1 ∧
  outfile (snd (writeOutline (rt := sampleRuntime) 1 [openOverCollapsed] outlineWriter)) =
  outfile outlineWriter +:+
  textLines
    [ "";
      "4 0 obj"; "<<"; " /Dest [4 0 R /Fit]"; " /Next 5 0 R"; " /Parent 3 0 R";
      " /Title (a)"; ">>"; "endobj"; "";
      "5 0 obj"; "<<"; " /Dest [4 0 R /Fit]"; " /Parent 3 0 R"; " /Prev 4 0 R";
      " /Title (b)"; ">>"; "endobj"; "";
      "3 0 obj"; "<<"; " /Count -1"; " /Dest [4 0 R /Fit]"; " /First 4 0 R";
      " /Last 5 0 R"; " /Parent 2 0 R"; " /Title (C)"; ">>"; "endobj"; "";
      "2 0 obj"; "<<"; " /Count 3"; " /Dest [4 0 R /Fit]"; " /First 3 0 R";
      " /Last 3 0 R"; " /Parent 1 0 R"; " /Title (O)"; ">>"; "endobj" ].
Proof. repeat split; vm_compute; reflexivity. Qed.

(** ** Page boxes *)

(** Comparison of floating-point numbers (IEEE 754, binary64). *)
Lemma SFcompare_antisym x y :
  SpecFloat.SFcompare y x = option_map CompOpp (SpecFloat.SFcompare x y).
Proof.
  destruct x as [sx|sx| |sx mx ex], y as [sy|sy| |sy my ey];
    try destruct sx; try destruct sy; try reflexivity;
    cbn [SpecFloat.SFcompare option_map]; f_equal;
    rewrite (Z.compare_antisym ex ey);
    destruct (ex ?= ey) eqn:E; cbn [CompOpp]; try reflexivity;
    change (Pos.compare_cont Eq my mx) with (Pos.compare my mx);
    change (Pos.compare_cont Eq mx my) with (Pos.compare mx my);
    rewrite (Pos.compare_antisym mx my); now destruct (Pos.compare mx my).
Qed.

Lemma SFcompare_refl x : x ≠ SpecFloat.S754_nan → SpecFloat.SFcompare x x = Some Eq.
Proof.
  destruct x as [s|s| |s m e]; intros Hx; try congruence.
  - reflexivity.
  - now destruct s.
  - cbn [SpecFloat.SFcompare]. rewrite Z.compare_refl.
    change (Pos.compare_cont Eq m m) with (Pos.compare m m).
    rewrite Pos.compare_refl. now destruct s.
Qed.

Lemma is_nan_false x : PrimFloat.is_nan x = false → Prim2SF x ≠ SpecFloat.S754_nan.
Proof.
  unfold PrimFloat.is_nan. rewrite FloatAxioms.eqb_spec. unfold SpecFloat.SFeqb.
  intros H E. rewrite E in H. discriminate.
Qed.

Lemma float_ltb_irrefl x : PrimFloat.ltb x x = false.
Proof.
  rewrite FloatAxioms.ltb_spec. unfold SpecFloat.SFltb.
  pose proof (SFcompare_antisym (Prim2SF x) (Prim2SF x)) as H.
  destruct (SpecFloat.SFcompare (Prim2SF x) (Prim2SF x)) as [[| |]|]; try reflexivity.
  discriminate.
Qed.

Lemma float_leb_refl x : PrimFloat.is_nan x = false → PrimFloat.leb x x = true.
Proof.
  intros H. rewrite FloatAxioms.leb_spec. unfold SpecFloat.SFleb.
  now rewrite (SFcompare_refl _ (is_nan_false x H)).
Qed.

Lemma float_not_ltb_leb x y :
  PrimFloat.is_nan x = false → PrimFloat.is_nan y = false →
  PrimFloat.ltb x y = false → PrimFloat.leb y x = true.
Proof.
  intros Hx%is_nan_false Hy%is_nan_false. rewrite FloatAxioms.ltb_spec, FloatAxioms.leb_spec.
  unfold SpecFloat.SFltb, SpecFloat.SFleb. rewrite (SFcompare_antisym (Prim2SF x) (Prim2SF y)).
  destruct (Prim2SF x) as [sx|sx| |sx mx ex], (Prim2SF y) as [sy|sy| |sy my ey];
    try congruence;
    match goal with
    | |- context [SpecFloat.SFcompare ?a ?b] =>
        destruct (SpecFloat.SFcompare a b) as [[| |]|] eqn:E
    end; cbn [option_map CompOpp]; try congruence; discriminate E.
Qed.

Lemma boxGet_insert_eq (b : Box) k v : boxGet (<[ k := v ]> b) k = v.
Proof. unfold boxGet. now rewrite lookup_insert_eq. Qed.

Lemma boxGet_insert_ne (b : Box) k k' v : k ≠ k' → boxGet (<[ k := v ]> b) k' = boxGet b k'.
Proof. intros H. unfold boxGet. now rewrite lookup_insert_ne. Qed.

Lemma boxEmpty_insert (b : Box) k v : boxEmpty (<[ k := v ]> b) = false.
Proof. unfold boxEmpty. apply bool_decide_eq_false. apply insert_non_empty. Qed.

Lemma boxGet_cond_eq (c : bool) (b : Box) k v :
  boxGet (if c then <[ k := v ]> b else b) k = if c then v else boxGet b k.
Proof. destruct c; [apply boxGet_insert_eq|reflexivity]. Qed.

Lemma boxGet_cond_ne (c : bool) (b : Box) k k' v :
  k ≠ k' → boxGet (if c then <[ k := v ]> b else b) k' = boxGet b k'.
Proof. intros H. destruct c; [now apply boxGet_insert_ne|reflexivity]. Qed.

(** The edges and the size of the box that [intersectBox] returns. *)
Lemma intersectBox_edges (bx mediabox : Box) :
  let out := intersectBox bx mediabox in
  let clampLow k := if PrimFloat.ltb (boxGet bx k) (boxGet mediabox k)
                    then boxGet mediabox k else boxGet bx k in
  let clampHigh k := if PrimFloat.ltb (boxGet mediabox k) (boxGet bx k)
                     then boxGet mediabox k else boxGet bx k in
  boxGet out "llx" = clampLow "llx" ∧
  boxGet out "lly" = clampLow "lly" ∧
  boxGet out "urx" = clampHigh "urx" ∧
  boxGet out "ury" = clampHigh "ury" ∧
  boxGet out "x" = boxGet out "llx" ∧
  boxGet out "y" = boxGet out "lly" ∧
  boxGet out "w" = PrimFloat.sub (boxGet out "urx") (boxGet out "llx") ∧
  boxGet out "h" = PrimFloat.sub (boxGet out "ury") (boxGet out "lly").
Proof.
  cbv zeta. unfold intersectBox. cbv zeta.
  set (b1 := if PrimFloat.ltb (boxGet bx "lly") (boxGet mediabox "lly")
             then <[ "lly" := boxGet mediabox "lly" ]> bx else bx).
  set (b2 := if PrimFloat.ltb (boxGet bx "llx") (boxGet mediabox "llx")
             then <[ "llx" := boxGet mediabox "llx" ]> b1 else b1).
  set (b3 := if PrimFloat.ltb (boxGet mediabox "ury") (boxGet bx "ury")
             then <[ "ury" := boxGet mediabox "ury" ]> b2 else b2).
  set (b4 := if PrimFloat.ltb (boxGet mediabox "urx") (boxGet bx "urx")
             then <[ "urx" := boxGet mediabox "urx" ]> b3 else b3).
  assert (Hllx : boxGet b4 "llx" =
                 if PrimFloat.ltb (boxGet bx "llx") (boxGet mediabox "llx")
                 then boxGet mediabox "llx" else boxGet bx "llx").
  { unfold b4, b3. rewrite !boxGet_cond_ne by discriminate.
    unfold b2. rewrite boxGet_cond_eq.
    unfold b1. now rewrite boxGet_cond_ne by discriminate. }
  assert (Hlly : boxGet b4 "lly" =
                 if PrimFloat.ltb (boxGet bx "lly") (boxGet mediabox "lly")
                 then boxGet mediabox "lly" else boxGet bx "lly").
  { unfold b4, b3, b2. rewrite !boxGet_cond_ne by discriminate.
    unfold b1. now rewrite boxGet_cond_eq. }
  assert (Hurx : boxGet b4 "urx" =
                 if PrimFloat.ltb (boxGet mediabox "urx") (boxGet bx "urx")
                 then boxGet mediabox "urx" else boxGet bx "urx").
  { unfold b4. rewrite boxGet_cond_eq.
    unfold b3, b2, b1. now rewrite !boxGet_cond_ne by discriminate. }
  assert (Hury : boxGet b4 "ury" =
                 if PrimFloat.ltb (boxGet mediabox "ury") (boxGet bx "ury")
                 then boxGet mediabox "ury" else boxGet bx "ury").
  { unfold b4. rewrite boxGet_cond_ne by discriminate.
    unfold b3. rewrite boxGet_cond_eq.
    unfold b2, b1. now rewrite !boxGet_cond_ne by discriminate. }
  clearbody b4.
  set (b5 := <[ "x" := boxGet b4 "llx" ]> b4).
  assert (H5 : ∀ k, k ≠ "x" → boxGet b5 k = boxGet b4 k).
  { intros k Hk. unfold b5. now rewrite boxGet_insert_ne by congruence. }
  assert (H5x : boxGet b5 "x" = boxGet b4 "llx") by apply boxGet_insert_eq.
  clearbody b5.
  set (b6 := <[ "y" := boxGet b5 "lly" ]> b5).
  assert (H6 : ∀ k, k ≠ "y" → boxGet b6 k = boxGet b5 k).
  { intros k Hk. unfold b6. now rewrite boxGet_insert_ne by congruence. }
  assert (H6y : boxGet b6 "y" = boxGet b5 "lly") by apply boxGet_insert_eq.
  clearbody b6.
  set (b7 := <[ "w" := PrimFloat.sub (boxGet b6 "urx") (boxGet b6 "llx") ]> b6).
  assert (H7 : ∀ k, k ≠ "w" → boxGet b7 k = boxGet b6 k).
  { intros k Hk. unfold b7. now rewrite boxGet_insert_ne by congruence. }
  assert (H7w : boxGet b7 "w" = PrimFloat.sub (boxGet b6 "urx") (boxGet b6 "llx"))
    by apply boxGet_insert_eq.
  clearbody b7.
  set (b8 := <[ "h" := PrimFloat.sub (boxGet b7 "ury") (boxGet b7 "lly") ]> b7).
  assert (H8 : ∀ k, k ≠ "h" → boxGet b8 k = boxGet b7 k).
  { intros k Hk. unfold b8. now rewrite boxGet_insert_ne by congruence. }
  assert (H8h : boxGet b8 "h" = PrimFloat.sub (boxGet b7 "ury") (boxGet b7 "lly"))
    by apply boxGet_insert_eq.
  clearbody b8.
  assert (E : ∀ k, k ≠ "x" → k ≠ "y" → k ≠ "w" → k ≠ "h" → boxGet b8 k = boxGet b4 k).
  { intros k Hx Hy Hw Hh. now rewrite H8, H7, H6, H5. }
  rewrite !E by discriminate.
  rewrite (H8 "x"), (H7 "x"), (H6 "x"), H5x by discriminate.
  rewrite (H8 "y"), (H7 "y"), H6y, (H5 "lly") by discriminate.
  rewrite (H8 "w"), H7w, (H6 "urx"), (H5 "urx"), (H6 "llx"), (H5 "llx") by discriminate.
  rewrite H8h, (H7 "ury"), (H6 "ury"), (H5 "ury"), (H7 "lly"), (H6 "lly"), (H5 "lly")
    by discriminate.
  rewrite <- Hllx, <- Hlly, <- Hurx, <- Hury.
  repeat split.
Qed.

(** The box that [pick] returns for one of the five names is the resolved
    box, and it is not empty. *)
Lemma pick_resolved (pg : gmap string Box) (boxName : string) :
  boxEmpty (pageBox pg "/MediaBox") = false →
  In boxName boxNames →
  pick pg (pageBox pg "/MediaBox") boxName = resolvedBox pg boxName ∧
  boxEmpty (resolvedBox pg boxName) = false.
Proof.
  intros Hmb Hin. unfold pick, resolvedBox. cbv zeta.
  destruct (boxEmpty (pageBox pg boxName)) eqn:Eown; cbn [negb];
    [|split; [reflexivity|exact Eown]].
  destruct Hin as [<-|[<-|[<-|[<-|[<-|[]]]]]]; cbn [String.eqb Ascii.eqb Bool.eqb orb];
    try congruence;
    try (split; [reflexivity|exact Hmb]);
    destruct (boxEmpty (pageBox pg "/CropBox")) eqn:Ecb; cbn [negb];
    split; try reflexivity; assumption.
Qed.

(** C7: for a page with a [/MediaBox] and one of the five box names,
    [GetPDFBoxDimensions] returns a box [out] computed from the resolved
    box [src] (the box of that name, with the fallbacks [/CropBox] to
    [/MediaBox] and [/ArtBox], [/BleedBox], [/TrimBox] to [/CropBox] to
    [/MediaBox]).  Each edge of [out] is the edge of [src], or the edge of
    the [/MediaBox] where [src] lies outside of it; no edge of [out] is
    outside the [/MediaBox]; [w = urx - llx] and [h = ury - lly].  When
    the coordinates are numbers, [llx] and [lly] of [out] are at least
    those of the [/MediaBox], and [urx] and [ury] at most. *)
Theorem GetPDFBoxDimensions_clamped (imgf : Imagefile) (p : Z) (boxName : string)
    (pg : gmap string Box) :
  PageSizes imgf !! p = Some pg →
  boxEmpty (pageBox pg "/MediaBox") = false →
  In boxName boxNames →
  let mb := pageBox pg "/MediaBox" in
  let src := resolvedBox pg boxName in
  ∃ out,
    GetPDFBoxDimensions imgf p boxName = inr out ∧
    boxGet out "llx" =
      (if PrimFloat.ltb (boxGet src "llx") (boxGet mb "llx")
       then boxGet mb "llx" else boxGet src "llx") ∧
    boxGet out "lly" =
      (if PrimFloat.ltb (boxGet src "lly") (boxGet mb "lly")
       then boxGet mb "lly" else boxGet src "lly") ∧
    boxGet out "urx" =
      (if PrimFloat.ltb (boxGet mb "urx") (boxGet src "urx")
       then boxGet mb "urx" else boxGet src "urx") ∧
    boxGet out "ury" =
      (if PrimFloat.ltb (boxGet mb "ury") (boxGet src "ury")
       then boxGet mb "ury" else boxGet src "ury") ∧
    PrimFloat.ltb (boxGet out "llx") (boxGet mb "llx") = false ∧
    PrimFloat.ltb (boxGet out "lly") (boxGet mb "lly") = false ∧
    PrimFloat.ltb (boxGet mb "urx") (boxGet out "urx") = false ∧
    PrimFloat.ltb (boxGet mb "ury") (boxGet out "ury") = false ∧
    boxGet out "w" = PrimFloat.sub (boxGet out "urx") (boxGet out "llx") ∧
    boxGet out "h" = PrimFloat.sub (boxGet out "ury") (boxGet out "lly") ∧
    (edgesAreNumbers src → edgesAreNumbers mb →
     PrimFloat.leb (boxGet mb "llx") (boxGet out "llx") = true ∧
     PrimFloat.leb (boxGet mb "lly") (boxGet out "lly") = true ∧
     PrimFloat.leb (boxGet out "urx") (boxGet mb "urx") = true ∧
     PrimFloat.leb (boxGet out "ury") (boxGet mb "ury") = true).
Proof.
  intros Hpg Hmb Hin mb src.
  destruct (pick_resolved pg boxName Hmb Hin) as [Hpick Hsrc].
  fold mb in Hpick, Hmb. fold src in Hpick, Hsrc.
  assert (Hres : GetPDFBoxDimensions imgf p boxName = inr (intersectBox src mb)).
  { unfold GetPDFBoxDimensions. rewrite Hpg. cbv zeta. fold mb.
    rewrite Hmb, Hpick, Hsrc.
    destruct (String.eqb_spec boxName "/MediaBox") as [->|Hne]; [|reflexivity].
    do 2 f_equal. unfold src, resolvedBox. cbv zeta. fold mb. now rewrite Hmb. }
  exists (intersectBox src mb). split; [exact Hres|].
  destruct (intersectBox_edges src mb) as (Hllx & Hlly & Hurx & Hury & _ & _ & Hw & Hh).
  cbv zeta in Hllx, Hlly, Hurx, Hury, Hw, Hh.
  split; [exact Hllx|]. split; [exact Hlly|]. split; [exact Hurx|]. split; [exact Hury|].
  split; [|split; [|split; [|split; [|split; [exact Hw|split; [exact Hh|]]]]]].
  - rewrite Hllx.
    destruct (PrimFloat.ltb (boxGet src "llx") (boxGet mb "llx")) eqn:E;
      [apply float_ltb_irrefl|exact E].
  - rewrite Hlly.
    destruct (PrimFloat.ltb (boxGet src "lly") (boxGet mb "lly")) eqn:E;
      [apply float_ltb_irrefl|exact E].
  - rewrite Hurx.
    destruct (PrimFloat.ltb (boxGet mb "urx") (boxGet src "urx")) eqn:E;
      [apply float_ltb_irrefl|exact E].
  - rewrite Hury.
    destruct (PrimFloat.ltb (boxGet mb "ury") (boxGet src "ury")) eqn:E;
      [apply float_ltb_irrefl|exact E].
  - intros Hs Hm.
    assert (Hs1 := Hs "llx" ltac:(cbn; tauto)). assert (Hs2 := Hs "lly" ltac:(cbn; tauto)).
    assert (Hs3 := Hs "urx" ltac:(cbn; tauto)). assert (Hs4 := Hs "ury" ltac:(cbn; tauto)).
    assert (Hm1 := Hm "llx" ltac:(cbn; tauto)). assert (Hm2 := Hm "lly" ltac:(cbn; tauto)).
    assert (Hm3 := Hm "urx" ltac:(cbn; tauto)). assert (Hm4 := Hm "ury" ltac:(cbn; tauto)).
    rewrite Hllx, Hlly, Hurx, Hury.
    split; [|split; [|split]].
    + destruct (PrimFloat.ltb (boxGet src "llx") (boxGet mb "llx")) eqn:E;
        [now apply float_leb_refl|now apply float_not_ltb_leb].
    + destruct (PrimFloat.ltb (boxGet src "lly") (boxGet mb "lly")) eqn:E;
        [now apply float_leb_refl|now apply float_not_ltb_leb].
    + destruct (PrimFloat.ltb (boxGet mb "urx") (boxGet src "urx")) eqn:E;
        [now apply float_leb_refl|now apply float_not_ltb_leb].
    + destruct (PrimFloat.ltb (boxGet mb "ury") (boxGet src "ury")) eqn:E;
        [now apply float_leb_refl|now apply float_not_ltb_leb].
Qed.

(** The example of the specification: a [/CropBox] of [-10 5 210 120] on
    a page whose [/MediaBox] is [0 0 200 100]. *)
Lemma GetPDFBoxDimensions_clamped_witness :
  ∃ out,
    GetPDFBoxDimensions croppedImage 1 "/CropBox" = inr out ∧
    boxGet out "llx" = 0%float ∧ boxGet out "lly" = 5%float ∧
    boxGet out "urx" = 200%float ∧ boxGet out "ury" = 100%float ∧
    boxGet out "w" = 200%float ∧ boxGet out "h" = 95%float ∧
    PrimFloat.leb 0 (boxGet out "llx") = true ∧
    PrimFloat.leb (boxGet out "urx") 200 = true.
Proof.
  set (pg := ({[ "/MediaBox" := cornerBox 0 0 200 100;
                 "/CropBox" := cornerBox (-10) 5 210 120 ]} : gmap string Box)).
  assert (Hpg : PageSizes croppedImage !! 1 = Some pg) by (vm_compute; reflexivity).
  assert (Hmb : boxEmpty (pageBox pg "/MediaBox") = false) by (vm_compute; reflexivity).
  assert (Hin : In "/CropBox" boxNames) by (right; left; reflexivity).
  destruct (GetPDFBoxDimensions_clamped croppedImage 1 "/CropBox" pg Hpg Hmb Hin)
    as (out & Hout & Hllx & Hlly & Hurx & Hury & _ & _ & _ & _ & Hw & Hh & _).
  exists out. split; [exact Hout|].
  assert (E1 : boxGet out "llx" = 0%float) by (rewrite Hllx; vm_compute; reflexivity).
  assert (E2 : boxGet out "lly" = 5%float) by (rewrite Hlly; vm_compute; reflexivity).
  assert (E3 : boxGet out "urx" = 200%float) by (rewrite Hurx; vm_compute; reflexivity).
  assert (E4 : boxGet out "ury" = 100%float) by (rewrite Hury; vm_compute; reflexivity).
  rewrite Hw, Hh, E1, E2, E3, E4.
  repeat split; vm_compute; reflexivity.
Defined.

(** ** The sink: size, header and end of line *)

Lemma sized_emit s pw : sized pw → sized (emit s pw).
Proof. unfold sized. intros H. rewrite pos_emit, outfile_emit, lenZ_app. lia. Qed.

Lemma sized_headIfEmpty pw : sized pw → sized (headIfEmpty pw).
Proof.
  intros H. unfold headIfEmpty. destruct (pos pw =? 0); [|exact H].
  unfold writePDFHead. now apply sized_emit.
Qed.

Lemma sized_Print s pw : sized pw → sized (Print s pw).
Proof. intros H. unfold Print. now apply sized_emit, sized_headIfEmpty. Qed.

Lemma sized_Println s pw : sized pw → sized (Println s pw).
Proof. intros H. unfold Println. now apply sized_emit, sized_headIfEmpty. Qed.

Lemma sized_Printf s pw : sized pw → sized (Printf s pw).
Proof. intros H. unfold Printf. now apply sized_emit, sized_headIfEmpty. Qed.

Lemma sized_putObject a o pw : sized pw → sized (putObject a o pw).
Proof. intros H. exact H. Qed.

Lemma sized_eol pw : sized pw → sized (eol pw).
Proof.
  intros H. unfold eol. cbv zeta.
  destruct (pos (headIfEmpty pw) =? lastEOL (headIfEmpty pw)).
  - now apply sized_headIfEmpty.
  - apply (sized_Println "" (headIfEmpty pw)). now apply sized_headIfEmpty.
Qed.

Lemma sized_endObject pw : sized pw → sized (endObject pw).
Proof. intros H. unfold endObject. now apply sized_Println, sized_eol. Qed.

Lemma sized_startObject n pw : sized pw → sized (startObject n pw).
Proof.
  intros H. unfold startObject. cbv zeta.
  apply sized_Printf. exact (sized_headIfEmpty pw H).
Qed.

Lemma sized_emitComment o pw : sized pw → sized (emitComment o pw).
Proof.
  intros H. unfold emitComment. destruct (String.eqb (comment o) ""); [exact H|].
  now apply sized_Print.
Qed.

Lemma appends_refl pw : appends pw pw.
Proof. exists "". now rewrite sapp_nil_r. Qed.

Lemma appends_trans p1 p2 p3 : appends p1 p2 → appends p2 p3 → appends p1 p3.
Proof. intros [s Hs] [t Ht]. exists (s +:+ t). now rewrite Ht, Hs, sapp_assoc. Qed.

Lemma appends_emit s pw : appends pw (emit s pw).
Proof. now exists s. Qed.

Lemma appends_headIfEmpty pw : appends pw (headIfEmpty pw).
Proof. exact (outfile_headIfEmpty pw). Qed.

Lemma appends_Print s pw : appends pw (Print s pw).
Proof. eapply appends_trans; [apply appends_headIfEmpty|apply appends_emit]. Qed.

Lemma appends_Println s pw : appends pw (Println s pw).
Proof. eapply appends_trans; [apply appends_headIfEmpty|apply appends_emit]. Qed.

Lemma appends_Printf s pw : appends pw (Printf s pw).
Proof. eapply appends_trans; [apply appends_headIfEmpty|apply appends_emit]. Qed.

Lemma appends_eol pw : appends pw (eol pw).
Proof.
  unfold eol. cbv zeta.
  destruct (pos (headIfEmpty pw) =? lastEOL (headIfEmpty pw)).
  - apply appends_headIfEmpty.
  - eapply appends_trans; [apply appends_headIfEmpty|].
    apply (appends_Println "" (headIfEmpty pw)).
Qed.

Lemma appends_endObject pw : appends pw (endObject pw).
Proof. unfold endObject. eapply appends_trans; [apply appends_eol|apply appends_Println]. Qed.

Lemma appends_startObject n pw : appends pw (startObject n pw).
Proof.
  unfold startObject. cbv zeta. eapply appends_trans; [apply appends_headIfEmpty|].
  match goal with |- appends _ (Printf ?s ?p) => exact (appends_Printf s p) end.
Qed.

Lemma appends_emitComment o pw : appends pw (emitComment o pw).
Proof.
  unfold emitComment. destruct (String.eqb (comment o) ""); [apply appends_refl|].
  apply appends_Print.
Qed.

Lemma appends_putObject a o pw : appends pw (putObject a o pw).
Proof. exists "". cbn [outfile putObject setStore]. now rewrite sapp_nil_r. Qed.

Section SaveLayout.
Context {rt : GoRuntime}.

Lemma sized_emitBody o pw : sized pw → sized (emitBody o pw).
Proof.
  intros H. unfold emitBody.
  destruct (0 <? Z.of_nat (length (Dictionary o))); [now apply sized_emit|].
  destruct (0 <? Z.of_nat (length (Array o))); [now apply sized_emit|exact H].
Qed.

Lemma sized_emitStream o pw : sized pw → sized (snd (emitStream o pw)).
Proof.
  intros H. unfold emitStream. destruct (0 <? lenZ (Data o)); [|exact H].
  cbn [snd]. now do 3 apply sized_emit.
Qed.

Lemma appends_emitBody o pw : appends pw (emitBody o pw).
Proof.
  unfold emitBody.
  destruct (0 <? Z.of_nat (length (Dictionary o))); [apply appends_emit|].
  destruct (0 <? Z.of_nat (length (Array o))); [apply appends_emit|apply appends_refl].
Qed.

Lemma appends_emitStream o pw : appends pw (snd (emitStream o pw)).
Proof.
  unfold emitStream. destruct (0 <? lenZ (Data o)); [|apply appends_refl].
  cbn [snd]. eapply appends_trans; [|apply appends_emit].
  eapply appends_trans; [|apply appends_emit]. apply appends_emit.
Qed.

(** [Save] of an object that has not been saved, step by step. *)
Lemma Save_unsaved a pw :
  saved (getObject a pw) = false →
  Save a pw =
  let obj := setSaved (getObject a pw) in
  let p1 := emitComment obj (putObject a obj pw) in
  if Raw obj then
    endObject (putObject a (setData "" obj)
                 (emit (Data obj) (startObject (ObjectNumber obj) p1)))
  else
    let obj2 := prepareStream obj in
    let es := emitStream obj2
                (emitBody obj2 (startObject (ObjectNumber obj2) (putObject a obj2 p1))) in
    endObject (putObject a (fst es) (snd es)).
Proof.
  intros Hs. unfold Save. rewrite Hs. cbv zeta.
  destruct (Raw (setSaved (getObject a pw))); [reflexivity|].
  now destruct (emitStream _ _).
Qed.

Lemma sized_Save a pw : sized pw → sized (Save a pw).
Proof.
  intros H. destruct (saved (getObject a pw)) eqn:Hs.
  - now rewrite Save_saved_noop.
  - rewrite (Save_unsaved a pw Hs). cbv zeta.
    destruct (Raw (setSaved (getObject a pw))).
    + apply sized_endObject, sized_putObject, sized_emit, sized_startObject,
        sized_emitComment, sized_putObject, H.
    + apply sized_endObject, sized_putObject, sized_emitStream, sized_emitBody,
        sized_startObject, sized_putObject, sized_emitComment, sized_putObject, H.
Qed.

Lemma appends_Save a pw : appends pw (Save a pw).
Proof.
  destruct (saved (getObject a pw)) eqn:Hs.
  - rewrite Save_saved_noop by exact Hs. apply appends_refl.
  - rewrite (Save_unsaved a pw Hs). cbv zeta.
    destruct (Raw (setSaved (getObject a pw))).
    + eapply appends_trans; [|apply appends_endObject].
      eapply appends_trans; [|apply appends_putObject].
      eapply appends_trans; [|apply appends_emit].
      eapply appends_trans; [|apply appends_startObject].
      eapply appends_trans; [|apply appends_emitComment].
      apply appends_putObject.
    + eapply appends_trans; [|apply appends_endObject].
      eapply appends_trans; [|apply appends_putObject].
      eapply appends_trans; [|apply appends_emitStream].
      eapply appends_trans; [|apply appends_emitBody].
      eapply appends_trans; [|apply appends_startObject].
      eapply appends_trans; [|apply appends_putObject].
      eapply appends_trans; [|apply appends_emitComment].
      apply appends_putObject.
Qed.

(** X1: when the position of the writer is the number of bytes written
    so far, it still is after [Print], [Println], [Printf] and [Save]:
    [Size] is the length of the output. *)
Theorem Size_is_output_length (s : string) (a : nat) (pw : PDF) :
  Size pw = lenZ (outfile pw) →
  Size (Print s pw) = lenZ (outfile (Print s pw)) ∧
  Size (Println s pw) = lenZ (outfile (Println s pw)) ∧
  Size (Printf s pw) = lenZ (outfile (Printf s pw)) ∧
  Size (Save a pw) = lenZ (outfile (Save a pw)).
Proof.
  intros H. split; [|split; [|split]].
  - now apply sized_Print.
  - now apply sized_Println.
  - now apply sized_Printf.
  - now apply sized_Save.
Qed.

(** The line [N 0 obj] that [Save] writes starts one byte after the
    position at which the object's comment ends. *)
Lemma Save_header_at (a : nat) (pw : PDF) :
  saved (getObject a pw) = false →
  sized pw →
  atOffset (pos (atHeader (getObject a pw) pw) + 1)
           (fmt_d (ObjectNumber (getObject a pw)) +:+ " 0 obj" +:+ LF)
           (outfile (Save a pw)).
Proof.
  intros Hs Hsz.
  set (obj0 := getObject a pw) in *.
  set (n := ObjectNumber obj0).
  assert (Hh : sized (atHeader obj0 pw)).
  { unfold atHeader. now apply sized_headIfEmpty, sized_emitComment. }
  assert (Hstart : ∀ q, outfile (headIfEmpty q) = outfile (atHeader obj0 pw) →
            ∀ r, appends (startObject n q) r →
            atOffset (pos (atHeader obj0 pw) + 1) (fmt_d n +:+ " 0 obj" +:+ LF) (outfile r)).
  { intros q Hq r [t Ht].
    exists (outfile (atHeader obj0 pw) +:+ LF), t. split.
    - rewrite Ht. unfold startObject. cbv zeta.
      unfold Printf.
      assert (Hi : outfile (headIfEmpty
                     (setObjectlocations
                        (<[n:=pos (headIfEmpty q) + 1]> (objectlocations (headIfEmpty q)))
                        (headIfEmpty q))) = outfile (atHeader obj0 pw)).
      { unfold headIfEmpty at 1. cbn [pos setObjectlocations].
        destruct (pos (headIfEmpty q) =? 0) eqn:E; [|exact Hq].
        exfalso. apply Z.eqb_eq in E.
        revert E. unfold headIfEmpty. destruct (pos q =? 0) eqn:E2.
        - apply Z.eqb_eq in E2. pose proof (pos_writePDFHead q). lia.
        - apply Z.eqb_neq in E2. lia. }
      rewrite outfile_emit, Hi. now rewrite !sapp_assoc.
    - rewrite lenZ_app. change (lenZ LF) with 1. unfold sized in Hh. lia. }
  rewrite (Save_unsaved a pw Hs). cbv zeta. fold obj0.
  change (ObjectNumber (setSaved obj0)) with n.
  assert (Hq1 : outfile (headIfEmpty (emitComment (setSaved obj0)
                                        (putObject a (setSaved obj0) pw)))
                = outfile (atHeader obj0 pw)).
  { rewrite emitComment_putObject, headIfEmpty_putObject. reflexivity. }
  destruct (Raw (setSaved obj0)).
  - apply (Hstart _ Hq1).
    eapply appends_trans; [|apply appends_endObject].
    eapply appends_trans; [|apply appends_putObject]. apply appends_emit.
  - rewrite ObjectNumber_prepareStream. change (ObjectNumber (setSaved obj0)) with n.
    apply (Hstart (putObject a (prepareStream (setSaved obj0))
                     (emitComment (setSaved obj0) (putObject a (setSaved obj0) pw)))).
    + rewrite headIfEmpty_putObject. exact Hq1.
    + eapply appends_trans; [|apply appends_endObject].
      eapply appends_trans; [|apply appends_putObject].
      eapply appends_trans; [|apply appends_emitStream]. apply appends_emitBody.
Qed.

(** X2: the first [Save] of an object enters into the object-location
    table the byte offset at which the line [N 0 obj] of the object
    starts in the output. *)
Theorem Save_offset_exact (a : nat) (pw : PDF) :
  saved (getObject a pw) = false →
  pos pw = lenZ (outfile pw) →
  let n := ObjectNumber (getObject a pw) in
  ∃ off,
    objectlocations (Save a pw) !! n = Some off ∧
    atOffset off (fmt_d n +:+ " 0 obj" +:+ LF) (outfile (Save a pw)).
Proof.
  intros Hs Hsz n.
  exists (pos (atHeader (getObject a pw) pw) + 1). split.
  - rewrite (Save_objectlocations a pw Hs). apply lookup_insert_eq.
  - now apply Save_header_at.
Qed.

Lemma lastEOL_startObject n pw : lastEOL (startObject n pw) = lastEOL pw.
Proof.
  unfold startObject, Printf. cbv zeta.
  rewrite lastEOL_emit, lastEOL_headIfEmpty. cbn [lastEOL setObjectlocations].
  apply lastEOL_headIfEmpty.
Qed.

Lemma zlibStream_nonempty data : 0 < lenZ (zlibStream data).
Proof.
  unfold zlibStream. rewrite lenZ_app.
  match goal with |- 0 < _ + lenZ ?s => pose proof (lenZ_nonneg s) end.
  change (lenZ (string_of_list_ascii (map byteOf [120; 156]))) with 2. lia.
Qed.

(** What the first part of [Save] leaves in an object that has a
    payload. *)
Lemma prepareStream_payload obj :
  0 < lenZ (Data obj) →
  let payload := if compress obj then zlibStream (Data obj) else Data obj in
  Data (prepareStream obj) = payload ∧
  mapGet (Dictionary (prepareStream obj)) "Length" = Some (VRaw (fmt_d (lenZ payload))) ∧
  (compress obj = true →
   mapGet (Dictionary (prepareStream obj)) "Filter" = Some (VRaw "/FlateDecode") ∧
   mapGet (Dictionary (prepareStream obj)) "Length1" =
     Some (VRaw (fmt_d (lenZ (Data obj))))) ∧
  (0 < length (Dictionary (prepareStream obj)))%nat ∧
  0 < lenZ payload.
Proof.
  intros Hd. cbv zeta. unfold prepareStream.
  destruct (Z.ltb_spec 0 (lenZ (Data obj))) as [_|]; [|lia].
  cbn [orb]. cbv zeta. cbn [compress setDictionary Dictionary Data].
  destruct (compress obj) eqn:Ec; cbn [Data setData setDictionary Dictionary].
  - split; [reflexivity|]. split; [|split; [|split]].
    + rewrite mapGet_mapSet_ne by discriminate. apply mapGet_mapSet_eq.
    + intros _. split.
      * rewrite !mapGet_mapSet_ne by discriminate. apply mapGet_mapSet_eq.
      * apply mapGet_mapSet_eq.
    + apply mapSet_nonempty.
    + apply zlibStream_nonempty.
  - split; [reflexivity|]. split; [|split; [|split]].
    + apply mapGet_mapSet_eq.
    + discriminate.
    + apply mapSet_nonempty.
    + exact Hd.
Qed.

(** X3: an object with a payload that is not raw is written as a
    dictionary followed by the payload between [stream] and
    [endstream]; the payload is the data of the object, or its zlib
    stream when compression is on, and the entry [Length] of the
    dictionary is the number of bytes of the payload as written.  With
    compression the dictionary also names the filter and gives the
    length of the data as [Length1].  The buffer of the object is empty
    afterwards. *)
Theorem Save_stream_length (a : nat) (pw : PDF) :
  (a < length (store pw))%nat →
  saved (getObject a pw) = false →
  Raw (getObject a pw) = false →
  0 < lenZ (Data (getObject a pw)) →
  sinkOK pw →
  let obj := getObject a pw in
  let payload := if compress obj then zlibStream (Data obj) else Data obj in
  ∃ d before,
    outfile (Save a pw) =
      before +:+ hashToString d O +:+ LF +:+ "stream" +:+ LF +:+ payload +:+
      LF +:+ "endstream" +:+ LF +:+ "endobj" +:+ LF ∧
    mapGet d "Length" = Some (VRaw (fmt_d (lenZ payload))) ∧
    (compress obj = true →
     mapGet d "Filter" = Some (VRaw "/FlateDecode") ∧
     mapGet d "Length1" = Some (VRaw (fmt_d (lenZ (Data obj))))) ∧
    Data (getObject a (Save a pw)) = "".
Proof.
  intros Ha Hs Hr Hd Hok obj payload.
  rewrite (Save_unsaved a pw Hs). cbv zeta. fold obj.
  change (Raw (setSaved obj)) with (Raw obj). fold obj in Hr. rewrite Hr.
  set (obj1 := setSaved obj).
  destruct (prepareStream_payload obj1) as (Hdata & Hlen & Hfilt & Hne & Hpl);
    [exact Hd|].
  change (compress obj1) with (compress obj) in Hdata, Hlen, Hfilt, Hpl.
  change (Data obj1) with (Data obj) in Hdata, Hlen, Hfilt, Hpl.
  fold payload in Hdata, Hlen, Hpl.
  set (obj2 := prepareStream obj1) in *.
  set (d := Dictionary obj2) in *.
  set (p := startObject (ObjectNumber obj2)
              (putObject a obj2 (emitComment obj1 (putObject a obj1 pw)))).
  assert (Hbody : emitBody obj2 p = emit (hashToString d O) p).
  { unfold emitBody. fold d.
    destruct (Z.ltb_spec 0 (Z.of_nat (length d))); [reflexivity|lia]. }
  rewrite Hbody.
  assert (Hstream : ∀ q, emitStream obj2 q =
            (setData "" obj2,
             emit (LF +:+ "endstream") (emit payload (emit (LF +:+ "stream" +:+ LF) q)))).
  { intros q. unfold emitStream. rewrite Hdata.
    destruct (Z.ltb_spec 0 (lenZ payload)); [reflexivity|lia]. }
  rewrite Hstream. cbn [fst snd].
  assert (Hposp : pos pw <= pos p ∧ lastEOL p = lastEOL pw).
  { split.
    - unfold p. eapply Z.le_trans; [|apply pos_startObject_ge].
      rewrite pos_putObject. eapply Z.le_trans; [|apply pos_emitComment_ge].
      rewrite pos_putObject. lia.
    - unfold p. rewrite lastEOL_startObject, lastEOL_putObject, lastEOL_emitComment.
      apply lastEOL_putObject. }
  destruct Hposp as [Hpp Hlp]. unfold sinkOK in Hok.
  pose proof (hashToString_nonempty d O) as Hh.
  pose proof (lenZ_nonneg (LF +:+ "stream" +:+ LF)) as H1.
  pose proof (lenZ_nonneg (LF +:+ "endstream")) as H2.
  rewrite endObject_started.
  - exists d, (outfile p). split; [|split; [exact Hlen|split; [exact Hfilt|]]].
    + cbn [outfile emit setSink putObject setStore setLastEOL].
      now rewrite !sapp_assoc.
    + unfold getObject.
      cbn [store emit setSink putObject setStore setLastEOL].
      rewrite list_lookup_insert_eq; [reflexivity|].
      unfold p. autorewrite with pdfstore. exact Ha.
  - cbn [pos emit setSink putObject setStore]. lia.
  - cbn [pos lastEOL emit setSink putObject setStore]. lia.
Qed.

(** X4: a raw object is written as its data between the line [N 0 obj]
    and the line [endobj]; its dictionary and its array are not
    written, and its buffer is empty afterwards. *)
Theorem Save_raw_output (a : nat) (pw : PDF) :
  (a < length (store pw))%nat →
  saved (getObject a pw) = false →
  Raw (getObject a pw) = true →
  sinkOK pw →
  let obj := getObject a pw in
  outfile (Save a pw) =
    outfile (atHeader obj pw) +:+ LF +:+ fmt_d (ObjectNumber obj) +:+ " 0 obj" +:+ LF +:+
    Data obj +:+ LF +:+ "endobj" +:+ LF ∧
  Data (getObject a (Save a pw)) = "" ∧
  Dictionary (getObject a (Save a pw)) = Dictionary obj.
Proof.
  intros Ha Hs Hr Hok obj.
  rewrite (Save_unsaved a pw Hs). cbv zeta. fold obj.
  change (Raw (setSaved obj)) with (Raw obj). fold obj in Hr. rewrite Hr.
  set (obj1 := setSaved obj).
  change (ObjectNumber obj1) with (ObjectNumber obj). change (Data obj1) with (Data obj).
  set (n := ObjectNumber obj).
  rewrite emitComment_putObject.
  change (emitComment obj1 pw) with (emitComment obj pw).
  set (p0 := emitComment obj pw).
  unfold startObject. cbv zeta. rewrite headIfEmpty_putObject.
  change (headIfEmpty p0) with (atHeader obj pw).
  set (p1 := atHeader obj pw).
  unfold sinkOK in Hok.
  assert (Hp1 : pos pw <= pos p1 ∧ 0 < pos p1) by (apply pos_atHeader; lia).
  assert (Hl1 : lastEOL p1 = lastEOL pw) by apply lastEOL_atHeader.
  rewrite Printf_started by (cbn [pos putObject setStore setObjectlocations]; lia).
  set (hdr := LF +:+ fmt_d n +:+ " 0 obj" +:+ LF).
  assert (Hhdr : 0 < lenZ hdr).
  { unfold hdr. rewrite lenZ_app. change (lenZ LF) with 1.
    match goal with |- 0 < 1 + lenZ ?s => pose proof (lenZ_nonneg s) end. lia. }
  pose proof (lenZ_nonneg (Data obj)) as Hdl.
  rewrite endObject_started.
  - split; [|split].
    + cbn [outfile emit setSink putObject setStore setObjectlocations setLastEOL].
      unfold hdr. now rewrite !sapp_assoc.
    + unfold getObject.
      cbn [store emit setSink putObject setStore setObjectlocations setLastEOL].
      rewrite list_lookup_insert_eq; [reflexivity|].
      rewrite length_insert. unfold p1. autorewrite with pdfstore. exact Ha.
    + unfold getObject.
      cbn [store emit setSink putObject setStore setObjectlocations setLastEOL].
      rewrite list_lookup_insert_eq; [reflexivity|].
      rewrite length_insert. unfold p1. autorewrite with pdfstore. exact Ha.
  - cbn [pos emit setSink putObject setStore setObjectlocations]. lia.
  - cbn [pos lastEOL emit setSink putObject setStore setObjectlocations]. lia.
Qed.
End SaveLayout.



(** X6: the first write to an empty file is preceded by the file header,
    also when it writes nothing itself; the next write adds its bytes
    only. *)
Theorem header_written_once (s1 s2 : string) (pw : PDF) :
  pos pw = 0 →
  outfile (Print s1 pw) = outfile pw +:+ fileHeader pw +:+ s1 ∧
  outfile (Println s2 (Print s1 pw)) = outfile pw +:+ fileHeader pw +:+ s1 +:+ s2 +:+ LF ∧
  outfile (Printf s2 (Print s1 pw)) = outfile pw +:+ fileHeader pw +:+ s1 +:+ s2 ∧
  outfile (Print s2 (Print s1 pw)) = outfile pw +:+ fileHeader pw +:+ s1 +:+ s2.
Proof.
  intros Hp.
  assert (H1 : Print s1 pw = emit s1 (writePDFHead pw)).
  { unfold Print, headIfEmpty. now rewrite Hp. }
  assert (H0 : 0 < pos (Print s1 pw)).
  { rewrite H1, pos_emit. pose proof (pos_writePDFHead pw). pose proof (lenZ_nonneg s1). lia. }
  rewrite (Println_started s2 _ H0), (Printf_started s2 _ H0), (Print_started s2 _ H0).
  rewrite H1. unfold writePDFHead, fileHeader.
  cbn [outfile emit setSink]. now rewrite !sapp_assoc.
Qed.

Lemma header_written_once_witness :
  pos NewPDFWriter = 0 ∧
  outfile (Print "" NewPDFWriter) = fileHeader NewPDFWriter.
Proof.
  split; [reflexivity|].
  destruct (header_written_once "" "" NewPDFWriter eq_refl) as [H _].
  rewrite H. reflexivity.
Defined.

Lemma Size_is_output_length_witness :
  Size NewPDFWriter = lenZ (outfile NewPDFWriter) ∧
  Size (Save (rt := sampleRuntime) 0 oneStream) =
  lenZ (outfile (Save (rt := sampleRuntime) 0 oneStream)).
Proof.
  split; [reflexivity|].
  apply (Size_is_output_length (rt := sampleRuntime) "" 0 oneStream). reflexivity.
Defined.

Lemma Save_offset_exact_witness :
  saved (getObject 0 oneStream) = false ∧
  ∃ off,
    objectlocations (Save (rt := sampleRuntime) 0 oneStream) !! 1 = Some off ∧
    atOffset off ("1 0 obj" +:+ LF) (outfile (Save (rt := sampleRuntime) 0 oneStream)).
Proof.
  split; [reflexivity|].
  exact (Save_offset_exact (rt := sampleRuntime) 0 oneStream eq_refl eq_refl).
Defined.

Lemma Save_stream_length_witness :
  sinkOK oneStream ∧
  ∃ d before,
    outfile (Save (rt := sampleRuntime) 0 oneStream) =
      before +:+ hashToString (rt := sampleRuntime) d O +:+ LF +:+ "stream" +:+ LF +:+
      "BT ET" +:+ LF +:+ "endstream" +:+ LF +:+ "endobj" +:+ LF ∧
    mapGet d "Length" = Some (VRaw "5").
Proof.
  assert (Hok : sinkOK oneStream) by (split; cbn; lia).
  split; [exact Hok|].
  destruct (Save_stream_length (rt := sampleRuntime) 0 oneStream) as (d & before & H1 & H2 & _);
    [cbn; lia|reflexivity|reflexivity|reflexivity|exact Hok|].
  exists d, before. split; [exact H1|exact H2].
Defined.

Lemma Save_raw_output_witness :
  sinkOK rawObjectWriter ∧
  outfile (Save (rt := sampleRuntime) 0 rawObjectWriter) =
    fileHeader NewPDFWriter +:+ LF +:+ "7 0 obj" +:+ LF +:+
    "<< /Imported true >>" +:+ LF +:+ "endobj" +:+ LF.
Proof.
  assert (Hok : sinkOK rawObjectWriter) by (split; cbn; lia).
  split; [exact Hok|].
  destruct (Save_raw_output (rt := sampleRuntime) 0 rawObjectWriter) as (H1 & _);
    [cbn; lia|reflexivity|reflexivity|exact Hok|].
  rewrite H1. reflexivity.
Defined.

(** ** Properties that all writer operations keep *)

(** Names the value of the outermost [let] of the goal. *)
Ltac pull_let y :=
  lazymatch goal with
  | |- ?Q (let x := ?v in @?b x) => pose (y := v); change (Q (b y)); cbv beta
  end.

Section KeptBySave.
Context {rt : GoRuntime}.
Variable P : PDF → Prop.
Hypothesis HP : keptBySave P.

Lemma kept_headIfEmpty pw : P pw → P (headIfEmpty pw).
Proof.
  intros H. unfold headIfEmpty. destruct (pos pw =? 0); [|exact H].
  unfold writePDFHead. now apply (kept_emit P HP).
Qed.

Lemma kept_Print s pw : P pw → P (Print s pw).
Proof. intros H. unfold Print. now apply (kept_emit P HP), kept_headIfEmpty. Qed.

Lemma kept_Println s pw : P pw → P (Println s pw).
Proof. intros H. unfold Println. now apply (kept_emit P HP), kept_headIfEmpty. Qed.

Lemma kept_Printf s pw : P pw → P (Printf s pw).
Proof. intros H. unfold Printf. now apply (kept_emit P HP), kept_headIfEmpty. Qed.

Lemma kept_putObject a o pw : P pw → P (putObject a o pw).
Proof. intros H. unfold putObject. now apply (kept_store P HP). Qed.

Lemma kept_updObject a f pw : P pw → P (updObject a f pw).
Proof. intros H. unfold updObject. now apply kept_putObject. Qed.

Lemma kept_ObjectDict a d pw : P pw → P (ObjectDict a d pw).
Proof. intros H. unfold ObjectDict. now apply kept_updObject. Qed.

Lemma kept_NewObjectWithNumber n pw : P pw → P (snd (NewObjectWithNumber n pw)).
Proof.
  intros H. unfold NewObjectWithNumber, alloc. cbn [snd]. now apply (kept_store P HP).
Qed.

Lemma kept_eol pw : P pw → P (eol pw).
Proof.
  intros H. unfold eol. cbv zeta.
  destruct (pos (headIfEmpty pw) =? lastEOL (headIfEmpty pw)).
  - now apply kept_headIfEmpty.
  - apply (kept_lastEOL P HP). apply (kept_Println "" (headIfEmpty pw)).
    now apply kept_headIfEmpty.
Qed.

Lemma kept_endObject pw : P pw → P (endObject pw).
Proof. intros H. unfold endObject. now apply kept_Println, kept_eol. Qed.

Lemma kept_startObject n pw : P pw → P (startObject n pw).
Proof.
  intros H. unfold startObject. cbv zeta. apply kept_Printf.
  apply (kept_objectlocations P HP). now apply kept_headIfEmpty.
Qed.

Lemma kept_emitComment o pw : P pw → P (emitComment o pw).
Proof.
  intros H. unfold emitComment. destruct (String.eqb (comment o) ""); [exact H|].
  now apply kept_Print.
Qed.

Lemma kept_emitBody o pw : P pw → P (emitBody o pw).
Proof.
  intros H. unfold emitBody.
  destruct (0 <? Z.of_nat (length (Dictionary o))); [now apply (kept_emit P HP)|].
  destruct (0 <? Z.of_nat (length (Array o))); [now apply (kept_emit P HP)|exact H].
Qed.

Lemma kept_emitStream o pw : P pw → P (snd (emitStream o pw)).
Proof.
  intros H. unfold emitStream. destruct (0 <? lenZ (Data o)); [|exact H].
  cbn [snd]. now do 3 apply (kept_emit P HP).
Qed.

Lemma kept_Save a pw : P pw → P (Save a pw).
Proof.
  intros H. destruct (saved (getObject a pw)) eqn:Hs.
  - now rewrite Save_saved_noop.
  - rewrite (Save_unsaved a pw Hs). cbv zeta.
    destruct (Raw (setSaved (getObject a pw))).
    + apply kept_endObject, kept_putObject, (kept_emit P HP), kept_startObject,
        kept_emitComment, kept_putObject, H.
    + apply kept_endObject, kept_putObject, kept_emitStream, kept_emitBody,
        kept_startObject, kept_putObject, kept_emitComment, kept_putObject, H.
Qed.

Lemma kept_fold {A} (f : PDF → A → PDF) (l : list A) :
  (∀ x pw, P pw → P (f pw x)) → ∀ pw, P pw → P (fold_left f l pw).
Proof.
  intros Hf. induction l as [|x l IH]; intros pw H; [exact H|].
  cbn [fold_left]. apply IH, Hf, H.
Qed.

End KeptBySave.

(** A property that every update of the writer keeps is kept by its
    operations. *)
Lemma kept_ops {rt : GoRuntime} (P : PDF → Prop) : kept P → keptByOps P.
Proof.
  intros HP. constructor.
  - apply (kept_emit P (kept_save P HP)).
  - intros a pw. apply (kept_Save P (kept_save P HP)).
  - apply (kept_store P (kept_save P HP)).
  - apply (kept_nextobject P HP).
  - apply (kept_names P HP).
Qed.

Section Kept.
Context {rt : GoRuntime} {co : Collaborators}.
Variable P : PDF → Prop.
Hypothesis HP : keptByOps P.

Lemma ops_headIfEmpty pw : P pw → P (headIfEmpty pw).
Proof.
  intros H. unfold headIfEmpty. destruct (pos pw =? 0); [|exact H].
  unfold writePDFHead. now apply (ops_emit P HP).
Qed.

Lemma ops_Print s pw : P pw → P (Print s pw).
Proof. intros H. unfold Print. now apply (ops_emit P HP), ops_headIfEmpty. Qed.

Lemma ops_Println s pw : P pw → P (Println s pw).
Proof. intros H. unfold Println. now apply (ops_emit P HP), ops_headIfEmpty. Qed.

Lemma ops_Printf s pw : P pw → P (Printf s pw).
Proof. intros H. unfold Printf. now apply (ops_emit P HP), ops_headIfEmpty. Qed.

Lemma ops_ObjectDict a d pw : P pw → P (ObjectDict a d pw).
Proof.
  intros H. unfold ObjectDict, updObject, putObject. now apply (ops_store P HP).
Qed.

Lemma ops_NewObjectWithNumber n pw : P pw → P (snd (NewObjectWithNumber n pw)).
Proof.
  intros H. unfold NewObjectWithNumber, alloc. cbn [snd]. now apply (ops_store P HP).
Qed.

Lemma kept_NextObject pw : P pw → P (snd (NextObject pw)).
Proof. intros H. unfold NextObject. cbn [snd]. now apply (ops_nextobject P HP). Qed.

Lemma kept_NewObject pw : P pw → P (snd (NewObject pw)).
Proof.
  intros H. unfold NewObject, NextObject, alloc. cbn [snd].
  now apply (ops_store P HP), (ops_nextobject P HP).
Qed.

Lemma kept_writeInfoDict pw : P pw → P (snd (writeInfoDict pw)).
Proof.
  intros H. unfold writeInfoDict. destruct (Major pw <? 2); [|exact H].
  pose proof (kept_NewObject pw H) as Hn.
  destruct (NewObject pw) as [info pw1]. cbn [snd] in Hn |- *.
  now apply (ops_Save P HP), ops_ObjectDict.
Qed.

Lemma kept_writeDestObj page x y pw : P pw → P (snd (writeDestObj page x y pw)).
Proof.
  intros H. unfold writeDestObj.
  pose proof (kept_NewObject pw H) as Hn.
  destruct (NewObject pw) as [obj pw1]. cbn [snd] in Hn |- *.
  now apply (ops_Save P HP), ops_ObjectDict.
Qed.

Lemma kept_assignNumbers outlines pw : P pw → P (snd (assignNumbers outlines pw)).
Proof.
  revert pw. induction outlines as [|o rest IH]; intros pw H; [exact H|].
  cbn [assignNumbers NextObject].
  specialize (IH (setNextobject (nextobject pw + 1) pw)
                 (ops_nextobject P HP _ pw H)).
  destruct (assignNumbers rest (setNextobject (nextobject pw + 1) pw)) as [ns pw1].
  exact IH.
Qed.

Lemma kept_outlineLoop item outlines :
  Forall (fun o => ∀ n next prev c pw, P pw → P (snd (item n next prev c o pw))) outlines →
  ∀ nums prev acc pw, P pw → P (snd (outlineLoop item outlines nums prev acc pw)).
Proof.
  induction 1 as [|o rest Ho Hrest IH]; intros nums prev acc pw H.
  - destruct nums; exact H.
  - destruct nums as [|n nums']; [exact H|].
    cbn [outlineLoop]. destruct acc as [[first last] c].
    specialize (Ho n (head nums') prev c pw H).
    destruct (item n (head nums') prev c o pw) as [c1 pw1].
    apply IH. exact Ho.
Qed.

Lemma kept_writeOutlineItem (o : Outline) :
  ∀ parent n next prev c pw, P pw → P (snd (writeOutlineItem parent n next prev c o pw)).
Proof.
  induction o as [children title open dest num IH] using Outline_nested_ind.
  intros parent n next prev c pw H.
  rewrite writeOutlineItem_eq.
  pose proof (ops_NewObjectWithNumber n pw H) as Hn.
  destruct (NewObjectWithNumber n pw) as [a pw1]. cbn [snd] in Hn.
  cbv zeta. cbn [Children Open].
  destruct children as [|x r].
  - cbn [snd]. now apply (ops_Save P HP), ops_ObjectDict.
  - unfold writeOutlineWith.
    pose proof (kept_assignNumbers (x :: r) pw1 Hn) as Ha.
    destruct (assignNumbers (x :: r) pw1) as [nums pw2]. cbn [snd] in Ha.
    assert (Hl := kept_outlineLoop (writeOutlineItem n) (x :: r)).
    specialize (Hl ltac:(eapply Forall_impl; [exact IH|]; intros y Hy; exact (Hy n))
                   nums None (0, 0, 0) pw2 Ha).
    destruct (outlineLoop (writeOutlineItem n) (x :: r) nums None (0, 0, 0) pw2)
      as [[[f l] count] pw3].
    cbn [snd] in Hl |- *. now apply (ops_Save P HP), ops_ObjectDict.
Qed.

Lemma kept_writeOutline parent outlines pw :
  P pw → P (snd (writeOutline parent outlines pw)).
Proof.
  intros H. unfold writeOutline, writeOutlineWith.
  pose proof (kept_assignNumbers outlines pw H) as Ha.
  destruct (assignNumbers outlines pw) as [nums pw1]. cbn [snd] in Ha.
  apply kept_outlineLoop; [|exact Ha].
  apply Forall_forall. intros o _ n next prev c q. apply kept_writeOutlineItem.
Qed.

Lemma kept_writeAnnotations annots pw : P pw → P (snd (writeAnnotations annots pw)).
Proof.
  revert pw. induction annots as [|annot rest IH]; intros pw H; [exact H|].
  cbn [writeAnnotations].
  pose proof (kept_NewObject pw H) as Hn.
  destruct (NewObject pw) as [annotObj pw1]. cbn [snd] in Hn.
  destruct (Rect annot) as [[[r0 r1] r2] r3]. cbv zeta.
  match goal with
  | |- context [writeAnnotations rest ?q] =>
      assert (Hq : P q) by (now apply (ops_Save P HP), ops_ObjectDict);
      specialize (IH q Hq); destruct (writeAnnotations rest q) as [rs pw2]
  end.
  exact IH.
Qed.

Lemma kept_writeDests sortedNames pw : P pw → P (snd (writeDests sortedNames pw)).
Proof.
  revert pw. induction sortedNames as [|n rest IH]; intros pw H; [exact H|].
  cbn [writeDests].
  destruct (mapGet (NameDestinations pw) n) as [nd|]; [|now apply IH].
  pose proof (kept_writeDestObj (PageObjectnumber nd) (X nd) (Y nd) pw H) as Hd.
  destruct (writeDestObj (PageObjectnumber nd) (X nd) (Y nd) pw) as [onum pw1].
  cbn [snd] in Hd. specialize (IH pw1 Hd).
  destruct (writeDests rest pw1) as [ds pw2]. exact IH.
Qed.
Lemma kept_writePage pagesObjNum page pw : P pw → P (writePage pagesObjNum page pw).
Proof.
  intros H. unfold writePage.
  pose proof (ops_NewObjectWithNumber (Objnum page) pw H) as Hn.
  destruct (NewObjectWithNumber (Objnum page) pw) as [obj pw1]. cbn [snd] in Hn.
  cbv zeta.
  pose proof (kept_writeAnnotations (Annotations page) pw1 Hn) as Ha.
  destruct (writeAnnotations (Annotations page) pw1) as [nums pw2]. cbn [snd] in Ha.
  now apply (ops_Save P HP), ops_ObjectDict.
Qed.

Hypothesis HC : collaboratorsKeep P.

Lemma kept_finishFaces faces pw : P pw → P (snd (finishFaces faces pw)).
Proof.
  revert pw. induction faces as [|f rest IH]; intros pw H; [exact H|].
  cbn [finishFaces].
  pose proof (proj2 HC f pw H) as Hf.
  destruct (faceFinish f pw) as [[err|] pw1]; cbn [snd] in Hf |- *; [exact Hf|].
  now apply IH.
Qed.

Lemma kept_writePagesAndCatalog pagesObj pw :
  P pw → P (snd (writePagesAndCatalog pagesObj pw)).
Proof.
  intros H. cbv beta delta [writePagesAndCatalog].
  set (PR := fun r : result Z * PDF => P (snd r)).
  match goal with |- P (snd ?t) => change (PR t) end.
  pull_let usedFaces. pull_let pagesObjNum. pull_let p0.
  assert (H0 : P p0).
  { apply (kept_fold P); [|exact H]. intros page q Hq. now apply kept_writePage. }
  clearbody p0.
  pull_let kids. pull_let p1.
  assert (H1 : P p1) by (now apply ops_ObjectDict).
  clearbody p1.
  pull_let p2.
  assert (H2 : P p2) by (now apply (ops_Save P HP)).
  clearbody p2.
  match goal with
  | |- PR (let '(_, _) := ?m in _) =>
      assert (Hm : P (snd m)); [|destruct m as [outlinesOjbNum p3]; cbn [snd] in Hm]
  end.
  { destruct (Outlines p2) as [outlines|]; [|exact H2].
    pose proof (kept_NewObject p2 H2) as Hn.
    destruct (NewObject p2) as [outlinesOjb q]. cbn [snd] in Hn.
    pose proof (kept_writeOutline (objNum outlinesOjb q) outlines q Hn) as Hw.
    destruct (writeOutline (objNum outlinesOjb q) outlines q) as [[[f l] c] q1].
    cbn [snd] in Hw |- *. now apply (ops_Save P HP), ops_ObjectDict. }
  pose proof (kept_NewObject p3 Hm) as Hn.
  destruct (NewObject p3) as [catalog p4]. cbn [snd] in Hn.
  pull_let dictCatalog. pull_let dictCatalog0. pull_let p5.
  assert (H5 : P p5).
  { unfold p5. destruct (negb (Z.of_nat (length (NameDestinations p4)) =? 0)); [|exact Hn].
    cbv zeta.
    pose proof (kept_writeDests (Sort stringLess (mapKeys (NameDestinations p4))) p4 Hn)
      as Hd.
    destruct (writeDests (Sort stringLess (mapKeys (NameDestinations p4))) p4)
      as [destnames q].
    cbn [snd] in Hd. now apply (ops_names P HP). }
  clearbody p5.
  pull_let dictCatalog1. pull_let dictCatalog2. pull_let p6. pull_let p7.
  assert (H7 : P p7) by (now apply (ops_Save P HP), ops_ObjectDict).
  clearbody p7.
  pull_let sortedFaces.
  pose proof (kept_finishFaces sortedFaces p7 H7) as Hf.
  destruct (finishFaces sortedFaces p7) as [[err|] p8]; exact Hf.
Qed.

Lemma kept_writeDocumentCatalogAndPages pw :
  P pw → P (snd (writeDocumentCatalogAndPages pw)).
Proof.
  intros H. cbv beta delta [writeDocumentCatalogAndPages].
  set (PR := fun r : result Z * PDF => P (snd r)).
  match goal with |- P (snd ?t) => change (PR t) end.
  pull_let usedImages. pull_let p0.
  assert (H0 : P p0).
  { apply (kept_fold P); [|exact H]. intros page q Hq. now apply (ops_Save P HP). }
  clearbody p0.
  pose proof (kept_NewObject p0 H0) as Hn.
  destruct (NewObject p0) as [pagesObj p1]. cbn [snd] in Hn.
  pull_let sortedImages. pull_let p2.
  assert (H2 : P p2).
  { apply (kept_fold P); [|exact Hn]. intros img q Hq. now apply (proj1 HC). }
  clearbody p2.
  destruct (Z.of_nat (length (pages p2)) =? 0); [exact H2|].
  now apply kept_writePagesAndCatalog.
Qed.

Lemma kept_writeXrefAndTrailer dc pw :
  (∀ n q, P q → P (setNoPages n q)) →
  P pw → P (writeXrefAndTrailer dc pw).
Proof.
  intros HN H. unfold writeXrefAndTrailer.
  pose proof (kept_writeInfoDict pw H) as Hi.
  destruct (writeInfoDict pw) as [infodict p1]. cbn [snd] in Hi. cbv zeta.
  apply HN. apply ops_Printf, ops_Printf, ops_Println, ops_Print, ops_Println, Hi.
Qed.

(** Whatever the writer's operations keep, and the image and font
    pipelines keep, [Finish] keeps. *)
Lemma kept_Finish pw :
  (∀ n q, P q → P (setNoPages n q)) →
  P pw → P (snd (Finish pw)).
Proof.
  intros HN H. unfold Finish.
  pose proof (kept_writeDocumentCatalogAndPages pw H) as Hw.
  destruct (writeDocumentCatalogAndPages pw) as [[dc|err] p1]; cbn [snd] in Hw |- *.
  - now apply kept_writeXrefAndTrailer.
  - exact Hw.
Qed.
End Kept.

(** ** [Finish]: size, trailer and [startxref] *)

Lemma keptBySave_sized : keptBySave sized.
Proof. constructor; intros; try assumption. now apply sized_emit. Qed.

Lemma kept_sized : kept sized.
Proof. constructor; [apply keptBySave_sized|intros; assumption..]. Qed.

Lemma kept_appends pw0 : kept (appends pw0).
Proof.
  constructor; [constructor|..]; intros; try assumption.
  eapply appends_trans; [eassumption|apply appends_emit].
Qed.

Lemma kept_pages (l : list Page) : kept (fun q => pages q = l).
Proof. constructor; [constructor|..]; intros; assumption. Qed.

Lemma NoPages_setNoPages n pw : NoPages (setNoPages n pw) = n.
Proof. reflexivity. Qed.

Lemma pages_setNoPages n pw : pages (setNoPages n pw) = pages pw.
Proof. reflexivity. Qed.

Section FinishExtra.
Context {rt : GoRuntime} {co : Collaborators}.

(** X7: [Finish] only adds bytes at the end of the output, whether it
    succeeds or fails, when the image and font pipelines do. *)
Theorem Finish_append_only (pw : PDF) :
  collaboratorsKeep (appends pw) →
  ∃ s, outfile (snd (Finish pw)) = outfile pw +:+ s.
Proof.
  intros HC. change (appends pw (snd (Finish pw))).
  apply (kept_Finish (appends pw) (kept_ops _ (kept_appends pw)) HC pw).
  - intros n q Hq. exact Hq.
  - apply appends_refl.
Qed.

(** X8: when the position of the writer is the number of bytes written,
    it still is after [Finish]: [Size] is the length of the file. *)
Theorem Finish_Size_exact (pw : PDF) :
  collaboratorsKeep sized →
  Size pw = lenZ (outfile pw) →
  Size (snd (Finish pw)) = lenZ (outfile (snd (Finish pw))).
Proof.
  intros HC H. change (sized (snd (Finish pw))).
  apply (kept_Finish sized (kept_ops _ kept_sized) HC pw); [|exact H].
  intros n q Hq. exact Hq.
Qed.

Lemma writeXrefAndTrailer_NoPages dc p1 :
  NoPages (writeXrefAndTrailer dc p1) =
  Z.of_nat (length (pages (writeXrefAndTrailer dc p1))).
Proof.
  unfold writeXrefAndTrailer.
  destruct (writeInfoDict p1) as [infodict p2]. cbv zeta.
  now rewrite NoPages_setNoPages, pages_setNoPages.
Qed.

(** X9: [Finish] does not change the list of pages, and after a
    successful [Finish] the field [NoPages] is the number of pages. *)
Theorem Finish_NoPages (pw : PDF) :
  collaboratorsKeep (fun q => pages q = pages pw) →
  pages (snd (Finish pw)) = pages pw ∧
  (fst (Finish pw) = None →
   NoPages (snd (Finish pw)) = Z.of_nat (length (pages pw))).
Proof.
  intros HC.
  assert (Hp : pages (snd (Finish pw)) = pages pw).
  { apply (kept_Finish (fun q => pages q = pages pw) (kept_ops _ (kept_pages _)) HC pw); [|reflexivity].
    intros n q Hq. exact Hq. }
  split; [exact Hp|].
  intros Hok. unfold Finish in Hok, Hp |- *.
  destruct (writeDocumentCatalogAndPages pw) as [[dc|err] p1]; cbn [fst snd] in *;
    [|discriminate].
  rewrite <- Hp. apply writeXrefAndTrailer_NoPages.
Qed.
End FinishExtra.

Lemma noCollaborators_keep (P : PDF → Prop) : collaboratorsKeep (co := noCollaborators) P.
Proof. split; intros ? q Hq; exact Hq. Qed.

Lemma Finish_append_only_witness :
  collaboratorsKeep (co := noCollaborators) (appends onePage) ∧
  ∃ s, outfile (snd (Finish (rt := sampleRuntime) (co := noCollaborators) onePage)) =
       outfile onePage +:+ s.
Proof.
  split; [apply noCollaborators_keep|].
  apply (Finish_append_only (rt := sampleRuntime) (co := noCollaborators) onePage).
  apply noCollaborators_keep.
Defined.

Lemma Finish_Size_exact_witness :
  collaboratorsKeep (co := noCollaborators) sized ∧
  Size onePage = lenZ (outfile onePage) ∧
  Size (snd (Finish (rt := sampleRuntime) (co := noCollaborators) onePage)) =
  lenZ (outfile (snd (Finish (rt := sampleRuntime) (co := noCollaborators) onePage))).
Proof.
  split; [apply noCollaborators_keep|]. split; [reflexivity|].
  apply (Finish_Size_exact (rt := sampleRuntime) (co := noCollaborators) onePage);
    [apply noCollaborators_keep|reflexivity].
Defined.

Lemma Finish_NoPages_witness :
  collaboratorsKeep (co := noCollaborators) (fun q => pages q = pages onePage) ∧
  pages (snd (Finish (rt := sampleRuntime) (co := noCollaborators) onePage)) = pages onePage.
Proof.
  split; [apply noCollaborators_keep|].
  apply (Finish_NoPages (rt := sampleRuntime) (co := noCollaborators) onePage).
  apply noCollaborators_keep.
Defined.

Section FinishTail.
Context {rt : GoRuntime} {co : Collaborators}.

(** The trailer dictionary that [Finish] builds. *)
Lemma writeXrefAndTrailer_tail dc p1 :
  0 < pos p1 →
  ∃ p2 infodict tr,
    writeInfoDict p1 = (infodict, p2) ∧
    0 < pos p2 ∧
    nextobject (writeXrefAndTrailer dc p1) = nextobject p2 ∧
    objectlocations (writeXrefAndTrailer dc p1) = objectlocations p2 ∧
    outfile (writeXrefAndTrailer dc p1) =
      outfile p2 +:+ "xref" +:+ LF +:+
      xrefText (objectlocations p2) (nextobject p2) +:+
      "trailer" +:+ LF +:+ hashToString tr O +:+
      LF +:+ "startxref" +:+ LF +:+ fmt_d (pos p2) +:+ LF +:+ "%%EOF" +:+ LF ∧
    mapGet tr "Size" = Some (VRaw (fmt_d (nextobject p2))) ∧
    mapGet tr "Root" = Some (VRaw (Ref dc)) ∧
    mapGet tr "ID" =
      Some (VRaw ("[<" +:+ fmt_X (MD5.SumString (xrefText (objectlocations p2) (nextobject p2)))
                  +:+ "> <" +:+
                  fmt_X (MD5.SumString (xrefText (objectlocations p2) (nextobject p2)))
                  +:+ ">]")) ∧
    mapGet tr "Info" = option_map (fun n => VRaw (Ref n)) infodict.
Proof.
  intros Hpos. unfold writeXrefAndTrailer.
  pose proof (writeInfoDict_pos p1) as Hp2.
  destruct (writeInfoDict p1) as [infodict p2]. cbn [snd] in Hp2. cbv zeta.
  set (str := xrefText (objectlocations p2) (nextobject p2)).
  assert (H2 : 0 < pos p2) by lia.
  rewrite (Println_started "xref" p2 H2).
  set (q1 := emit ("xref" +:+ LF) p2).
  assert (Hq1 : 0 < pos q1) by (pose proof (pos_emit_ge ("xref" +:+ LF) p2); fold q1 in H; lia).
  rewrite (Print_started str q1 Hq1).
  set (q2 := emit str q1).
  assert (Hq2 : 0 < pos q2) by (pose proof (pos_emit_ge str q1); fold q2 in H; lia).
  rewrite (Println_started "trailer" q2 Hq2).
  set (q3 := emit ("trailer" +:+ LF) q2).
  assert (Hq3 : 0 < pos q3)
    by (pose proof (pos_emit_ge ("trailer" +:+ LF) q2); fold q3 in H; lia).
  match goal with |- context [Printf (hashToString ?t O) q3] => set (tr := t) end.
  rewrite (Printf_started (hashToString tr O) q3 Hq3).
  set (q4 := emit (hashToString tr O) q3).
  assert (Hq4 : 0 < pos q4)
    by (pose proof (pos_emit_ge (hashToString tr O) q3); fold q4 in H; lia).
  match goal with |- context [Printf ?s q4] => rewrite (Printf_started s q4 Hq4) end.
  exists p2, infodict, tr.
  split; [reflexivity|]. split; [exact H2|].
  split; [reflexivity|]. split; [reflexivity|].
  split.
  - unfold q4, q3, q2, q1. cbn [outfile setNoPages emit setSink].
    now rewrite !sapp_assoc.
  - unfold tr. destruct infodict as [n|]; cbn [option_map].
    + rewrite !mapGet_mapSet_ne by discriminate. rewrite mapGet_mapSet_eq.
      repeat split; reflexivity.
    + repeat split; reflexivity.
Qed.

(** X10: after a successful [Finish] the output ends with the line
    [startxref], a number and the line [%%EOF], and the number is the
    byte offset of the keyword [xref] in the output. *)
Theorem Finish_startxref_exact (pw : PDF) (dc : Z) (pw1 : PDF) :
  writeDocumentCatalogAndPages pw = (Ok dc, pw1) →
  pos pw1 = lenZ (outfile pw1) →
  0 < pos pw1 →
  ∃ off before,
    outfile (snd (Finish pw)) =
      before +:+ LF +:+ "startxref" +:+ LF +:+ fmt_d off +:+ LF +:+ "%%EOF" +:+ LF ∧
    atOffset off ("xref" +:+ LF) (outfile (snd (Finish pw))).
Proof.
  intros Hw Hsz Hpos.
  assert (HF : Finish pw = (None, writeXrefAndTrailer dc pw1))
    by (unfold Finish; now rewrite Hw).
  rewrite HF. cbn [snd].
  destruct (writeXrefAndTrailer_tail dc pw1 Hpos)
    as (p2 & infodict & tr & Hi & H2 & _ & _ & Hout & _).
  assert (Hs2 : sized p2).
  { pose proof (kept_writeInfoDict sized (kept_ops _ kept_sized) pw1 Hsz) as H. now rewrite Hi in H. }
  exists (pos p2).
  exists (outfile p2 +:+ "xref" +:+ LF +:+ xrefText (objectlocations p2) (nextobject p2) +:+
          "trailer" +:+ LF +:+ hashToString tr O).
  split.
  - rewrite Hout. now rewrite !sapp_assoc.
  - exists (outfile p2).
    exists (xrefText (objectlocations p2) (nextobject p2) +:+
            "trailer" +:+ LF +:+ hashToString tr O +:+
            LF +:+ "startxref" +:+ LF +:+ fmt_d (pos p2) +:+ LF +:+ "%%EOF" +:+ LF).
    split; [|symmetry; exact Hs2].
    rewrite Hout. now rewrite !sapp_assoc.
Qed.

(** X11: the trailer that a successful [Finish] writes has as [Size]
    the next free object number, as [Root] the reference of the
    catalog, as [ID] twice the MD5 sum of the cross-reference table in
    hexadecimal, and an entry [Info] exactly when the PDF version is
    below 2. *)
Theorem Finish_trailer (pw : PDF) (dc : Z) (pw1 : PDF) :
  writeDocumentCatalogAndPages pw = (Ok dc, pw1) →
  0 < pos pw1 →
  let pw' := snd (Finish pw) in
  let sum := fmt_X (MD5.SumString (xrefText (objectlocations pw') (nextobject pw'))) in
  ∃ tr before after,
    outfile pw' = before +:+ "trailer" +:+ LF +:+ hashToString tr O +:+ after ∧
    mapGet tr "Size" = Some (VRaw (fmt_d (nextobject pw'))) ∧
    mapGet tr "Root" = Some (VRaw (Ref dc)) ∧
    mapGet tr "ID" = Some (VRaw ("[<" +:+ sum +:+ "> <" +:+ sum +:+ ">]")) ∧
    (is_Some (mapGet tr "Info") ↔ Major pw1 < 2).
Proof.
  intros Hw Hpos.
  assert (HF : Finish pw = (None, writeXrefAndTrailer dc pw1))
    by (unfold Finish; now rewrite Hw).
  rewrite HF. cbn [snd]. cbv zeta.
  destruct (writeXrefAndTrailer_tail dc pw1 Hpos)
    as (p2 & infodict & tr & Hi & H2 & Hn & Hl & Hout & Hsize & Hroot & Hid & Hinfo).
  rewrite Hn, Hl.
  exists tr.
  exists (outfile p2 +:+ "xref" +:+ LF +:+ xrefText (objectlocations p2) (nextobject p2)).
  exists (LF +:+ "startxref" +:+ LF +:+ fmt_d (pos p2) +:+ LF +:+ "%%EOF" +:+ LF).
  split; [|split; [exact Hsize|split; [exact Hroot|split; [exact Hid|]]]].
  - rewrite Hout. now rewrite !sapp_assoc.
  - rewrite Hinfo. revert Hi. unfold writeInfoDict.
    destruct (Z.ltb_spec (Major pw1) 2) as [Hm|Hm].
    + destruct (NewObject pw1) as [info q]. intros [= <- _]. cbn [option_map].
      split; [intros _; exact Hm|intros _; eexists; reflexivity].
    + intros [= <- _]. cbn [option_map].
      split; [intros [x Hx]; discriminate|lia].
Qed.
End FinishTail.

Lemma Finish_startxref_exact_witness :
  0 < pos (snd (writeDocumentCatalogAndPages (rt := sampleRuntime) (co := noCollaborators) onePage)) ∧
  ∃ off before,
    outfile (snd (Finish (rt := sampleRuntime) (co := noCollaborators) onePage)) =
      before +:+ LF +:+ "startxref" +:+ LF +:+ fmt_d off +:+ LF +:+ "%%EOF" +:+ LF ∧
    atOffset off ("xref" +:+ LF)
      (outfile (snd (Finish (rt := sampleRuntime) (co := noCollaborators) onePage))).
Proof.
  split; [vm_compute; reflexivity|].
  refine (Finish_startxref_exact (rt := sampleRuntime) (co := noCollaborators) onePage 4
            (snd (writeDocumentCatalogAndPages
                    (rt := sampleRuntime) (co := noCollaborators) onePage))
            _ _ _).
  - vm_compute. reflexivity.
  - vm_compute. reflexivity.
  - vm_compute. reflexivity.
Defined.

Lemma Finish_trailer_witness :
  0 < pos (snd (writeDocumentCatalogAndPages (rt := sampleRuntime) (co := noCollaborators) onePage)) ∧
  ∃ tr before after,
    outfile (snd (Finish (rt := sampleRuntime) (co := noCollaborators) onePage)) =
      before +:+ "trailer" +:+ LF +:+ hashToString (rt := sampleRuntime) tr O +:+ after ∧
    mapGet tr "Size" = Some (VRaw "6") ∧
    mapGet tr "Root" = Some (VRaw "4 0 R").
Proof.
  split; [vm_compute; reflexivity|].
  destruct (Finish_trailer (rt := sampleRuntime) (co := noCollaborators) onePage 4
              (snd (writeDocumentCatalogAndPages
                      (rt := sampleRuntime) (co := noCollaborators) onePage)))
    as (tr & before & after & Hout & Hsize & Hroot & _).
  - vm_compute. reflexivity.
  - vm_compute. reflexivity.
  - exists tr, before, after. split; [exact Hout|]. split; [|exact Hroot].
    rewrite Hsize. vm_compute. reflexivity.
Defined.

(** ** Object numbers of the outline items *)

Section OutlineNumbers.
Context {rt : GoRuntime}.

Lemma keptBySave_nextobject (n : Z) : keptBySave (fun q => nextobject q = n).
Proof. constructor; intros; assumption. Qed.

(** [Save] does not allocate object numbers. *)
Lemma nextobject_Save a pw : nextobject (Save a pw) = nextobject pw.
Proof. now apply (kept_Save _ (keptBySave_nextobject (nextobject pw))). Qed.

Lemma assignNumbers_seq outlines pw :
  fst (assignNumbers outlines pw) = seqZ (nextobject pw) (Z.of_nat (length outlines)) ∧
  nextobject (snd (assignNumbers outlines pw)) =
    nextobject pw + Z.of_nat (length outlines).
Proof.
  revert pw. induction outlines as [|o rest IH]; intros pw.
  - split; [reflexivity|cbn; lia].
  - cbn [assignNumbers NextObject].
    specialize (IH (setNextobject (nextobject pw + 1) pw)).
    destruct (assignNumbers rest (setNextobject (nextobject pw + 1) pw)) as [ns pw1].
    cbn [fst snd nextobject setNextobject] in IH |- *. destruct IH as [-> ->].
    split.
    + rewrite (seqZ_cons (nextobject pw)) by (cbn [length]; lia).
      f_equal. f_equal; cbn [length]; lia.
    + cbn [length]. lia.
Qed.

(** The first and the last number that the loop of [writeOutline]
    returns, and the object numbers it uses up. *)
Lemma outlineLoop_numbers item outlines :
  Forall (fun o => ∀ n next prev c pw,
            nextobject (snd (item n next prev c o pw)) =
            nextobject pw + forestSize (Children o)) outlines →
  ∀ nums prev first last c pw,
    length nums = length outlines →
    let r := outlineLoop item outlines nums prev (first, last, c) pw in
    fst (fst (fst r)) = match prev, nums with
                        | None, n :: _ => n
                        | _, _ => first
                        end ∧
    snd (fst (fst r)) = List.last nums last ∧
    nextobject (snd r) =
      nextobject pw + fold_right (fun o acc => forestSize (Children o) + acc) 0 outlines.
Proof.
  induction 1 as [|o rest Ho Hrest IH]; intros nums prev first last c pw Hlen.
  - destruct nums; [|discriminate]. cbn [outlineLoop fst snd fold_right List.last].
    split; [now destruct prev|]. split; [reflexivity|lia].
  - destruct nums as [|n nums']; [discriminate|]. injection Hlen as Hlen.
    cbn [outlineLoop].
    specialize (Ho n (head nums') prev c pw).
    destruct (item n (head nums') prev c o pw) as [c1 pw1]. cbn [snd] in Ho.
    specialize (IH nums' (Some n)
                   (match prev with None => n | Some _ => first end)
                   (match nums' with [] => n | _ :: _ => last end)
                   c1 pw1 Hlen).
    cbv zeta in IH. destruct IH as (Hf & Hl & Hn).
    split; [|split].
    + rewrite Hf. now destruct prev.
    + rewrite Hl. destruct nums' as [|m nums'']; [reflexivity|].
      cbn [List.last]. reflexivity.
    + rewrite Hn, Ho. cbn [fold_right]. lia.
Qed.

Lemma forestSize_children outlines :
  Z.of_nat (length outlines) +
  fold_right (fun o acc => forestSize (Children o) + acc) 0 outlines =
  forestSize outlines.
Proof.
  induction outlines as [|o rest IH]; [reflexivity|].
  rewrite forestSize_cons, outlineSize_eq. cbn [length fold_right]. lia.
Qed.

Lemma writeOutlineItem_nextobject (o : Outline) :
  ∀ parent n next prev c pw,
    nextobject (snd (writeOutlineItem parent n next prev c o pw)) =
    nextobject pw + forestSize (Children o).
Proof.
  induction o as [children title open dest num IH] using Outline_nested_ind.
  intros parent n next prev c pw.
  rewrite writeOutlineItem_eq.
  unfold NewObjectWithNumber, alloc. cbv zeta. cbn [Children Open].
  set (pw1 := setStore (store pw ++ [emptyObject n]) pw).
  destruct children as [|x r].
  - cbn [snd]. rewrite nextobject_Save. cbn. lia.
  - unfold writeOutlineWith.
    destruct (assignNumbers_seq (x :: r) pw1) as [Hnums Hnext].
    destruct (assignNumbers (x :: r) pw1) as [nums pw2]. cbn [fst snd] in Hnums, Hnext.
    assert (Hlen : length nums = length (x :: r)).
    { rewrite Hnums, length_seqZ. lia. }
    assert (Hl := outlineLoop_numbers (writeOutlineItem n) (x :: r)).
    specialize (Hl ltac:(eapply Forall_impl; [exact IH|]; intros y Hy; exact (Hy n))
                   nums None 0 0 0 pw2 Hlen).
    cbv zeta in Hl.
    destruct (outlineLoop (writeOutlineItem n) (x :: r) nums None (0, 0, 0) pw2)
      as [[[f l] count] pw3].
    cbn [fst snd] in Hl |- *. destruct Hl as (_ & _ & Hn).
    rewrite nextobject_Save.
    change (nextobject (ObjectDict (length (store pw))
              (outlineChildEntries f l count open
                 (outlineBaseDict parent next prev (mkOutline (x :: r) title open dest num)))
              pw3)) with (nextobject pw3).
    rewrite Hn, Hnext. change (nextobject pw1) with (nextobject pw).
    rewrite <- (forestSize_children (x :: r)). lia.
Qed.

(** X12: [writeOutline] gives the items of one level consecutive object
    numbers, starting with the next free number; it returns the number
    of the first and of the last item of the level, and uses up as many
    object numbers as the forest has items.  For an empty list it
    returns zeros and leaves the writer as it is. *)
Theorem writeOutline_numbers (parent : Z) (outlines : list Outline) (pw : PDF) :
  let r := writeOutline parent outlines pw in
  nextobject (snd r) = nextobject pw + forestSize outlines ∧
  (outlines = [] → r = ((0, 0, 0), pw)) ∧
  (outlines ≠ [] →
   fst (fst (fst r)) = nextobject pw ∧
   snd (fst (fst r)) = nextobject pw + Z.of_nat (length outlines) - 1).
Proof.
  cbv zeta. destruct outlines as [|o rest].
  { split; [cbn; lia|]. split; [reflexivity|contradiction]. }
  unfold writeOutline, writeOutlineWith.
  destruct (assignNumbers_seq (o :: rest) pw) as [Hnums Hnext].
  destruct (assignNumbers (o :: rest) pw) as [nums pw1]. cbn [fst snd] in Hnums, Hnext.
  assert (Hlen : length nums = length (o :: rest)).
  { rewrite Hnums, length_seqZ. lia. }
  assert (Hl := outlineLoop_numbers (writeOutlineItem parent) (o :: rest)).
  specialize (Hl ltac:(apply Forall_forall; intros o' _ n next prev c q;
                       apply writeOutlineItem_nextobject)
                 nums None 0 0 0 pw1 Hlen).
  cbv zeta in Hl. destruct Hl as (Hf & Hla & Hn).
  split; [|split].
  - rewrite Hn, Hnext. rewrite <- (forestSize_children (o :: rest)). lia.
  - discriminate.
  - intros _. rewrite Hf, Hla, Hnums. cbn [length].
    rewrite (seqZ_cons (nextobject pw)) by lia.
    split; [reflexivity|].
    rewrite <- (seqZ_cons (nextobject pw)) by lia.
    rewrite seqZ_S. rewrite last_last. lia.
Qed.
End OutlineNumbers.

Lemma writeOutline_numbers_witness :
  [openOverCollapsed] ≠ [] ∧
  fst (fst (fst (writeOutline (rt := sampleRuntime) 1 [openOverCollapsed] outlineWriter))) = 2 ∧
  nextobject (snd (writeOutline (rt := sampleRuntime) 1 [openOverCollapsed] outlineWriter)) = 6.
Proof.
  destruct (writeOutline_numbers (rt := sampleRuntime) 1 [openOverCollapsed] outlineWriter)
    as (Hn & _ & Hf).
  split; [discriminate|]. split.
  - destruct (Hf ltac:(discriminate)) as [H _]. rewrite H. reflexivity.
  - rewrite Hn. reflexivity.
Defined.

(** ** Names and references *)

Lemma plainName_cons c rest :
  plainName (String c rest) = true →
  c ≠ "#"%char ∧ c ≠ "/"%char ∧ c ≠ "("%char ∧ c ≠ ")"%char ∧ plainName rest = true.
Proof.
  unfold plainName. cbn [list_ascii_of_string forallb]. unfold reservedInName.
  intros H. apply andb_true_iff in H as [H1 H2].
  apply negb_true_iff in H1. apply orb_false_iff in H1 as [H1 Hd].
  apply orb_false_iff in H1 as [H1 Hc]. apply orb_false_iff in H1 as [Ha Hb].
  repeat split; try (now apply Ascii.eqb_neq); exact H2.
Qed.

Lemma Replace_plainName n : plainName n = true → Replace PDFNameReplacer n = n.
Proof.
  unfold Replace. induction n as [|c rest IH]; intros Hp; [reflexivity|].
  apply plainName_cons in Hp as (H1 & H2 & H3 & H4 & Hrest).
  cbn [replaceFrom].
  assert (Hl : lookupOld PDFNameReplacer (String c rest) = None).
  { unfold PDFNameReplacer. cbn [lookupOld].
    assert (E : String.prefix "#20" (String c rest) = false).
    { cbn [String.prefix]. destruct (ascii_dec "#" c) as [E|E]; [congruence|reflexivity]. }
    rewrite E, !prefix_one.
    destruct (Ascii.eqb_spec "/" c); [congruence|].
    destruct (Ascii.eqb_spec "#" c); [congruence|].
    destruct (Ascii.eqb_spec "(" c); [congruence|].
    destruct (Ascii.eqb_spec ")" c); [congruence|]. reflexivity. }
  rewrite Hl. now rewrite (IH Hrest).
Qed.

(** X13: a name without any of the bytes [#], [/], [(] and [)] is
    rendered as a slash followed by the name, and the same name with one
    slash in front is rendered in the same way: the slash is not
    doubled. *)
Theorem NameString_plain (n : Name) :
  plainName n = true →
  NameString n = "/" +:+ n ∧ NameString ("/" +:+ n) = "/" +:+ n.
Proof.
  intros Hp. unfold NameString. cbv zeta. split.
  - assert (Hc : CutPrefix1 n "/" = n).
    { destruct n as [|c rest]; [reflexivity|].
      apply plainName_cons in Hp as (_ & H2 & _). cbn [CutPrefix1].
      destruct (Ascii.eqb_spec c "/"); [contradiction|reflexivity]. }
    rewrite Hc. now rewrite Replace_plainName.
  - change (CutPrefix1 ("/" +:+ n) "/") with n. now rewrite Replace_plainName.
Qed.

Lemma NameString_plain_witness :
  plainName "AdobeGreen" = true ∧
  NameString "AdobeGreen" = "/AdobeGreen" ∧ NameString "/AdobeGreen" = "/AdobeGreen".
Proof.
  split; [reflexivity|]. apply (NameString_plain "AdobeGreen"). reflexivity.
Defined.

(** *** Decimal numbers *)

Lemma codeOf_digitChar d : 0 <= d < 10 → codeOf (digitChar d) = 48 + d.
Proof. intros H. unfold digitChar. apply codeOf_byteOf. lia. Qed.

Lemma parseDigits_app acc s t :
  parseDigits acc (s +:+ t) = parseDigits (parseDigits acc s) t.
Proof.
  revert acc. induction s as [|c s IH]; intros acc; [reflexivity|].
  rewrite sapp_cons. cbn [parseDigits]. apply IH.
Qed.

Lemma parseDigits_decimalFixed k : ∀ acc n,
  0 <= n → parseDigits acc (decimalFixed k n) = acc * 10 ^ Z.of_nat k + n mod 10 ^ Z.of_nat k.
Proof.
  induction k as [|k IH]; intros acc n Hn.
  - cbn [decimalFixed parseDigits]. change (10 ^ Z.of_nat 0) with 1. rewrite Z.mod_1_r. lia.
  - cbn [decimalFixed]. rewrite parseDigits_app, IH by (apply Z.div_pos; lia).
    cbn [parseDigits]. rewrite codeOf_digitChar by (apply Z.mod_pos_bound; lia).
    rewrite Nat2Z.inj_succ, Z.pow_succ_r by lia.
    set (p := 10 ^ Z.of_nat k). assert (Hp : 0 < p) by (apply Z.pow_pos_nonneg; lia).
    rewrite Z.rem_mul_r by lia. lia.
Qed.

(** Reading the text of a number gives the number back. *)
Lemma parseInt_fmt_d n : parseInt (fmt_d n) = n.
Proof.
  assert (Hu : ∀ m, 0 <= m →
            parseDigits 0 (formatUint m) = m ∧
            ∃ c rest, formatUint m = String c rest ∧ c ≠ "-"%char).
  { intros m Hm. destruct (formatUint_spec m Hm) as (j & Hj & Hlt & _ & ->).
    split.
    - rewrite parseDigits_decimalFixed by exact Hm. rewrite Z.mod_small by lia. lia.
    - destruct j as [|j]; [lia|].
      clear. revert m. induction j as [|j IH]; intros m.
      + cbn [decimalFixed]. eexists _, _. split; [reflexivity|].
        unfold digitChar. intros E. apply (f_equal codeOf) in E.
        rewrite codeOf_byteOf in E by (pose proof (Z.mod_pos_bound m 10); lia).
        change (codeOf "-") with 45 in E. pose proof (Z.mod_pos_bound m 10). lia.
      + destruct (IH (m / 10)) as (c & rest & E & Hc).
        change (decimalFixed (S (S j)) m) with
          (decimalFixed (S j) (m / 10) +:+ String (digitChar (m mod 10)) "").
        rewrite E. eexists _, _. split; [reflexivity|exact Hc]. }
  unfold fmt_d. destruct (Z.ltb_spec n 0) as [Hn|Hn].
  - destruct (Hu (- n)) as [Hp _]; [lia|].
    change (parseInt ("-" +:+ formatUint (- n))) with (- parseDigits 0 (formatUint (- n))).
    lia.
  - destruct (Hu n Hn) as [Hp (c & rest & E & Hc)].
    unfold parseInt. rewrite E. destruct (Ascii.eqb_spec c "-"); [contradiction|].
    rewrite <- E. exact Hp.
Qed.

Lemma sapp_inv_tail (a b t : string) : a +:+ t = b +:+ t → a = b.
Proof.
  revert b. induction a as [|x a IH]; intros b H.
  - destruct b as [|y b]; [reflexivity|]. exfalso.
    apply (f_equal String.length) in H. rewrite !slength_app in H. cbn in H. lia.
  - destruct b as [|y b].
    + exfalso. apply (f_equal String.length) in H. rewrite !slength_app in H. cbn in H. lia.
    + rewrite !sapp_cons in H. injection H as -> H. f_equal. now apply IH.
Qed.

(** X14: the reference of an object number determines the number: two
    object numbers with the same reference are equal. *)
Theorem Ref_injective (a b : Z) : Ref a = Ref b → a = b.
Proof.
  unfold Ref. intros H. apply sapp_inv_tail in H.
  rewrite <- (parseInt_fmt_d a), <- (parseInt_fmt_d b). now rewrite H.
Qed.

Lemma Ref_injective_witness : Ref 12 = "12 0 R" ∧ 12 = 12.
Proof.
  split; [reflexivity|]. apply (Ref_injective 12 12). reflexivity.
Defined.

(** X15: the internal names of two images are the same only when the
    images have the same id, and likewise for two faces: the names tell
    the resources of a page apart. *)
Theorem InternalName_injective (i j : Imagefile) (f g : Face) :
  (ImageInternalName i = ImageInternalName j → id i = id j) ∧
  (FaceInternalName f = FaceInternalName g → FaceID f = FaceID g).
Proof.
  unfold ImageInternalName, FaceInternalName. split; intros H.
  - assert (E : fmt_d (id i) = fmt_d (id j)).
    { change ("/ImgBag" +:+ fmt_d (id i)) with
        (String "/" (String "I" (String "m" (String "g" (String "B" (String "a"
           (String "g" (fmt_d (id i))))))))) in H.
      change ("/ImgBag" +:+ fmt_d (id j)) with
        (String "/" (String "I" (String "m" (String "g" (String "B" (String "a"
           (String "g" (fmt_d (id j))))))))) in H.
      now injection H. }
    rewrite <- (parseInt_fmt_d (id i)), <- (parseInt_fmt_d (id j)). now rewrite E.
  - assert (E : fmt_d (FaceID f) = fmt_d (FaceID g)).
    { change ("/F" +:+ fmt_d (FaceID f)) with (String "/" (String "F" (fmt_d (FaceID f)))) in H.
      change ("/F" +:+ fmt_d (FaceID g)) with (String "/" (String "F" (fmt_d (FaceID g)))) in H.
      now injection H. }
    rewrite <- (parseInt_fmt_d (FaceID f)), <- (parseInt_fmt_d (FaceID g)). now rewrite E.
Qed.

(** ** Page boxes: errors and repeated clamping *)

(** X16: [GetPDFBoxDimensions] fails in three cases only: the page is
    not there, the page has no [/MediaBox], or the page has no box of the
    name asked for and the name is not one of the five box names.  In
    every other case it returns a box. *)
Theorem GetPDFBoxDimensions_errors (imgf : Imagefile) (p : Z) (boxName : string) :
  match GetPDFBoxDimensions imgf p boxName with
  | inl (PageNotFound q) => q = p ∧ PageSizes imgf !! p = None
  | inl (NoMediaBox q) =>
      q = p ∧ ∃ pg, PageSizes imgf !! p = Some pg ∧
                    boxEmpty (pageBox pg "/MediaBox") = true
  | inl (UnknownBox name q) =>
      name = boxName ∧ q = p ∧
      ∃ pg, PageSizes imgf !! p = Some pg ∧
            boxEmpty (pageBox pg "/MediaBox") = false ∧
            boxEmpty (pageBox pg boxName) = true ∧
            ¬ In boxName boxNames
  | inr out =>
      ∃ pg, PageSizes imgf !! p = Some pg ∧
            boxEmpty (pageBox pg "/MediaBox") = false ∧
            (boxEmpty (pageBox pg boxName) = false ∨ In boxName boxNames)
  end.
Proof.
  unfold GetPDFBoxDimensions.
  destruct (PageSizes imgf !! p) as [pg|] eqn:Hpg; [|now split].
  cbv zeta. destruct (boxEmpty (pageBox pg "/MediaBox")) eqn:Hmb.
  { split; [reflexivity|]. now exists pg. }
  unfold pick. cbv zeta.
  destruct (boxEmpty (pageBox pg boxName)) eqn:Hown; cbn [negb].
  - destruct (String.eqb_spec boxName "/CropBox") as [->|Hc].
    { rewrite Hmb. cbn [String.eqb Ascii.eqb Bool.eqb].
      exists pg. repeat split; try assumption. right. unfold boxNames. cbn. tauto. }
    destruct (String.eqb_spec boxName "/ArtBox") as [->|Ha].
    { assert (E : boxEmpty (if negb (boxEmpty (pageBox pg "/CropBox"))
                            then pageBox pg "/CropBox" else pageBox pg "/MediaBox") = false)
        by (destruct (boxEmpty (pageBox pg "/CropBox")) eqn:Ecb; cbn [negb]; assumption).
      cbn [orb]. rewrite E. cbn [String.eqb Ascii.eqb Bool.eqb].
      exists pg. repeat split; try assumption. right. unfold boxNames. cbn. tauto. }
    destruct (String.eqb_spec boxName "/BleedBox") as [->|Hb].
    { assert (E : boxEmpty (if negb (boxEmpty (pageBox pg "/CropBox"))
                            then pageBox pg "/CropBox" else pageBox pg "/MediaBox") = false)
        by (destruct (boxEmpty (pageBox pg "/CropBox")) eqn:Ecb; cbn [negb]; assumption).
      cbn [orb]. rewrite E. cbn [String.eqb Ascii.eqb Bool.eqb].
      exists pg. repeat split; try assumption. right. unfold boxNames. cbn. tauto. }
    destruct (String.eqb_spec boxName "/TrimBox") as [->|Ht].
    { assert (E : boxEmpty (if negb (boxEmpty (pageBox pg "/CropBox"))
                            then pageBox pg "/CropBox" else pageBox pg "/MediaBox") = false)
        by (destruct (boxEmpty (pageBox pg "/CropBox")) eqn:Ecb; cbn [negb]; assumption).
      cbn [orb]. rewrite E. cbn [String.eqb Ascii.eqb Bool.eqb].
      exists pg. repeat split; try assumption. right. unfold boxNames. cbn. tauto. }
    cbn [orb].
    assert (E : boxEmpty (∅ : Box) = true) by reflexivity.
    rewrite E. split; [reflexivity|]. split; [reflexivity|].
    exists pg. repeat split; try assumption.
    unfold boxNames. intros [<-|[<-|[<-|[<-|[<-|[]]]]]]; congruence.
  - rewrite Hown.
    destruct (String.eqb boxName "/MediaBox"); exists pg; repeat split; try assumption;
      now left.
Qed.

(** Where the result of [intersectBox] has its entries. *)
Lemma intersectBox_lookup (bx mediabox : Box) :
  let out := intersectBox bx mediabox in
  out !! "x" = Some (boxGet out "llx") ∧
  out !! "y" = Some (boxGet out "lly") ∧
  out !! "w" = Some (PrimFloat.sub (boxGet out "urx") (boxGet out "llx")) ∧
  out !! "h" = Some (PrimFloat.sub (boxGet out "ury") (boxGet out "lly")).
Proof.
  cbv zeta.
  destruct (intersectBox_edges bx mediabox) as (_ & _ & _ & _ & Hx & Hy & Hw & Hh).
  cbv zeta in Hx, Hy, Hw, Hh.
  assert (Hsome : ∀ k, is_Some (intersectBox bx mediabox !! k) →
            intersectBox bx mediabox !! k = Some (boxGet (intersectBox bx mediabox) k)).
  { intros k [v Hv]. unfold boxGet. now rewrite Hv. }
  split; [rewrite <- Hx|split; [rewrite <- Hy|split; [rewrite <- Hw|rewrite <- Hh]]];
    apply Hsome; unfold intersectBox; cbv zeta;
    repeat (first [rewrite lookup_insert_eq | rewrite lookup_insert_ne by discriminate]);
    eexists; reflexivity.
Qed.

(** No edge of the result of [intersectBox] is outside the second
    box. *)
Lemma intersectBox_inside (bx mediabox : Box) :
  let out := intersectBox bx mediabox in
  PrimFloat.ltb (boxGet out "lly") (boxGet mediabox "lly") = false ∧
  PrimFloat.ltb (boxGet out "llx") (boxGet mediabox "llx") = false ∧
  PrimFloat.ltb (boxGet mediabox "ury") (boxGet out "ury") = false ∧
  PrimFloat.ltb (boxGet mediabox "urx") (boxGet out "urx") = false.
Proof.
  cbv zeta.
  destruct (intersectBox_edges bx mediabox) as (Hllx & Hlly & Hurx & Hury & _).
  cbv zeta in Hllx, Hlly, Hurx, Hury.
  rewrite Hllx, Hlly, Hurx, Hury.
  repeat split;
    match goal with
    | |- context [if ?c then _ else _] => destruct c eqn:E; [apply float_ltb_irrefl|exact E]
    end.
Qed.

(** X17: clamping a box that has been clamped changes nothing. *)
Theorem intersectBox_idempotent (bx mediabox : Box) :
  intersectBox (intersectBox bx mediabox) mediabox = intersectBox bx mediabox.
Proof.
  destruct (intersectBox_inside bx mediabox) as (I1 & I2 & I3 & I4).
  destruct (intersectBox_lookup bx mediabox) as (Lx & Ly & Lw & Lh).
  cbv zeta in I1, I2, I3, I4, Lx, Ly, Lw, Lh.
  set (out := intersectBox bx mediabox) in *.
  unfold intersectBox. cbv zeta. rewrite I1, I2, I3, I4.
  rewrite (insert_id out "x" _ Lx), (insert_id out "y" _ Ly), (insert_id out "w" _ Lw).
  apply (insert_id out "h" _ Lh).
Qed.

(** ** The font face: used code points, names and flags *)

Lemma fold_insert_true (cps : list Z) : ∀ (m : gmap Z bool) k,
  fold_left (fun m v => <[ v := true ]> m) cps m !! k =
  if bool_decide (k ∈ cps) then Some true else m !! k.
Proof.
  induction cps as [|c cps IH]; intros m k.
  - cbn [fold_left]. rewrite bool_decide_eq_false_2; [reflexivity|]. apply not_elem_of_nil.
  - cbn [fold_left]. rewrite IH.
    destruct (decide (k ∈ cps)) as [Hin|Hnin].
    + rewrite !bool_decide_eq_true_2; [reflexivity|now right|exact Hin].
    + rewrite (bool_decide_eq_false_2 _ Hnin).
      destruct (decide (k = c)) as [->|Hne].
      * rewrite lookup_insert_eq. rewrite bool_decide_eq_true_2; [reflexivity|now left].
      * rewrite lookup_insert_ne by congruence.
        rewrite bool_decide_eq_false_2; [reflexivity|].
        intros Hin. apply elem_of_cons in Hin as [?|?]; contradiction.
Qed.

(** X18: after [RegisterCodepoints] the code points marked as used are
    glyph 0, the code points given and those marked before, and no other;
    registering one code point is registering the list of that one, and
    registering two lists one after the other is registering them
    joined. *)
Theorem RegisterCodepoints_used (usedChar : gmap Z bool) (codepoints more : list Z)
    (c k : Z) :
  isUsed (RegisterCodepoints usedChar codepoints) k =
    (bool_decide (k = 0) || bool_decide (k ∈ codepoints) || isUsed usedChar k) ∧
  RegisterCodepoint usedChar c = RegisterCodepoints usedChar [c] ∧
  RegisterCodepoints (RegisterCodepoints usedChar codepoints) more =
    RegisterCodepoints usedChar (codepoints ++ more).
Proof.
  split; [|split].
  - unfold isUsed, RegisterCodepoints. cbv zeta. rewrite fold_insert_true.
    destruct (decide (k ∈ codepoints)) as [Hin|Hnin].
    + rewrite (bool_decide_eq_true_2 _ Hin). now rewrite orb_true_r.
    + rewrite (bool_decide_eq_false_2 _ Hnin), orb_false_r.
      destruct (decide (k = 0)) as [->|Hne].
      * rewrite lookup_insert_eq. reflexivity.
      * rewrite lookup_insert_ne by congruence.
        now rewrite (bool_decide_eq_false_2 _ Hne).
  - reflexivity.
  - unfold RegisterCodepoints. cbv zeta. rewrite fold_left_app.
    f_equal. apply map_eq. intros j.
    destruct (decide (j = 0)) as [->|Hne].
    + rewrite lookup_insert_eq. rewrite fold_insert_true.
      destruct (bool_decide (0 ∈ codepoints)); [reflexivity|symmetry; apply lookup_insert_eq].
    + now rewrite lookup_insert_ne by congruence.
Qed.

(** X19: the font flags are never zero: bit 1 is set for a fixed-pitch
    font, bit 7 for an italic one, and bit 3 exactly when neither is. *)
Theorem flagsPDF_bits (f : OTFace) :
  flagsPDF f ≠ 0 ∧
  Z.testbit (flagsPDF f) 0 = IsFixedPitch f ∧
  Z.testbit (flagsPDF f) 6 = IsItalic f ∧
  Z.testbit (flagsPDF f) 2 = negb (IsFixedPitch f || IsItalic f) ∧
  0 < flagsPDF f <= 65.
Proof.
  unfold flagsPDF. destruct (IsFixedPitch f), (IsItalic f); cbv zeta;
    (split; [discriminate|]); repeat split; try reflexivity; vm_compute; congruence.
Qed.

(** X20: the stem width estimate does not decrease when the weight
    class grows, and it is one of 80, 100 and 140. *)
Theorem stemVPDF_monotone (f g : OTFace) :
  WeightClass f <= WeightClass g →
  stemVPDF f <= stemVPDF g ∧ In (stemVPDF f) [80; 100; 140].
Proof.
  intros H. unfold stemVPDF. cbv zeta.
  destruct (Z.leb_spec 700 (WeightClass f)), (Z.leb_spec 700 (WeightClass g)),
    (Z.leb_spec 500 (WeightClass f)), (Z.leb_spec 500 (WeightClass g));
    cbn [In]; split; try lia; tauto.
Qed.

Lemma stemVPDF_monotone_witness :
  WeightClass sampleFace <= WeightClass sampleFace ∧ stemVPDF sampleFace = 80.
Proof.
  split; [reflexivity|].
  destruct (stemVPDF_monotone sampleFace sampleFace (Z.le_refl _)) as [_ H].
  reflexivity.
Defined.

Section FontName.
Context {rt : GoRuntime}.

(** X21: the font name made from a subset tag is a slash, the six
    upper-case letters of the tag, a plus sign and the PostScript name
    of the font, or [Unknown] when the font has no PostScript name. *)
Theorem fontNamePDF_subsetTag (f : OTFace) (glyphs : list Z)
    (variations : list (string * float)) :
  let tag := subsetTag glyphs variations in
  fontNamePDF f tag =
    "/" +:+ tag +:+ "+" +:+
    (if String.eqb (PostscriptName f) "" then "Unknown" else PostscriptName f) ∧
  String.length tag = 6%nat ∧
  Forall isUpper (list_ascii_of_string tag).
Proof.
  cbv zeta.
  assert (Hlen : String.length (subsetTag glyphs variations) = 6%nat).
  { rewrite subsetTag_is_reference. unfold subsetTagReference.
    apply tagLetters_upper; [apply MD5_Sum_length|lia]. }
  split; [|split; [exact Hlen|]].
  - unfold fontNamePDF. cbv zeta.
    destruct (String.eqb_spec (subsetTag glyphs variations) "") as [E|_];
      [rewrite E in Hlen; discriminate|reflexivity].
  - rewrite subsetTag_is_reference. unfold subsetTagReference. apply tagLetters_upper.
Qed.
End FontName.

Lemma Codepoints_fold (lookup : Z → option Z) (runes : list Z) : ∀ acc,
  fold_left (fun ret r => match lookup r with
                          | Some gid => ret ++ [gid]
                          | None => ret
                          end) runes acc =
  acc ++ flat_map (fun r => match lookup r with Some gid => [gid] | None => [] end) runes.
Proof.
  induction runes as [|r runes IH]; intros acc; [now rewrite app_nil_r|].
  cbn [fold_left flat_map]. rewrite IH.
  destruct (lookup r) as [gid|]; [now rewrite <- app_assoc|reflexivity].
Qed.

(** X22: [Codepoints] gives the glyphs of the runes that the character
    map of the font knows, in the order of the runes, and leaves out the
    others, for which [Codepoint] gives 0; the result is not longer than
    the list of runes.  For a font without character map the result is
    empty. *)
Theorem Codepoints_mapped (f : OTFace) (runes : list Z) :
  match Cmap f with
  | None => Codepoints f runes = [] ∧ ∀ r, Codepoint f r = 0
  | Some lookup =>
      Codepoints f runes =
        map (Codepoint f) (List.filter (fun r => bool_decide (is_Some (lookup r))) runes) ∧
      (∀ r, lookup r = None → Codepoint f r = 0)
  end ∧
  (length (Codepoints f runes) <= length runes)%nat.
Proof.
  unfold Codepoints, Codepoint.
  destruct (Cmap f) as [lookup|].
  - rewrite Codepoints_fold. cbn [app].
    assert (E : flat_map (fun r => match lookup r with Some gid => [gid] | None => [] end)
                         runes =
                map (fun r => match lookup r with Some gid => gid | None => 0 end)
                    (List.filter (fun r => bool_decide (is_Some (lookup r))) runes)).
    { induction runes as [|r runes IH]; [reflexivity|].
      cbn [List.filter flat_map].
      destruct (lookup r) as [gid|] eqn:El.
      - rewrite bool_decide_eq_true_2 by (now eexists). cbn [map app]. rewrite El.
        now rewrite IH.
      - rewrite bool_decide_eq_false_2 by (intros [x Hx]; discriminate). exact IH. }
    split; [split; [exact E|]|].
    + intros r Hr. now rewrite Hr.
    + rewrite E, length_map. apply List.filter_length_le.
  - split; [split; [reflexivity|reflexivity]|cbn; lia].
Qed.

(** ** The width array *)

Lemma runsOf_head g rest : ∃ run runs, runsOf (g :: rest) = (g :: run) :: runs.
Proof.
  cbn [runsOf]. destruct (runsOf rest) as [|[|h run] runs]; try (now eexists _, _).
  destruct (h =? g + 1); now eexists _, _.
Qed.

Lemma Join_cons_cat (x : string) (l : list string) :
  Join (x :: l) " " = x +:+ cat (map (fun s => " " +:+ s) l).
Proof.
  revert x. induction l as [|y l IH]; intros x.
  - cbn. now rewrite sapp_nil_r.
  - change (Join (x :: y :: l) " ") with (x +:+ " " +:+ Join (y :: l) " ").
    rewrite IH. cbn [map cat]. now rewrite !sapp_assoc.
Qed.

(** The inner loop takes the rest of the run that starts with [cp]. *)
Lemma widthsRun_spec (wd : Z → string) (rest : list Z) : ∀ cp,
  ∃ taken,
    rest = taken ++ snd (widthsRun wd cp rest) ∧
    runsOf (cp :: rest) = (cp :: taken) :: runsOf (snd (widthsRun wd cp rest)) ∧
    fst (widthsRun wd cp rest) = cat (map (fun g => " " +:+ wd g) taken).
Proof.
  induction rest as [|g rest IH]; intros cp.
  - exists []. now repeat split.
  - cbn [widthsRun]. destruct (Z.eqb_spec g (cp + 1)) as [->|Hne].
    + cbv zeta. destruct (IH (cp + 1)) as (taken & Hrest & Hruns & Htext).
      destruct (widthsRun wd (cp + 1) rest) as [s r]. cbn [fst snd] in *.
      exists (cp + 1 :: taken). split; [|split].
      * cbn [app]. now f_equal.
      * change (runsOf (cp :: cp + 1 :: rest)) with
          (match runsOf (cp + 1 :: rest) with
           | (h :: run) :: runs =>
               if h =? cp + 1 then (cp :: h :: run) :: runs
               else [cp] :: (h :: run) :: runs
           | _ => [[cp]]
           end).
        rewrite Hruns. now rewrite Z.eqb_refl.
      * cbn [map cat]. rewrite Htext. now rewrite !sapp_assoc.
    + exists []. cbn [fst snd app map cat]. split; [reflexivity|]. split; [|reflexivity].
      destruct (runsOf_head g rest) as (run & runs & E).
      change (runsOf (cp :: g :: rest)) with
        (match runsOf (g :: rest) with
         | (h :: run) :: runs =>
             if h =? cp + 1 then (cp :: h :: run) :: runs
             else [cp] :: (h :: run) :: runs
         | _ => [[cp]]
         end).
      rewrite E. destruct (Z.eqb_spec g (cp + 1)); [contradiction|reflexivity].
Qed.

Lemma widthsLoop_runs (wd : Z → string) (fuel : nat) : ∀ sorted,
  (length sorted <= fuel)%nat →
  widthsLoop wd fuel sorted = cat (map (widthEntry wd) (runsOf sorted)).
Proof.
  induction fuel as [|fuel IH]; intros sorted Hlen.
  - destruct sorted; [reflexivity|cbn in Hlen; lia].
  - destruct sorted as [|cp rest]; [reflexivity|].
    cbn [widthsLoop].
    destruct (widthsRun_spec wd rest cp) as (taken & Hrest & Hruns & Htext).
    destruct (widthsRun wd cp rest) as [s r]. cbn [fst snd] in *.
    rewrite Hruns. cbn [map cat]. rewrite IH.
    + unfold widthEntry at 2. cbn [List.hd map]. rewrite Join_cons_cat.
      rewrite map_map, Htext. now rewrite !sapp_assoc.
    + cbn [length] in Hlen. rewrite Hrest, length_app in Hlen. lia.
Qed.

Lemma runsOf_step g g' rest :
  ∃ run runs,
    runsOf (g' :: rest) = (g' :: run) :: runs ∧
    runsOf (g :: g' :: rest) =
      if g' =? g + 1 then (g :: g' :: run) :: runs else [g] :: (g' :: run) :: runs.
Proof.
  destruct (runsOf_head g' rest) as (run & runs & E). exists run, runs.
  split; [exact E|].
  change (runsOf (g :: g' :: rest)) with
    (match runsOf (g' :: rest) with
     | (h :: run) :: runs =>
         if h =? g + 1 then (g :: h :: run) :: runs else [g] :: (h :: run) :: runs
     | _ => [[g]]
     end).
  now rewrite E.
Qed.

Lemma runsOf_concat (l : list Z) : concat (runsOf l) = l.
Proof.
  induction l as [|g rest IH]; [reflexivity|].
  destruct rest as [|g' rest]; [reflexivity|].
  destruct (runsOf_step g g' rest) as (run & runs & E & ->). rewrite E in IH.
  destruct (g' =? g + 1); cbn [concat app] in IH |- *; now rewrite IH.
Qed.

Lemma runsOf_consecutive (l : list Z) : Forall consecutive (runsOf l).
Proof.
  induction l as [|g rest IH]; [constructor|].
  destruct rest as [|g' rest]; [repeat constructor|].
  destruct (runsOf_step g g' rest) as (run & runs & E & ->). rewrite E in IH.
  inversion IH as [|? ? Hc Hrest]; subst.
  destruct (Z.eqb_spec g' (g + 1)) as [->|Hne].
  - constructor; [|exact Hrest].
    unfold consecutive in Hc |- *. cbn [List.hd length] in Hc |- *.
    rewrite (seqZ_cons g) by lia. f_equal.
    replace (Z.pred (Z.of_nat (S (S (length run))))) with (Z.of_nat (S (length run))) by lia.
    exact Hc.
  - constructor; [reflexivity|]. constructor; assumption.
Qed.

(** Two runs that follow each other do not join. *)
Lemma runsOf_maximal (l : list Z) :
  ∀ r1 r2 before after, runsOf l = before ++ r1 :: r2 :: after →
    List.last r1 0 + 1 ≠ List.hd 0 r2.
Proof.
  induction l as [|g rest IH]; intros r1 r2 before after E.
  - destruct before; discriminate.
  - destruct rest as [|g' rest].
    { destruct before as [|? [|? ?]]; discriminate. }
    destruct (runsOf_step g g' rest) as (run & runs & E' & Hs).
    rewrite Hs in E. rewrite E' in IH.
    destruct (Z.eqb_spec g' (g + 1)) as [->|Hne].
    + destruct before as [|b before].
      * injection E as <- E. subst runs.
        change (List.last (g :: g + 1 :: run) 0) with (List.last (g + 1 :: run) 0).
        apply (IH (g + 1 :: run) r2 [] after). reflexivity.
      * injection E as <- E. subst runs.
        apply (IH r1 r2 ((g + 1 :: run) :: before) after). reflexivity.
    + destruct before as [|b before].
      * injection E as <- <- <-. cbn [List.last List.hd]. lia.
      * injection E as <- E. apply (IH r1 r2 before after). exact E.
Qed.

Section WidthsFacts.
Context {rt : GoRuntime}.

(** X23: the width array lists the glyphs in ascending order, cut into
    runs of consecutive glyph numbers: each entry is the first glyph of
    a run followed, in brackets, by the width of every glyph of the
    run.  The runs are as long as they can be, and together they are
    the sorted glyphs.  For no glyphs the array is empty. *)
Theorem widthsPDF_runs (f : OTMetrics) (newGlyphs : list Z) (reverseMap : gmap Z Z) :
  let sorted := Sort Z.ltb newGlyphs in
  let runs := runsOf sorted in
  widthsPDF f newGlyphs reverseMap =
    "[" +:+ cat (map (widthEntry (getWd f reverseMap)) runs) +:+ "]" ∧
  concat runs = sorted ∧
  Forall consecutive runs ∧
  (∀ r1 r2 before after, runs = before ++ r1 :: r2 :: after →
     List.last r1 0 + 1 ≠ List.hd 0 r2).
Proof.
  cbv zeta. split; [|split; [apply runsOf_concat|split; [apply runsOf_consecutive|]]].
  - unfold widthsPDF. destruct newGlyphs as [|g rest]; [reflexivity|].
    cbn [length]. destruct (Z.eqb_spec (Z.of_nat (S (length rest))) 0) as [E|_]; [lia|].
    cbv zeta. now rewrite widthsLoop_runs by lia.
  - apply runsOf_maximal.
Qed.
End WidthsFacts.

(** Glyphs 3, 1, 2 and 7 with the same advance of half an em. *)
Lemma widthsPDF_runs_example :
  widthsPDF (rt := sampleRuntime) sampleMetrics [3; 1; 2; 7] ∅ = "[1[500 500 500]7[500]]".
Proof. vm_compute. reflexivity. Qed.

(** ** The object-location table is exact *)

Lemma atOffset_appends off x pw pw' :
  appends pw pw' → atOffset off x (outfile pw) → atOffset off x (outfile pw').
Proof.
  intros [t Ht] (b & a & Hs & Hl). exists b, (a +:+ t). split; [|exact Hl].
  rewrite Ht, Hs. now rewrite !sapp_assoc.
Qed.

Lemma offsetsExact_NewPDFWriter : offsetsExact NewPDFWriter.
Proof.
  split; [reflexivity|]. intros n off Hn Hl. exfalso.
  change (objectlocations NewPDFWriter) with (<[0 := 0]> (∅ : gmap Z Z)) in Hl.
  rewrite lookup_insert_ne in Hl by congruence. now rewrite lookup_empty in Hl.
Qed.

Lemma offsetsExact_Save {rt : GoRuntime} a pw : offsetsExact pw → offsetsExact (Save a pw).
Proof.
  intros [Hs Hl]. destruct (saved (getObject a pw)) eqn:E.
  - rewrite Save_saved_noop by exact E. now split.
  - split; [now apply sized_Save|]. intros n off Hn Hlk.
    rewrite (Save_objectlocations a pw E) in Hlk.
    destruct (decide (n = ObjectNumber (getObject a pw))) as [->|Hne].
    + rewrite lookup_insert_eq in Hlk. injection Hlk as <-.
      now apply Save_header_at.
    + rewrite lookup_insert_ne in Hlk by congruence.
      apply (atOffset_appends off _ pw); [apply appends_Save|]. now apply Hl.
Qed.

Lemma offsetsExact_ops {rt : GoRuntime} : keptByOps offsetsExact.
Proof.
  constructor.
  - intros s pw [Hs Hl]. split; [now apply sized_emit|]. intros n off Hn Hlk.
    apply (atOffset_appends off _ pw); [apply appends_emit|]. now apply Hl.
  - intros a pw. apply offsetsExact_Save.
  - intros s pw H. exact H.
  - intros n pw H. exact H.
  - intros n pw H. exact H.
Qed.

(** X24: the object-location table stays exact.  It is exact in a new
    writer, and when it is exact it still is after [Print], [Println],
    [Printf], [NextObject], [NewObject] and [Save]: every entry, the
    entry 0 of the free list apart, is the byte offset at which the line
    [N 0 obj] of its object starts in the output, also for the objects
    saved before and for a number that is saved again. *)
Theorem objectlocations_exact {rt : GoRuntime} (s : string) (a : nat) (pw : PDF) :
  offsetsExact pw →
  offsetsExact NewPDFWriter ∧
  offsetsExact (Print s pw) ∧ offsetsExact (Println s pw) ∧
  offsetsExact (Printf s pw) ∧ offsetsExact (snd (NextObject pw)) ∧
  offsetsExact (snd (NewObject pw)) ∧ offsetsExact (Save a pw).
Proof.
  intros H. pose proof offsetsExact_ops as HP.
  split; [apply offsetsExact_NewPDFWriter|].
  split; [now apply (ops_Print offsetsExact HP)|].
  split; [now apply (ops_Println offsetsExact HP)|].
  split; [now apply (ops_Printf offsetsExact HP)|].
  split; [now apply (kept_NextObject offsetsExact HP)|].
  split; [now apply (kept_NewObject offsetsExact HP)|].
  now apply offsetsExact_Save.
Qed.

(** X25: when the object-location table is exact before [Finish], and
    the image and font pipelines keep it so, every entry of the table
    from which [Finish] writes the cross-reference table, the entry 0
    apart, is the byte offset at which the line [N 0 obj] of its object
    starts in the finished output. *)
Theorem Finish_offsets_exact {rt : GoRuntime} {co : Collaborators} (pw : PDF) :
  collaboratorsKeep offsetsExact →
  offsetsExact pw →
  ∀ n off, n ≠ 0 →
    objectlocations (snd (Finish pw)) !! n = Some off →
    atOffset off (fmt_d n +:+ " 0 obj" +:+ LF) (outfile (snd (Finish pw))).
Proof.
  intros HC H.
  assert (HF : offsetsExact (snd (Finish pw))).
  { change ((fun q => offsetsExact q) (snd (Finish pw))).
    apply (kept_Finish offsetsExact offsetsExact_ops HC pw); [|exact H].
    intros k q Hq. exact Hq. }
  exact (proj2 HF).
Qed.

Lemma objectlocations_exact_witness :
  offsetsExact oneStream ∧
  offsetsExact (Save (rt := sampleRuntime) 0 oneStream).
Proof.
  assert (H : offsetsExact oneStream).
  { split; [reflexivity|]. intros n off Hn Hl. exfalso.
    change (objectlocations oneStream) with (<[0 := 0]> (∅ : gmap Z Z)) in Hl.
    rewrite lookup_insert_ne in Hl by congruence. now rewrite lookup_empty in Hl. }
  split; [exact H|].
  apply (objectlocations_exact (rt := sampleRuntime) "" 0 oneStream H).
Defined.

Lemma Finish_offsets_exact_witness :
  collaboratorsKeep (co := noCollaborators) offsetsExact ∧
  offsetsExact onePage ∧
  ∀ n off, n ≠ 0 →
    objectlocations (snd (Finish (rt := sampleRuntime) (co := noCollaborators) onePage)) !! n
      = Some off →
    atOffset off (fmt_d n +:+ " 0 obj" +:+ LF)
      (outfile (snd (Finish (rt := sampleRuntime) (co := noCollaborators) onePage))).
Proof.
  assert (H : offsetsExact onePage).
  { split; [reflexivity|]. intros n off Hn Hl. exfalso.
    change (objectlocations onePage) with (<[0 := 0]> (∅ : gmap Z Z)) in Hl.
    rewrite lookup_insert_ne in Hl by congruence. now rewrite lookup_empty in Hl. }
  split; [apply noCollaborators_keep|]. split; [exact H|].
  apply (Finish_offsets_exact (rt := sampleRuntime) (co := noCollaborators) onePage);
    [apply noCollaborators_keep|exact H].
Defined.
